(** * Coderr backend: the offer module

    A shallow embedding of the offer lifecycle of the Coderr marketplace
    backend ([offers/models.py], [offers/api/serializers.py],
    [offers/api/views.py], [offers/api/ordering.py],
    [offers/api/permissions.py]), with the filter backends and the
    paginator that the list view declares, and the properties of its
    specification.

    Conventions of the embedding:
    - the relational store is a record of tables, each a list of rows in
      insertion order; a view is a function from the store to the store
      after the request and either an exception or a response.  A write
      that happened before an exception stays: the views open no
      transaction;
    - Python floats (the [price] column) are the rationals they denote and
      [round(x, 2)] rounds to the nearest hundredth, ties to even;
    - JSON request bodies and query strings are records of optional,
      already typed fields: [None] is an absent key, and a search string
      is the list of its terms;
    - the database is SQLite, the one of a Django project that configures
      no other: an integer column holds 64 bits, text compares byte by
      byte, [LIKE] ignores the case of the ASCII letters and [NULL] sorts
      first;
    - timestamps are integers and the clock reading of a request is an
      argument of the view. *)

From Stdlib Require Import ZArith QArith Ascii String.
From stdpp Require Import base option list gmap strings sorting.

Close Scope Q_scope.
Local Open Scope string_scope.
Local Open Scope Z_scope.
Local Open Scope list_scope.

(** * Exceptions and the view monad *)

(** [serializer.errors] of one serializer: field name to messages, in field
    declaration order. *)
Abbreviation ErrorDict := (list (string * list string)).

(** The payload of a [serializers.ValidationError]. *)
Inductive ErrorDetail : Type :=
| FieldErrors (errors : ErrorDict) (details : list ErrorDict)
    (* raised by the field pass of a serializer: the errors of its own
       fields and, under the key [details], those of a nested list *)
| DetailErrors (errors : list ErrorDict).
    (* the dictionary with the one key [detail] raised by the [validate]
       hooks: one entry per invalid detail *)

Inductive APIException : Type :=
| NotAuthenticated
| PermissionDenied
| BusinessProfileRequired
| ValidationError (detail : ErrorDetail)
| Http404
| UncaughtException (name : string).

Definition status_code (e : APIException) : Z :=
  match e with
  | NotAuthenticated => 401
  | PermissionDenied => 403
  | BusinessProfileRequired => 403
  | ValidationError _ => 400
  | Http404 => 404
  | UncaughtException _ => 500
  end.

(** * Data model *)

Module Auth.

(** [user_auth.models.Profile], the columns the offer module reads. *)
Record Profile : Type := {
  type : string;
  first_name : string;
  last_name : string;
  username : string;
}.

(** [django.contrib.auth.models.User] with its reverse one-to-one
    [profile]; [None] is a user without a profile row, on which the
    attribute access raises [RelatedObjectDoesNotExist]. *)
Record User : Type := {
  id : Z;
  is_staff : bool;
  profile : option Profile;
}.

(** [request.user]. *)
Inductive RequestUser : Type :=
| AnonymousUser
| Authenticated (u : User).

Definition is_authenticated (r : RequestUser) : bool :=
  match r with AnonymousUser => false | Authenticated _ => true end.

(** [request.user.is_staff]; [AnonymousUser.is_staff] is [False]. *)
Definition request_is_staff (r : RequestUser) : bool :=
  match r with AnonymousUser => false | Authenticated u => is_staff u end.

(** [request.user == obj.user]: model instances are equal when their
    primary keys are; an anonymous user equals no row. *)
Definition user_eq (r : RequestUser) (owner : Z) : bool :=
  match r with AnonymousUser => false | Authenticated u => id u =? owner end.

End Auth.

Module Models.

(** [offers.models.Offer]. *)
Record Offer : Type := {
  id : Z;
  user : Z;
  title : string;
  description : string;
  image : option string;
  updated_at : Z;
  created_at : Z;
}.

(** [offers.models.OfferDetail]. *)
Record OfferDetail : Type := {
  detail_id : Z;
  detail_title : string;
  price : Q;
  delivery_time_in_days : Z;
  offer : Z;
  features : list string;
  offer_type : string;
  revisions : Z;
}.

Definition OFFER_TYPES : list string := ["basic"; "standard"; "premium"].

(** Python's [round(x)] on the exact value: nearest integer, ties to the
    even one. *)
Definition round_half_even (q : Q) : Z :=
  let n := Qnum q in
  let d := Z.pos (Qden q) in
  let f := n / d in
  let r := n mod d in
  if 2 * r <? d then f
  else if d <? 2 * r then f + 1
  else if Z.even f then f else f + 1.

(** Python's [round(x, 2)]. *)
Definition round2 (q : Q) : Q :=
  Qmake (round_half_even (Qmult q (Qmake 100 1))) 100.

(** [OfferDetail.round_price]; the column is not nullable, so the
    [is not None] branch is the only one. *)
Definition round_price (d : OfferDetail) : OfferDetail :=
  {| detail_id := detail_id d; detail_title := detail_title d;
     price := round2 (price d);
     delivery_time_in_days := delivery_time_in_days d;
     offer := offer d; features := features d;
     offer_type := offer_type d; revisions := revisions d |}.

(** The store. *)
Record DB : Type := {
  auth_user : list Auth.User;
  offers_offer : list Offer;
  offers_offerdetail : list OfferDetail;
  next_offer_id : Z;
  next_detail_id : Z;
}.

End Models.

Import Models.

(** * The view monad: store passing with exceptions *)

Definition View (A : Type) : Type := DB -> DB * (APIException + A).

Definition raise {A} (e : APIException) : View A := fun db => (db, inl e).

#[global] Instance View_ret : MRet View := fun A a db => (db, inr a).

#[global] Instance View_bind : MBind View := fun A B k m db =>
  match m db with
  | (db', inl e) => (db', inl e)
  | (db', inr a) => k a db'
  end.

Definition get_db : View DB := fun db => (db, inr db).

(** A pure step that may raise. *)
Definition lift {A} (r : APIException + A) : View A := fun db => (db, r).

(** A check that raises unless [b] holds. *)
Definition require (b : bool) (e : APIException) : View unit :=
  if b then mret tt else raise e.

(** * Request bodies *)

(** One entry of the [details] list of a request body, as the client
    sent it.  Seven keys are the fields of
    [OfferDetailSerializer.Meta.fields].  The serializers read no other
    key, but the loop of the update view hands the whole entry to
    [QuerySet.update]: [dd_offer] is the key [offer], the one column of
    the detail table that the serializers do not declare, and
    [dd_unknown] lists the further keys of the entry, which name no field
    of the model. *)
Record DetailData : Type := {
  dd_id : option Z;
  dd_title : option string;
  dd_revisions : option Z;
  dd_delivery_time_in_days : option Z;
  dd_price : option Q;
  dd_features : option (list string);
  dd_offer_type : option string;
  dd_offer : option Z;
  dd_unknown : list string;
}.

(** The body of a create or update request on an offer. *)
Record OfferData : Type := {
  od_title : option string;
  od_description : option string;
  od_image : option string;
  od_details : option (list DetailData);
}.

(** * Field checks generated from the model declarations

    [ModelSerializer] derives a serializer field from each model field:
    a [CharField] gets [max_length] and refuses blank input after trimming,
    a field with [choices] becomes a choice field, and a model field
    without default, [blank] or [null] is required. *)

Module Fields.

Definition msg_required : string := "This field is required.".
Definition msg_blank : string := "This field may not be blank.".
Definition msg_max_length : string :=
  "Ensure this field has no more than 255 characters.".
(** The message of a choice field names the input between double
    quotes. *)
Definition msg_invalid_choice (input : string) : string :=
  String (ascii_of_nat 34)
    (String.append input
       (String (ascii_of_nat 34) " is not a valid choice.")).
Definition msg_null_characters : string :=
  "Null characters are not allowed.".
Definition msg_max_value : string :=
  "Ensure this value is less than or equal to 9223372036854775807.".
Definition msg_min_value : string :=
  "Ensure this value is greater than or equal to -9223372036854775808.".

(** The range of an integer column.  The model field takes it from the
    database and [ModelSerializer] hands it to the serializer field as
    [min_value] and [max_value]: 64 bits on SQLite, the database of a
    Django project that configures no other. *)
Definition INTEGER_MIN : Z := -9223372036854775808.
Definition INTEGER_MAX : Z := 9223372036854775807.

(** Python's [str.isspace] on ASCII. *)
Definition is_space (c : ascii) : bool :=
  let n := nat_of_ascii c in
  ((9 <=? n) && (n <=? 13) || (28 <=? n) && (n <=? 32))%nat.

Fixpoint lstrip (s : string) : string :=
  match s with
  | EmptyString => EmptyString
  | String c s' => if is_space c then lstrip s' else s
  end.

Fixpoint rstrip (s : string) : string :=
  match s with
  | EmptyString => EmptyString
  | String c s' =>
      match rstrip s' with
      | EmptyString => if is_space c then EmptyString else String c EmptyString
      | r => String c r
      end
  end.

(** [str.strip()], applied by [CharField(trim_whitespace=True)]. *)
Definition strip (s : string) : string := rstrip (lstrip s).

(** The string holds the character with the code 0. *)
Fixpoint has_null (s : string) : bool :=
  match s with
  | EmptyString => false
  | String c s' => (nat_of_ascii c =? 0)%nat || has_null s'
  end.

(** [CharField(max_length=n).run_validation] on a present value;
    [max_length = None] is a text field.  A value that is blank after
    trimming is refused; the validators of the field then run on the
    trimmed value, each adding its message: the length bound and the
    validator that prohibits null characters. *)
Definition char_field (max_length : option nat) (value : string)
  : list string + string :=
  let v := strip value in
  match v with
  | EmptyString => inl [msg_blank]
  | _ =>
      let too_long :=
        match max_length with
        | Some n => (n <? String.length v)%nat
        | None => false
        end in
      match (if too_long then [msg_max_length] else [])
            ++ (if has_null v then [msg_null_characters] else []) with
      | [] => inr v
      | messages => inl messages
      end
  end.

(** [IntegerField(min_value=INTEGER_MIN, max_value=INTEGER_MAX)] on a
    present value; [min_value_message] is the message the field declares
    for the lower bound. *)
Definition integer_field (min_value_message : string) (value : Z)
  : list string + Z :=
  if INTEGER_MAX <? value then inl [msg_max_value]
  else if value <? INTEGER_MIN then inl [min_value_message]
  else inr value.

(** A choice field on a present value. *)
Definition choice_field (choices : list string) (value : string)
  : list string + string :=
  if bool_decide (value ∈ choices) then inr value
  else inl [msg_invalid_choice value].

(** A required field: an absent key is the [required] error. *)
Definition required {A B} (check : A -> list string + B) (v : option A)
  : list string + B :=
  match v with
  | None => inl [msg_required]
  | Some a => check a
  end.

(** A field that is not required: an absent key is skipped and stays
    out of the validated data. *)
Definition optional {A B} (check : A -> list string + B) (v : option A)
  : list string + option B :=
  match v with
  | None => inr None
  | Some a =>
      match check a with
      | inl m => inl m
      | inr b => inr (Some b)
      end
  end.

(** The entry a field contributes to [serializer.errors]. *)
Definition errs {A} (name : string) (r : list string + A) : ErrorDict :=
  match r with
  | inl m => [(name, m)]
  | inr _ => []
  end.

(** A serializer method [validate_<field>]: one message or the value. *)
Definition hook {A} (validate : A -> string + A) (value : A)
  : list string + A :=
  match validate value with
  | inl m => inl [m]
  | inr v => inr v
  end.

(** The field runs first; its method [validate_<field>] runs on the
    value the field accepted. *)
Definition with_hook {A} (field : A -> list string + A)
    (validate : A -> string + A) (value : A) : list string + A :=
  match field value with
  | inl m => inl m
  | inr v => hook validate v
  end.

End Fields.

(** * [offers/api/serializers.py] *)

Module OfferDetailSerializer.
Import Fields.

(** [validated_data] of one detail: the writable fields that were
    present ([id] is read-only). *)
Record ValidatedDetail : Type := {
  v_title : string;
  v_revisions : option Z;
  v_delivery_time_in_days : option Z;
  v_price : option Q;
  v_features : list string;
  v_offer_type : string;
}.

Definition validate_delivery_time_in_days (value : Z) : string + Z :=
  if value <? 1
  then inl "Eingegebene Lieferzeit muss mindestens 1 Tag betragen."
  else inr value.

Definition validate_price (value : Q) : string + Q :=
  if Qle_bool value 1
  then inl "Eingegebener Preis muss höher als 1 sein."
  else inr value.

Definition validate_revisions (value : Z) : string + Z :=
  if value <? -1
  then inl "Eingegebene Anzahl der Revisionen muss eine positive Zahl sein."
  else inr value.

(** [if not value]: an empty list is falsy. *)
Definition validate_features (value : list string)
  : string + list string :=
  match value with
  | [] => inl "Mindestens eine Feature muss vorhanden sein."
  | _ => inr value
  end.

(** The messages [Meta.extra_kwargs] declares under [min_value]. *)
Definition msg_min_delivery_time : string :=
  "Die Lieferzeit muss mindestens 1 Tag betragen.".
Definition msg_min_revisions : string :=
  "Die Anzahl der Revisionen muss eine positive Zahl sein.".

(** The result of each declared field on a body, in the order of
    [Meta.fields].  [title], [features] and [offer_type] have no model
    default and are required; [revisions], [delivery_time_in_days] and
    [price] have one and are not.  The two integer fields carry the
    range of their column. *)
Definition field_title (data : DetailData) :=
  required (char_field (Some 255%nat)) (dd_title data).
Definition field_revisions (data : DetailData) :=
  optional (with_hook (integer_field msg_min_revisions) validate_revisions)
           (dd_revisions data).
Definition field_delivery_time_in_days (data : DetailData) :=
  optional (with_hook (integer_field msg_min_delivery_time)
                      validate_delivery_time_in_days)
           (dd_delivery_time_in_days data).
Definition field_price (data : DetailData) :=
  optional (hook validate_price) (dd_price data).
Definition field_features (data : DetailData) :=
  required (hook validate_features) (dd_features data).
Definition field_offer_type (data : DetailData) :=
  required (choice_field OFFER_TYPES) (dd_offer_type data).

(** Every failing field contributes its entry: the field pass does not
    stop at the first error. *)
Definition collect_errors (data : DetailData) : ErrorDict :=
  errs "title" (field_title data)
  ++ errs "revisions" (field_revisions data)
  ++ errs "delivery_time_in_days" (field_delivery_time_in_days data)
  ++ errs "price" (field_price data)
  ++ errs "features" (field_features data)
  ++ errs "offer_type" (field_offer_type data).

(** [run_validation]: the field pass with the [validate_<field>] hooks. *)
Definition run_validation (data : DetailData)
  : ErrorDict + ValidatedDetail :=
  match field_title data, field_revisions data,
        field_delivery_time_in_days data, field_price data,
        field_features data, field_offer_type data with
  | inr t, inr r, inr dl, inr p, inr f, inr ot =>
      inr {| v_title := t; v_revisions := r;
             v_delivery_time_in_days := dl; v_price := p;
             v_features := f; v_offer_type := ot |}
  | _, _, _, _, _, _ => inl (collect_errors data)
  end.

Definition is_valid (data : DetailData) : bool :=
  match run_validation data with
  | inr _ => true
  | inl _ => false
  end.

(** [serializer.errors]; empty when the data is valid. *)
Definition errors (data : DetailData) : ErrorDict :=
  match run_validation data with
  | inr _ => []
  | inl e => e
  end.

End OfferDetailSerializer.

(** * The object-relational layer

    The Django operations the offer module calls, on the store. *)

Module ORM.

Definition set_offers_offer (rows : list Offer) (db : DB) : DB :=
  {| auth_user := auth_user db; offers_offer := rows;
     offers_offerdetail := offers_offerdetail db;
     next_offer_id := next_offer_id db;
     next_detail_id := next_detail_id db |}.

Definition set_offers_offerdetail (rows : list OfferDetail) (db : DB) : DB :=
  {| auth_user := auth_user db; offers_offer := offers_offer db;
     offers_offerdetail := rows;
     next_offer_id := next_offer_id db;
     next_detail_id := next_detail_id db |}.

(** [get_object_or_404(Offer, id=pk)]. *)
Definition get_offer_or_404 (pk : Z) : View Offer := fun db =>
  match List.find (fun o => id o =? pk) (offers_offer db) with
  | Some o => (db, inr o)
  | None => (db, inl Http404)
  end.

(** [get_object_or_404(OfferDetail, id=pk)]. *)
Definition get_offerdetail_or_404 (pk : Z) : View OfferDetail := fun db =>
  match List.find (fun d => detail_id d =? pk) (offers_offerdetail db) with
  | Some d => (db, inr d)
  | None => (db, inl Http404)
  end.

(** [obj.details.all()] read from the store. *)
Definition details_of (pk : Z) (db : DB) : list OfferDetail :=
  List.filter (fun d => offer d =? pk) (offers_offerdetail db).

(** [Offer.objects.create] on the validated data: [auto_now_add] and
    [auto_now] stamp both times with the clock. *)
Definition create_offer (now owner : Z) (t descr : string)
    (img : option string) : View Offer := fun db =>
  let o := {| id := next_offer_id db; user := owner; title := t;
              description := descr; image := img;
              updated_at := now; created_at := now |} in
  ({| auth_user := auth_user db;
      offers_offer := offers_offer db ++ [o];
      offers_offerdetail := offers_offerdetail db;
      next_offer_id := next_offer_id db + 1;
      next_detail_id := next_detail_id db |}, inr o).

Definition set_detail_id (i : Z) (d : OfferDetail) : OfferDetail :=
  {| detail_id := i; detail_title := detail_title d; price := price d;
     delivery_time_in_days := delivery_time_in_days d;
     offer := offer d; features := features d;
     offer_type := offer_type d; revisions := revisions d |}.

Fixpoint assign_ids (next : Z) (objs : list OfferDetail)
  : list OfferDetail :=
  match objs with
  | [] => []
  | d :: rest => set_detail_id next d :: assign_ids (next + 1) rest
  end.

(** [OfferDetail.objects.bulk_create(objs)]: the rows are inserted as
    given, in one statement; [Model.save] is not called on them. *)
Definition bulk_create (objs : list OfferDetail)
  : View (list OfferDetail) := fun db =>
  let rows := assign_ids (next_detail_id db) objs in
  ({| auth_user := auth_user db;
      offers_offer := offers_offer db;
      offers_offerdetail := offers_offerdetail db ++ rows;
      next_offer_id := next_offer_id db;
      next_detail_id := next_detail_id db + Z.of_nat (length objs) |},
   inr rows).

(** The base [Model.save] of an instance that has a row: the row with
    its primary key is overwritten. *)
Definition write_detail (d : OfferDetail) (db : DB) : DB :=
  set_offers_offerdetail
    (map (fun r => if detail_id r =? detail_id d then d else r)
         (offers_offerdetail db)) db.

(** [OfferDetail.save]: [round_price], then the base save. *)
Definition save_detail (d : OfferDetail) : View unit := fun db =>
  (write_detail (round_price d) db, inr tt).

(** [Offer.save] on a row that exists; [auto_now] stamps [updated_at]. *)
Definition save_offer (now : Z) (o : Offer) : View unit := fun db =>
  let o' := {| id := id o; user := user o; title := title o;
               description := description o; image := image o;
               updated_at := now; created_at := created_at o |} in
  (set_offers_offer
     (map (fun r => if id r =? id o then o' else r) (offers_offer db)) db,
   inr tt).

(** The columns an entry sets on a row: [setattr] per present key, or the
    keyword arguments of [QuerySet.update]. *)
Definition apply_data (data : DetailData) (d : OfferDetail) : OfferDetail :=
  {| detail_id := default (detail_id d) (dd_id data);
     detail_title := default (detail_title d) (dd_title data);
     price := default (price d) (dd_price data);
     delivery_time_in_days :=
       default (delivery_time_in_days d) (dd_delivery_time_in_days data);
     offer := default (offer d) (dd_offer data);
     features := default (features d) (dd_features data);
     offer_type := default (offer_type d) (dd_offer_type data);
     revisions := default (revisions d) (dd_revisions data) |}.

(** [OfferDetail.objects.filter(id=detail_id, offer=instance).update]
    with the keys of [detail_data]: one UPDATE statement on the matching
    rows; [Model.save] is not called.  The keys are resolved to fields
    before the statement runs, so a key that names no field raises
    [FieldDoesNotExist] whether or not a row matches.  A statement that
    would point a row to an offer that does not exist violates the
    foreign key: it raises [IntegrityError] and changes nothing. *)
Definition filter_update (pk offer_pk : Z) (data : DetailData)
  : View unit := fun db =>
  let hit (r : OfferDetail) := (detail_id r =? pk) && (offer r =? offer_pk) in
  let updated :=
    (set_offers_offerdetail
       (map (fun r => if hit r then apply_data data r else r)
            (offers_offerdetail db)) db,
     inr tt) in
  match dd_unknown data with
  | _ :: _ => (db, inl (UncaughtException "FieldDoesNotExist"))
  | [] =>
      match dd_offer data with
      | Some k =>
          if existsb hit (offers_offerdetail db)
             && negb (existsb (fun o => id o =? k) (offers_offer db))
          then (db, inl (UncaughtException "IntegrityError"))
          else updated
      | None => updated
      end
  end.

(** [offer.delete()]; [on_delete=CASCADE] removes its details too. *)
Definition delete_offer (o : Offer) : View unit := fun db =>
  ({| auth_user := auth_user db;
      offers_offer :=
        List.filter (fun r => negb (id r =? id o)) (offers_offer db);
      offers_offerdetail :=
        List.filter (fun d => negb (offer d =? id o))
                    (offers_offerdetail db);
      next_offer_id := next_offer_id db;
      next_detail_id := next_detail_id db |}, inr tt).

(** SQL [MIN] over a column: [NULL] on no rows. *)
Definition Qmin_opt (acc : option Q) (x : Q) : option Q :=
  match acc with
  | None => Some x
  | Some m => if Qle_bool m x then Some m else Some x
  end.

Definition min_Q (l : list Q) : option Q := fold_left Qmin_opt l None.

Definition Zmin_opt (acc : option Z) (x : Z) : option Z :=
  match acc with
  | None => Some x
  | Some m => Some (Z.min m x)
  end.

Definition min_Z (l : list Z) : option Z := fold_left Zmin_opt l None.

(** [obj.user.profile]: the owner row by foreign key, then its profile;
    a user without profile raises. *)
Definition owner_profile (o : Offer) : View Auth.Profile := fun db =>
  match List.find (fun u => Auth.id u =? user o) (auth_user db) with
  | None => (db, inl (UncaughtException "DoesNotExist"))
  | Some u =>
      match Auth.profile u with
      | None => (db, inl (UncaughtException "RelatedObjectDoesNotExist"))
      | Some p => (db, inr p)
      end
  end.

End ORM.

Module OfferSerializer.
Import Fields.
Import OfferDetailSerializer.

(** [validated_data] after [validate] and [save(user=request.user)]. *)
Record ValidatedOffer : Type := {
  vo_title : string;
  vo_description : string;
  vo_image : option string;
  validated_details : list ValidatedDetail;
}.

(** The writable declared fields: [title] and [description] are
    required, [image] is nullable; every other field is read-only. *)
Definition field_errors (data : OfferData) : ErrorDict :=
  errs "title" (required (char_field (Some 255%nat)) (od_title data))
  ++ errs "description" (required (char_field None) (od_description data)).

Definition to_internal_value (data : OfferData)
  : ErrorDict + (string * string * option string) :=
  match required (char_field (Some 255%nat)) (od_title data),
        required (char_field None) (od_description data) with
  | inr t, inr d => inr (t, d, od_image data)
  | _, _ => inl (field_errors data)
  end.

(** The comprehension of [validate]: a valid detail yields its validated
    data, an invalid one appends its errors and yields nothing. *)
Fixpoint validate_details (details_data : list DetailData)
  : list ErrorDict * list ValidatedDetail :=
  match details_data with
  | [] => ([], [])
  | detail :: rest =>
      let '(errors, validated) := validate_details rest in
      match run_validation detail with
      | inr v => (errors, v :: validated)
      | inl e => (e :: errors, validated)
      end
  end.

(** [validate(attrs)]: reads [initial_data.get('details', [])]. *)
Definition validate (initial_data : OfferData)
  : APIException + list ValidatedDetail :=
  let details_data := default [] (od_details initial_data) in
  let '(errors, validated) := validate_details details_data in
  match errors with
  | [] => inr validated
  | _ => inl (ValidationError (DetailErrors errors))
  end.

(** [is_valid(raise_exception=True)]: the field pass, then [validate]. *)
Definition run_validation (initial_data : OfferData)
  : APIException + ValidatedOffer :=
  match to_internal_value initial_data with
  | inl e => inl (ValidationError (FieldErrors e []))
  | inr (t, d, img) =>
      match validate initial_data with
      | inl e => inl e
      | inr vs =>
          inr {| vo_title := t; vo_description := d; vo_image := img;
                 validated_details := vs |}
      end
  end.

(** [OfferDetail(offer=offer, ...)] on one validated detail: an absent
    key takes the model default; the instance has no primary key yet. *)
Definition new_detail (offer_pk : Z) (v : ValidatedDetail) : OfferDetail :=
  {| detail_id := 0;
     detail_title := v_title v;
     price := default (Qmake 1 1) (v_price v);
     delivery_time_in_days := default 1 (v_delivery_time_in_days v);
     offer := offer_pk;
     features := v_features v;
     offer_type := v_offer_type v;
     revisions := default (-1) (v_revisions v) |}.

(** [create(validated_data)]. *)
Definition create (now owner : Z) (validated_data : ValidatedOffer)
  : View Offer :=
  o ← ORM.create_offer now owner (vo_title validated_data)
        (vo_description validated_data) (vo_image validated_data);
  ORM.bulk_create
    (map (new_detail (id o)) (validated_details validated_data));;
  mret o.

Definition get_min_price (obj : Offer) (db : DB) : option Q :=
  ORM.min_Q (map price (ORM.details_of (id obj) db)).

Definition get_min_delivery_time (obj : Offer) (db : DB) : option Z :=
  ORM.min_Z (map delivery_time_in_days (ORM.details_of (id obj) db)).

Definition get_user_details (obj : Offer)
  : View (string * string * string) :=
  p ← ORM.owner_profile obj;
  mret (Auth.first_name p, Auth.last_name p, Auth.username p).

(** The representation of an offer outside a POST: the details are
    references (primary key, from which the URL is built). *)
Record Representation : Type := {
  r_offer : Offer;
  r_details : list Z;
  r_min_price : option Q;
  r_min_delivery_time : option Z;
  r_user_details : option (string * string * string);
}.

Definition to_representation (obj : Offer) : View Representation :=
  db ← get_db;
  ud ← get_user_details obj;
  mret {| r_offer := obj;
          r_details := map detail_id (ORM.details_of (id obj) db);
          r_min_price := get_min_price obj db;
          r_min_delivery_time := get_min_delivery_time obj db;
          r_user_details := Some ud |}.

(** The representation inside a POST: the scalar fields and the full
    details. *)
Record Created : Type := {
  c_id : Z;
  c_title : string;
  c_image : option string;
  c_description : string;
  c_details : list OfferDetail;
}.

Definition to_representation_post (obj : Offer) : View Created :=
  db ← get_db;
  mret {| c_id := id obj; c_title := title obj; c_image := image obj;
          c_description := description obj;
          c_details := ORM.details_of (id obj) db |}.

End OfferSerializer.

Module AllOfferDetailsSerializer.
Import Fields.
Import OfferDetailSerializer.

(** The offer object a view holds: its row and, as the queryset of the
    view prefetches them, the cached detail objects. *)
Record Instance : Type := {
  obj : Offer;
  details_cache : list OfferDetail;
}.

(** [validated_data] of a partial update; [vp_details] is the value of
    the nested [details] field, [vp_validated_details] the key that
    [validate] adds. *)
Record ValidatedPatch : Type := {
  vp_title : option string;
  vp_description : option string;
  vp_image : option string;
  vp_details : option (list DetailData);
  vp_validated_details : list ValidatedDetail;
}.

(** One entry of the nested [OfferSingleDetailsSerializer(many=True)]
    under a partial parent: no key is required, no hook runs, and the
    read-only [id] and the keys the serializer does not declare do not
    reach the validated entry. *)
Definition nested_errors (data : DetailData) : ErrorDict :=
  errs "title" (optional (char_field (Some 255%nat)) (dd_title data))
  ++ errs "revisions"
       (optional (integer_field msg_min_value) (dd_revisions data))
  ++ errs "delivery_time_in_days"
       (optional (integer_field msg_min_value)
                 (dd_delivery_time_in_days data))
  ++ errs "offer_type"
       (optional (choice_field OFFER_TYPES) (dd_offer_type data)).

Definition nested_value (data : DetailData) : DetailData :=
  {| dd_id := None;
     dd_title := strip <$> dd_title data;
     dd_revisions := dd_revisions data;
     dd_delivery_time_in_days := dd_delivery_time_in_days data;
     dd_price := dd_price data;
     dd_features := dd_features data;
     dd_offer_type := dd_offer_type data;
     dd_offer := None;
     dd_unknown := [] |}.

(** The field pass with [partial=True]: [image], [title], [description]
    and [details] are taken when present. *)
Definition own_errors (data : OfferData) : ErrorDict :=
  errs "title" (optional (char_field (Some 255%nat)) (od_title data))
  ++ errs "description"
       (optional (char_field None) (od_description data)).

Definition details_errors (data : OfferData) : list ErrorDict :=
  let es := map nested_errors (default [] (od_details data)) in
  if forallb (fun e => bool_decide (e = [])) es then [] else es.

Definition to_internal_value (data : OfferData)
  : APIException + ValidatedPatch :=
  match own_errors data, details_errors data with
  | [], [] =>
      inr {| vp_title := strip <$> od_title data;
             vp_description := strip <$> od_description data;
             vp_image := od_image data;
             vp_details := map nested_value <$> od_details data;
             vp_validated_details := [] |}
  | e, es => inl (ValidationError (FieldErrors e es))
  end.

(** [validate(attrs)]. *)
Definition validate (initial_data : OfferData) (attrs : ValidatedPatch)
  : APIException + ValidatedPatch :=
  let details_data := default [] (od_details initial_data) in
  let errors :=
    flat_map (fun detail =>
                if is_valid detail then []
                else [OfferDetailSerializer.errors detail])
             details_data in
  match errors with
  | [] =>
      inr {| vp_title := vp_title attrs;
             vp_description := vp_description attrs;
             vp_image := vp_image attrs;
             vp_details := vp_details attrs;
             vp_validated_details :=
               flat_map (fun d => match run_validation d with
                                  | inr v => [v]
                                  | inl _ => []
                                  end) details_data |}
  | _ => inl (ValidationError (DetailErrors errors))
  end.

(** [is_valid(raise_exception=True)]. *)
Definition run_validation (initial_data : OfferData)
  : APIException + ValidatedPatch :=
  match to_internal_value initial_data with
  | inl e => inl e
  | inr attrs => validate initial_data attrs
  end.

(** [_update_detail_instance]: [setattr] per key, then
    [detail_instance.save()]; the object keeps the rounded price.  The
    attribute [offer] takes an offer object, so the key [offer] with a
    primary key as its value raises [ValueError] before the save; a key
    that names no field sets a plain attribute, which the save does not
    write. *)
Definition _update_detail_instance (detail_instance : OfferDetail)
    (detail_data : DetailData) : View OfferDetail :=
  match dd_offer detail_data with
  | Some _ => raise (UncaughtException "ValueError")
  | None =>
      let d := round_price (ORM.apply_data detail_data detail_instance) in
      ORM.save_detail (ORM.apply_data detail_data detail_instance);;
      mret d
  end.

(** The dictionary comprehension over [instance.details.all()]. *)
Definition existing_details_of (l : list OfferDetail) : gmap Z OfferDetail :=
  fold_left (fun m d => <[detail_id d := d]> m) l ∅.

(** The loop of [_update_details] on the dictionary of the details not
    yet consumed; the result lists the objects it changed. *)
Fixpoint _update_details_loop (existing_details : gmap Z OfferDetail)
    (details_data : list DetailData) : View (list OfferDetail) :=
  match details_data with
  | [] => mret []
  | detail_data :: rest =>
      match dd_id detail_data with
      | Some detail_id =>
          if detail_id =? 0 then _update_details_loop existing_details rest
          else
            match existing_details !! detail_id with
            | Some inst =>
                d ← _update_detail_instance inst detail_data;
                ds ← _update_details_loop
                       (delete detail_id existing_details) rest;
                mret (d :: ds)
            | None => _update_details_loop existing_details rest
            end
      | None => _update_details_loop existing_details rest
      end
  end.

(** The cached objects after some of them were changed in place. *)
Definition refresh_cache (changed : list OfferDetail)
    (cache : list OfferDetail) : list OfferDetail :=
  map (fun c =>
         default c
           (List.find (fun d => detail_id d =? detail_id c) changed))
      cache.

Definition _update_details (instance : Instance)
    (details_data : list DetailData) : View Instance :=
  changed ← _update_details_loop
              (existing_details_of (details_cache instance)) details_data;
  mret {| obj := obj instance;
          details_cache := refresh_cache changed (details_cache instance) |}.

(** The [setattr] loop of [update] on the offer object. *)
Definition set_attrs (validated_data : ValidatedPatch) (o : Offer) : Offer :=
  {| id := id o; user := user o;
     title := default (title o) (vp_title validated_data);
     description := default (description o) (vp_description validated_data);
     image := match vp_image validated_data with
              | Some i => Some i
              | None => image o
              end;
     updated_at := updated_at o; created_at := created_at o |}.

(** [update(instance, validated_data)]. *)
Definition update (now : Z) (instance : Instance)
    (validated_data : ValidatedPatch) : View Instance :=
  let details_data := vp_details validated_data in
  let instance1 :=
    {| obj := set_attrs validated_data (obj instance);
       details_cache := details_cache instance |} in
  instance2 ←
    match details_data with
    | Some (d :: ds) => _update_details instance1 (d :: ds)
    | _ => mret instance1
    end;
  ORM.save_offer now (obj instance2);;
  mret instance2.

End AllOfferDetailsSerializer.

(** * [offers/api/ordering.py] *)

(** A row of the annotated queryset
    [Offer.objects.annotate(min_price=Min('details__price'))]. *)
Record Annotated : Type := {
  a_offer : Offer;
  a_min_price : option Q;
}.

Module OrderingHelperOffers.

(** The order of a nullable price column: [NULL] sorts lowest. *)
Definition price_le (a b : option Q) : Prop :=
  match a, b with
  | None, _ => True
  | Some _, None => False
  | Some x, Some y => Qle_bool x y = true
  end.

#[global] Instance price_le_dec a b : Decision (price_le a b).
Proof. destruct a, b; simpl; apply _. Defined.

Definition by_created_at (a b : Annotated) : Prop :=
  created_at (a_offer a) <= created_at (a_offer b).
Definition by_updated_at (a b : Annotated) : Prop :=
  updated_at (a_offer a) <= updated_at (a_offer b).
Definition by_min_price (a b : Annotated) : Prop :=
  price_le (a_min_price a) (a_min_price b).

#[global] Instance by_created_at_dec a b : Decision (by_created_at a b).
Proof. unfold by_created_at; apply _. Defined.
#[global] Instance by_updated_at_dec a b : Decision (by_updated_at a b).
Proof. unfold by_updated_at; apply _. Defined.
#[global] Instance by_min_price_dec a b : Decision (by_min_price a b).
Proof. unfold by_min_price; apply _. Defined.

(** [queryset.order_by(field)] for the columns of the annotated offer
    queryset: a leading dash sorts descending.  Any other name is a
    [FieldError] in Django; the queryset is returned as it is. *)
Definition order_by (field : string) (queryset : list Annotated)
  : list Annotated :=
  if String.eqb field "created_at" then merge_sort by_created_at queryset
  else if String.eqb field "-created_at"
       then merge_sort (flip by_created_at) queryset
  else if String.eqb field "updated_at"
       then merge_sort by_updated_at queryset
  else if String.eqb field "-updated_at"
       then merge_sort (flip by_updated_at) queryset
  else if String.eqb field "min_price"
       then merge_sort by_min_price queryset
  else if String.eqb field "-min_price"
       then merge_sort (flip by_min_price) queryset
  else queryset.

Definition ordering_map : gmap string string :=
  list_to_map
    [ ("-created_at", "-created_at");
      ("created_at", "created_at");
      ("min_price", "min_price");
      ("-min_price", "-min_price");
      ("-updated_at", "updated_at");
      ("updated_at", "-updated_at") ].

(** [ordering_map.get(ordering, "-updated_at")]. *)
Definition ordering_field (ordering : string) : string :=
  default "-updated_at" (ordering_map !! ordering).

Definition apply_ordering (queryset : list Annotated) (ordering : string)
  : list Annotated :=
  order_by (ordering_field ordering) queryset.

End OrderingHelperOffers.

(** * [offers/api/permissions.py] and the permission classes of the views *)

Inductive Method : Type := GET | POST | PUT | PATCH | DELETE.

#[global] Instance Method_eq_dec : EqDecision Method.
Proof. solve_decision. Defined.

Module Permissions.
Import Auth.

Inductive Permission : Type :=
| AllowAny
| IsAuthenticated
| IsOwnerOrAdmin.

(** [has_permission]; [IsOwnerOrAdmin] inherits the base method, which
    returns [True]. *)
Definition has_permission (p : Permission) (user : RequestUser) : bool :=
  match p with
  | AllowAny => true
  | IsAuthenticated => is_authenticated user
  | IsOwnerOrAdmin => true
  end.

(** [has_object_permission]. *)
Definition has_object_permission (p : Permission) (user : RequestUser)
    (o : Offer) : bool :=
  match p with
  | AllowAny => true
  | IsAuthenticated => true
  | IsOwnerOrAdmin => user_eq user (Models.user o) || request_is_staff user
  end.

(** [permission_denied]: a request that carries no credentials is not
    authenticated, any other is denied. *)
Definition permission_denied (user : RequestUser) : APIException :=
  if is_authenticated user then PermissionDenied else NotAuthenticated.

Definition check_permissions (perms : list Permission)
    (user : RequestUser) : View unit :=
  require (forallb (fun p => has_permission p user) perms)
          (permission_denied user).

Definition check_object_permissions (perms : list Permission)
    (user : RequestUser) (o : Offer) : View unit :=
  require (forallb (fun p => has_object_permission p user o) perms)
          (permission_denied user).

End Permissions.

(** * The filter backends and the paginator of the list view *)

(** [django_filters.rest_framework.DjangoFilterBackend] with
    [filterset_fields = ['user']]: the filter set has the one field
    [user], a choice among the users.  An absent or empty parameter does
    not filter; a value that is the key of no user fails the form of the
    filter set, and the request is refused. *)
Module DjangoFilterBackend.
Import Auth Models.

Definition msg_invalid_choice : string :=
  "Select a valid choice. That choice is not one of the available choices.".

Definition filter_queryset (value : option Z) (queryset : list Annotated)
  : View (list Annotated) :=
  match value with
  | None => mret queryset
  | Some k =>
      db ← get_db;
      require (existsb (fun u => Auth.id u =? k) (auth_user db))
              (ValidationError
                 (FieldErrors [("user", [msg_invalid_choice])] []));;
      mret (List.filter (fun a => user (a_offer a) =? k) queryset)
  end.

End DjangoFilterBackend.

(** [rest_framework.filters.SearchFilter] with
    [search_fields = ['title', 'description']]: every term of the
    parameter must occur in one of the two columns ([icontains]). *)
Module SearchFilter.
Import Models.

Definition lower (c : ascii) : ascii :=
  let n := nat_of_ascii c in
  if Nat.leb 65 n && Nat.leb n 90 then ascii_of_nat (n + 32) else c.

Fixpoint istartswith (s prefix : string) : bool :=
  match prefix, s with
  | EmptyString, _ => true
  | String p prefix', String c s' =>
      Ascii.eqb (lower p) (lower c) && istartswith s' prefix'
  | String _ _, EmptyString => false
  end.

Fixpoint icontains (s term : string) : bool :=
  istartswith s term
  || match s with
     | EmptyString => false
     | String _ s' => icontains s' term
     end.

Definition search_fields (o : Offer) : list string :=
  [title o; description o].

Definition matches (terms : list string) (a : Annotated) : bool :=
  forallb (fun term =>
             existsb (fun field => icontains field term)
                     (search_fields (a_offer a)))
          terms.

(** [terms] are the terms the parameter [search] splits into; without a
    term the queryset is returned as it is. *)
Definition filter_queryset (terms : list string) (queryset : list Annotated)
  : list Annotated :=
  match terms with
  | [] => queryset
  | _ :: _ => List.filter (matches terms) queryset
  end.

End SearchFilter.

(** [rest_framework.filters.OrderingFilter].  The view declares no
    [ordering_fields], so a term is valid when it names a field of the
    serializer that has a source of its own; the view declares no
    [ordering] either, so without a valid term the queryset keeps the
    order it has.  With one, [order_by] replaces that order. *)
Module OrderingFilter.
Import Models.

(** The fields of [OfferSerializer] but the four method fields. *)
Definition valid_fields : list string :=
  ["id"; "user"; "title"; "image"; "description"; "created_at";
   "updated_at"].

(** [params.split(',')]. *)
Fixpoint split (s : string) : list string :=
  match s with
  | EmptyString => [EmptyString]
  | String c s' =>
      if Ascii.eqb c ","%char then EmptyString :: split s'
      else match split s' with
           | [] => [String c EmptyString]
           | w :: ws => String c w :: ws
           end
  end.

(** The field of a term: the term less a leading dash. *)
Definition term_field (term : string) : string :=
  match term with
  | String "-"%char field => field
  | _ => term
  end.

Definition descending (term : string) : bool :=
  match term with
  | String "-"%char _ => true
  | _ => false
  end.

Definition term_valid (term : string) : bool :=
  bool_decide (term_field term ∈ valid_fields).

Definition remove_invalid_fields (fields : list string) : list string :=
  List.filter term_valid fields.

(** [get_ordering]: the terms of the parameter [ordering], trimmed, that
    are valid. *)
Definition get_ordering (params : option string) : list string :=
  match params with
  | Some p =>
      if String.eqb p "" then []
      else remove_invalid_fields (map Fields.strip (split p))
  | None => []
  end.

(** The order of a nullable column: [NULL] sorts first. *)
Definition compare_null {A} (cmp : A -> A -> comparison) (a b : option A)
  : comparison :=
  match a, b with
  | None, None => Eq
  | None, Some _ => Lt
  | Some _, None => Gt
  | Some x, Some y => cmp x y
  end.

(** The order of the rows on one column. *)
Definition column_compare (field : string) (a b : Offer) : comparison :=
  if String.eqb field "id" then id a ?= id b
  else if String.eqb field "user" then user a ?= user b
  else if String.eqb field "title" then String.compare (title a) (title b)
  else if String.eqb field "image"
       then compare_null String.compare (image a) (image b)
  else if String.eqb field "description"
       then String.compare (description a) (description b)
  else if String.eqb field "created_at" then created_at a ?= created_at b
  else if String.eqb field "updated_at" then updated_at a ?= updated_at b
  else Eq.

Definition term_compare (term : string) (a b : Offer) : comparison :=
  if descending term then CompOpp (column_compare (term_field term) a b)
  else column_compare term a b.

(** The order of [order_by] with several terms: the first on which the rows
    differ decides. *)
Fixpoint ordering_compare (ordering : list string) (a b : Offer)
  : comparison :=
  match ordering with
  | [] => Eq
  | term :: rest =>
      match term_compare term a b with
      | Eq => ordering_compare rest a b
      | c => c
      end
  end.

Definition precedes (ordering : list string) (a b : Annotated) : Prop :=
  ordering_compare ordering (a_offer a) (a_offer b) ≠ Gt.

#[global] Instance precedes_dec ordering a b : Decision (precedes ordering a b).
Proof. unfold precedes; apply _. Defined.

(** SQL leaves the order of rows that tie open; here they keep the order
    they come in. *)
Definition order_by (ordering : list string) (queryset : list Annotated)
  : list Annotated :=
  merge_sort (precedes ordering) queryset.

Definition filter_queryset (params : option string)
    (queryset : list Annotated) : list Annotated :=
  match get_ordering params with
  | [] => queryset
  | ordering => order_by ordering queryset
  end.

End OrderingFilter.

(** [OfferPagination], a [PageNumberPagination] with [page_size = 6],
    [max_page_size = 6] and the parameter [page_size]. *)
Module OfferPagination.

Definition max_page_size : Z := 6.
Definition page_size : Z := 6.

(** The parameter [page]: a number, the word [last], or anything else. *)
Inductive PageParam : Type :=
| PageNumber (n : Z)
| PageLast
| PageMalformed.

(** [get_page_size]: a positive number of the request, cut off at
    [max_page_size]; the size of the class for any other value. *)
Definition get_page_size (requested : option Z) : Z :=
  match requested with
  | Some n => if 0 <? n then Z.min n max_page_size else page_size
  | None => page_size
  end.

(** [Paginator.num_pages]: an empty list has one page, which is empty. *)
Definition num_pages (count per_page : Z) : Z :=
  (Z.max 1 count + per_page - 1) / per_page.

Record Page (A : Type) : Type := {
  number : Z;
  pages : Z;
  total : Z;
  object_list : list A;
}.
Arguments number {A}.
Arguments pages {A}.
Arguments total {A}.
Arguments object_list {A}.

(** [paginate_queryset]: a page that is no number, below 1 or beyond the
    last is not found. *)
Definition paginate_queryset {A} (page : option PageParam)
    (requested : option Z) (queryset : list A) : APIException + Page A :=
  let per_page := get_page_size requested in
  let count := Z.of_nat (length queryset) in
  let last := num_pages count per_page in
  let page_of (n : Z) :=
    if (1 <=? n) && (n <=? last)
    then inr {| number := n; pages := last; total := count;
                object_list :=
                  take (Z.to_nat per_page)
                       (drop (Z.to_nat ((n - 1) * per_page)) queryset) |}
    else inl Http404 in
  match page with
  | None => page_of 1
  | Some (PageNumber n) => page_of n
  | Some PageLast => page_of last
  | Some PageMalformed => inl Http404
  end.

End OfferPagination.

(** * [offers/api/views.py] *)

Module OfferListAPIView.
Import Auth Permissions Models.

(** The query parameters [get_queryset] reads.  [None] is a parameter
    that is absent or empty: both fail the test [if value]. *)
Record QueryParams : Type := {
  creator_id : option Z;
  min_price : option Q;
  max_delivery_time : option Z;
  ordering : option string;
}.

Definition get_permissions (method : Method) : list Permission :=
  if decide (method = GET) then [AllowAny] else [IsAuthenticated].

(** [Offer.objects.annotate(min_price=Min('details__price'))]. *)
Definition annotate (db : DB) : list Annotated :=
  map (fun o => {| a_offer := o;
                   a_min_price :=
                     ORM.min_Q (map price (ORM.details_of (id o) db)) |})
      (offers_offer db).

(** The three lookups of the [filters] dictionary.  A comparison with a
    [NULL] minimum price is not true; the lookup through [details] joins
    the detail rows, and the grouping of the annotation keeps one row
    per offer. *)
Definition filter_user_id (value : Z) (a : Annotated) : bool :=
  user (a_offer a) =? value.

Definition filter_min_price__gte (value : Q) (a : Annotated) : bool :=
  match a_min_price a with
  | Some m => Qle_bool value m
  | None => false
  end.

Definition filter_details__delivery_time_in_days__lte (db : DB) (value : Z)
    (a : Annotated) : bool :=
  existsb (fun d => delivery_time_in_days d <=? value)
          (ORM.details_of (id (a_offer a)) db).

(** One turn of the loop over [filters.items()]. *)
Definition apply_filter {V} (lookup : V -> Annotated -> bool)
    (value : option V) (queryset : list Annotated) : list Annotated :=
  match value with
  | Some v => List.filter (lookup v) queryset
  | None => queryset
  end.

Definition filtered (params : QueryParams) (db : DB) : list Annotated :=
  apply_filter (filter_details__delivery_time_in_days__lte db)
               (max_delivery_time params)
    (apply_filter filter_min_price__gte (min_price params)
       (apply_filter filter_user_id (creator_id params) (annotate db))).

(** [get_queryset]; an absent [ordering] parameter reads as
    ['updated_at']. *)
Definition get_queryset (params : QueryParams) (db : DB) : list Annotated :=
  OrderingHelperOffers.apply_ordering (filtered params db)
    (default "updated_at" (ordering params)).

(** [is_business_user]: [getattr(user, 'profile', None)] is [None] for a
    user without profile and for the anonymous user. *)
Definition is_business_user (user : RequestUser) : bool :=
  match user with
  | AnonymousUser => false
  | Authenticated u =>
      match profile u with
      | None => false
      | Some p => String.eqb (type p) "business"
      end
  end.

(** [perform_create]: [serializer.save(user=request.user)] calls
    [OfferSerializer.create]. *)
Definition perform_create (now : Z) (user : RequestUser)
    (validated_data : OfferSerializer.ValidatedOffer) : View Offer :=
  require (is_business_user user) BusinessProfileRequired;;
  match user with
  | AnonymousUser => raise NotAuthenticated
  | Authenticated u => OfferSerializer.create now (Auth.id u) validated_data
  end.

(** POST [offers/]: the [create] of [ListCreateAPIView]. *)
Definition post (now : Z) (user : RequestUser) (data : OfferData)
  : View OfferSerializer.Created :=
  check_permissions (get_permissions POST) user;;
  validated_data ← lift (OfferSerializer.run_validation data);
  o ← perform_create now user validated_data;
  OfferSerializer.to_representation_post o.

(** The query string of a list request: the parameters [get_queryset]
    reads, and those of the filter backends and of the paginator. *)
Record ListParams : Type := {
  query : QueryParams;
  filterset_user : option Z;
  search : list string;
  page : option OfferPagination.PageParam;
  page_size : option Z;
}.

(** The body of a list response; [next] and [previous] are the numbers of
    the pages the two links lead to. *)
Record Paginated : Type := {
  count : Z;
  next : option Z;
  previous : option Z;
  results : list OfferSerializer.Representation;
}.

(** [filter_queryset]: the three backends in the order of
    [filter_backends].  The ordering backend reads the same parameter
    [ordering] as [get_queryset]. *)
Definition filter_queryset (params : ListParams) (queryset : list Annotated)
  : View (list Annotated) :=
  queryset ← DjangoFilterBackend.filter_queryset (filterset_user params)
                                                 queryset;
  mret (OrderingFilter.filter_queryset (ordering (query params))
          (SearchFilter.filter_queryset (search params) queryset)).

Definition get_paginated_response {A} (page : OfferPagination.Page A)
    (data : list OfferSerializer.Representation) : Paginated :=
  let n := OfferPagination.number page in
  {| count := OfferPagination.total page;
     next := if n <? OfferPagination.pages page then Some (n + 1) else None;
     previous := if 1 <? n then Some (n - 1) else None;
     results := data |}.

(** GET [offers/], the [list] of [ListCreateAPIView]: the queryset of
    [get_queryset] goes through the filter backends and the paginator, and
    the offers of the page are returned, each in its representation. *)
Definition get (user : RequestUser) (params : ListParams) : View Paginated :=
  check_permissions (get_permissions GET) user;;
  db ← get_db;
  queryset ← filter_queryset params (get_queryset (query params) db);
  page ← lift (OfferPagination.paginate_queryset (page params)
                 (page_size params) queryset);
  data ← mapM OfferSerializer.to_representation
              (map a_offer (OfferPagination.object_list page));
  mret (get_paginated_response page data).

End OfferListAPIView.

Module OfferDetailAPIView.
Import Auth Permissions Models.

Definition permission_classes : list Permission := [IsAuthenticated].

(** GET [offerdetails/<pk>/]. *)
Definition get (user : RequestUser) (pk : Z) : View OfferDetail :=
  check_permissions permission_classes user;;
  ORM.get_offerdetail_or_404 pk.

End OfferDetailAPIView.

Module OfferDetailsAPIView.
Import Auth Permissions Models AllOfferDetailsSerializer.

Definition get_permissions (method : Method) : list Permission :=
  if decide (method = PATCH) then [IsOwnerOrAdmin] else [IsAuthenticated].

(** [get_object] on the queryset [Offer.objects.prefetch_related('details')]. *)
Definition get_object (method : Method) (user : RequestUser) (pk : Z)
  : View Instance :=
  o ← ORM.get_offer_or_404 pk;
  check_object_permissions (get_permissions method) user o;;
  db ← get_db;
  mret {| obj := o; details_cache := ORM.details_of pk db |}.

(** GET [offers/<pk>/]: the representation without [user_details]. *)
Definition get (user : RequestUser) (pk : Z)
  : View OfferSerializer.Representation :=
  check_permissions (get_permissions GET) user;;
  o ← ORM.get_offer_or_404 pk;
  data ← OfferSerializer.to_representation o;
  mret {| OfferSerializer.r_offer := OfferSerializer.r_offer data;
          OfferSerializer.r_details := OfferSerializer.r_details data;
          OfferSerializer.r_min_price := OfferSerializer.r_min_price data;
          OfferSerializer.r_min_delivery_time :=
            OfferSerializer.r_min_delivery_time data;
          OfferSerializer.r_user_details := None |}.

(** The body of the response of [update]. *)
Record Updated : Type := {
  u_id : Z;
  u_title : string;
  u_description : string;
  u_details : list OfferDetail;
  u_image : option string;
}.

(** The loop of [update] over [request.data.get('details')]. *)
Fixpoint update_loop (instance_pk : Z) (details_data : list DetailData)
  : View unit :=
  match details_data with
  | [] => mret tt
  | detail_data :: rest =>
      match dd_id detail_data with
      | Some detail_id =>
          if detail_id =? 0 then update_loop instance_pk rest
          else
            ORM.filter_update detail_id instance_pk detail_data;;
            update_loop instance_pk rest
      | None => update_loop instance_pk rest
      end
  end.

(** PATCH and PUT [offers/<pk>/]: both reach [update] with
    [partial=True].  Iterating over the [None] of an absent [details]
    key is a [TypeError].  An exception of the loop ends the request
    after the statements of the earlier entries. *)
Definition update (now : Z) (method : Method) (user : RequestUser)
    (pk : Z) (data : OfferData) : View Updated :=
  check_permissions (get_permissions method) user;;
  instance ← get_object method user pk;
  validated_data ← lift (AllOfferDetailsSerializer.run_validation data);
  details_data ←
    match od_details data with
    | Some l => mret l
    | None => raise (UncaughtException "TypeError")
    end;
  update_loop (id (obj instance)) details_data;;
  instance' ← AllOfferDetailsSerializer.update now instance validated_data;
  mret {| u_id := id (obj instance');
          u_title := default (title (obj instance'))
                             (vp_title validated_data);
          u_description := default (description (obj instance'))
                                   (vp_description validated_data);
          u_details := details_cache instance';
          u_image := image (obj instance') |}.

(** [has_permission_to_delete]: [a or b and (c or d)] in Python's
    evaluation order; [user.profile] raises on a staff user that has no
    profile. *)
Definition has_permission_to_delete (user : RequestUser) (o : Offer)
  : APIException + bool :=
  if user_eq user (Models.user o) then inr true
  else if request_is_staff user then
    match user with
    | AnonymousUser => inr false
    | Authenticated u =>
        match profile u with
        | None => inl (UncaughtException "RelatedObjectDoesNotExist")
        | Some p => inr (String.eqb (type p) "business" || is_staff u)
        end
    end
  else inr false.

(** DELETE [offers/<pk>/]. *)
Definition delete (user : RequestUser) (pk : Z) : View unit :=
  check_permissions (get_permissions DELETE) user;;
  o ← ORM.get_offer_or_404 pk;
  allowed ← lift (has_permission_to_delete user o);
  require allowed PermissionDenied;;
  ORM.delete_offer o.

End OfferDetailsAPIView.


(** * [orders/models.py] and [orders/api/views.py]

    The orders are bought details: an order row points to the detail it
    was placed on and keeps its own copy of the fields of that detail.
    The views of this module return their refusals as responses; only the
    permission class and [get_object_or_404] raise.  The embedding covers
    the model, the reading views, the status change, the deletion and the
    two counting views; the creation of an order goes through the field
    machinery of [OrderPostSerializer] and is not embedded. *)

Module Orders.

(** [orders.models.Order].  [business_user] is unset on an object that
    was built without it; the nullable columns are options. *)
Record Order : Type := {
  id : Z;
  status : string;
  created_at : Z;
  title : string;
  offer_type : string;
  offer_detail_id : Z;
  price : option Q;
  updated_at : Z;
  delivery_time_in_days : option Z;
  features : option (list string);
  revisions : option Z;
  customer_user : Z;
  business_user : option Z;
}.

(** The store of the offer module with the order table. *)
Record Store : Type := {
  base : DB;
  orders_order : list Order;
}.

(** A returned [Response]: a body with its status, or a refusal with its
    status and its message. *)
Inductive Response (A : Type) : Type :=
| Ok (status_code : Z) (body : A)
| Refused (status_code : Z) (detail : string).
Arguments Ok {A} status_code body.
Arguments Refused {A} status_code detail.

(** The result of a view: the store after the request and an exception
    or a response. *)
Definition Result (A : Type) : Type := Store * (APIException + Response A).

(** [self.offer_detail_id], the related detail object. *)
Definition related_detail (o : Order) (st : Store) : option OfferDetail :=
  List.find (fun d => Models.detail_id d =? offer_detail_id o)
            (offers_offerdetail (base st)).

(** [self.offer_detail_id.offer.user]: the offer of the detail, then the
    user who owns it. *)
Definition related_owner (d : OfferDetail) (st : Store) : option Z :=
  match List.find (fun x => Models.id x =? Models.offer d)
                  (offers_offer (base st)) with
  | Some x =>
      Auth.id <$>
        List.find (fun u => Auth.id u =? Models.user x) (auth_user (base st))
  | None => None
  end.

(** [x or y] on strings: the empty string is falsy. *)
Definition str_or (x y : string) : string :=
  match x with
  | EmptyString => y
  | _ => x
  end.

(** [not self.business_user_id]: unset, or the key 0. *)
Definition no_business_user (o : Order) : bool :=
  match business_user o with
  | None => true
  | Some k => k =? 0
  end.

(** The assignments of [Order.save] before the base save, on the related
    detail and the owner of its offer. *)
Definition inherit (d : OfferDetail) (owner : Z) (o : Order) : Order :=
  {| id := id o;
     status := status o;
     created_at := created_at o;
     title := str_or (title o) (Models.detail_title d);
     offer_type := str_or (offer_type o) (Models.offer_type d);
     offer_detail_id := offer_detail_id o;
     price := Some (default (Models.price d) (price o));
     updated_at := updated_at o;
     delivery_time_in_days :=
       Some (default (Models.delivery_time_in_days d)
                     (delivery_time_in_days o));
     features := Some (default (Models.features d) (features o));
     revisions := Some (default (Models.revisions d) (revisions o));
     customer_user := customer_user o;
     business_user :=
       if no_business_user o then Some owner else business_user o |}.

Definition stamp (now : Z) (o : Order) : Order :=
  {| id := id o; status := status o; created_at := created_at o;
     title := title o; offer_type := offer_type o;
     offer_detail_id := offer_detail_id o; price := price o;
     updated_at := now;
     delivery_time_in_days := delivery_time_in_days o;
     features := features o; revisions := revisions o;
     customer_user := customer_user o;
     business_user := business_user o |}.

(** The base save of an order that has a row: [auto_now] stamps it and
    the row with its key is overwritten with the columns of the object.
    The price column is a decimal with two places; an order that was read
    from its row carries such a price, and the statements on stored
    prices are about orders that have one. *)
Definition write (now : Z) (o : Order) (st : Store) : Store :=
  {| base := base st;
     orders_order :=
       map (fun r => if id r =? id o then stamp now o else r)
           (orders_order st) |}.

(** [Order.save] on an order that has a row.  The owner of the offer is
    read only when the order has no business user. *)
Definition save (now : Z) (o : Order) (st : Store)
  : Store * (APIException + Order) :=
  match related_detail o st with
  | None => (st, inl (UncaughtException "DoesNotExist"))
  | Some d =>
      if no_business_user o then
        match related_owner d st with
        | None => (st, inl (UncaughtException "DoesNotExist"))
        | Some owner =>
            (write now (inherit d owner o) st,
             inr (stamp now (inherit d owner o)))
        end
      else
        (write now (inherit d 0 o) st, inr (stamp now (inherit d 0 o)))
  end.

(** The representation of [OrderListSerializer]: the columns of the
    order, with [get_features] reading the features of the related
    detail. *)
Record Body : Type := {
  b_order : Order;
  b_features : list string;
}.

Definition to_representation (o : Order) (st : Store)
  : APIException + Body :=
  match related_detail o st with
  | None => inl (UncaughtException "DoesNotExist")
  | Some d => inr {| b_order := o; b_features := Models.features d |}
  end.

Definition order_status : list string :=
  ["in_progress"; "completed"; "cancelled"].

(** [order.business_user != request.user], negated. *)
Definition is_business_user_of (o : Order) (u : Auth.User) : bool :=
  match business_user o with
  | Some k => k =? Auth.id u
  | None => false
  end.

Module OrderListAPIView.

Definition by_created_at (a b : Order) : Prop := created_at a <= created_at b.

#[global] Instance by_created_at_dec a b : Decision (by_created_at a b).
Proof. unfold by_created_at; apply _. Defined.

(** [get_user_orders]: the orders the user sold or bought, latest
    first. *)
Definition get_user_orders (user : Auth.RequestUser) (st : Store)
  : list Order :=
  match user with
  | Auth.AnonymousUser => []
  | Auth.Authenticated u =>
      merge_sort (flip by_created_at)
        (List.filter
           (fun o => is_business_user_of o u
                     || (customer_user o =? Auth.id u))
           (orders_order st))
  end.

(** [OrderListSerializer(orders, many=True).data]. *)
Fixpoint to_representation_many (os : list Order) (st : Store)
  : APIException + list Body :=
  match os with
  | [] => inr []
  | o :: rest =>
      match to_representation o st with
      | inl e => inl e
      | inr b =>
          match to_representation_many rest st with
          | inl e => inl e
          | inr bs => inr (b :: bs)
          end
      end
  end.

(** GET [orders/]. *)
Definition get (caller : Auth.RequestUser) (st : Store)
  : Result (list Body) :=
  match caller with
  | Auth.AnonymousUser => (st, inl NotAuthenticated)
  | Auth.Authenticated _ =>
      match to_representation_many (get_user_orders caller st) st with
      | inl e => (st, inl e)
      | inr bs => (st, inr (Ok 200 bs))
      end
  end.

End OrderListAPIView.

Module OrderSingleAPIView.

(** GET [orders/<pk>/]: [Order.objects.get(pk=pk)] raises [DoesNotExist]
    on an unknown key, and nothing catches it. *)
Definition get (caller : Auth.RequestUser) (pk : Z) (st : Store)
  : Result Body :=
  match caller with
  | Auth.AnonymousUser => (st, inl NotAuthenticated)
  | Auth.Authenticated _ =>
      match List.find (fun o => id o =? pk) (orders_order st) with
      | None => (st, inl (UncaughtException "DoesNotExist"))
      | Some o =>
          match to_representation o st with
          | inl e => (st, inl e)
          | inr b => (st, inr (Ok 200 b))
          end
      end
  end.

Definition set_status (s : string) (o : Order) : Order :=
  {| id := id o; status := s; created_at := created_at o;
     title := title o; offer_type := offer_type o;
     offer_detail_id := offer_detail_id o; price := price o;
     updated_at := updated_at o;
     delivery_time_in_days := delivery_time_in_days o;
     features := features o; revisions := revisions o;
     customer_user := customer_user o;
     business_user := business_user o |}.

Definition invalid_status : string :=
  "Ungültiger Status. Erlaubte Werte: 'in_progress', 'completed', 'cancelled'.".

(** PATCH [orders/<pk>/]; [status_value] is [request.data.get('status')],
    where a value that is no string is as a string outside the list. *)
Definition patch (now : Z) (caller : Auth.RequestUser) (pk : Z)
    (status_value : option string) (st : Store) : Result Body :=
  match caller with
  | Auth.AnonymousUser => (st, inl NotAuthenticated)
  | Auth.Authenticated u =>
      match List.find (fun o => id o =? pk) (orders_order st) with
      | None => (st, inl Http404)
      | Some order =>
          if negb (is_business_user_of order u) then
            (st, inr (Refused 403
               "Nur der Business-Nutzer kann den Status einer Bestellung ändern."))
          else
            match status_value with
            | Some s =>
                if bool_decide (s ∈ order_status) then
                  match save now (set_status s order) st with
                  | (st', inl e) => (st', inl e)
                  | (st', inr saved) =>
                      match to_representation saved st' with
                      | inl e => (st', inl e)
                      | inr b => (st', inr (Ok 200 b))
                      end
                  end
                else (st, inr (Refused 400 invalid_status))
            | None => (st, inr (Refused 400 invalid_status))
            end
      end
  end.

(** DELETE [orders/<pk>/]. *)
Definition delete (caller : Auth.RequestUser) (pk : Z) (st : Store)
  : Result unit :=
  match caller with
  | Auth.AnonymousUser => (st, inl NotAuthenticated)
  | Auth.Authenticated u =>
      match List.find (fun o => id o =? pk) (orders_order st) with
      | None => (st, inl Http404)
      | Some order =>
          if negb (Auth.is_staff u) then
            (st, inr (Refused 403
               "Nur Admin-Benutzer können Bestellungen löschen."))
          else
            ({| base := base st;
                orders_order :=
                  List.filter (fun r => negb (id r =? id order))
                              (orders_order st) |},
             inr (Ok 204 tt))
      end
  end.

End OrderSingleAPIView.

(** [Order.objects.filter(business_user=business_user, status=s).count()]. *)
Definition count_orders (business : Z) (s : string) (st : Store) : nat :=
  length (List.filter
            (fun o => match business_user o with
                      | Some k => (k =? business) && String.eqb (status o) s
                      | None => false
                      end)
            (orders_order st)).

(** The two counting views: [order-count/<pk>/] counts the orders in
    progress, [completed-order-count/<pk>/] the completed ones. *)
Definition count_view (s : string) (caller : Auth.RequestUser) (pk : Z)
    (st : Store) : Result nat :=
  match caller with
  | Auth.AnonymousUser => (st, inl NotAuthenticated)
  | Auth.Authenticated _ =>
      match List.find (fun u => Auth.id u =? pk) (auth_user (base st)) with
      | None =>
          (st, inr (Refused 404 "Der angegebene Nutzer existiert nicht."))
      | Some business_user => (st, inr (Ok 200 (count_orders pk s st)))
      end
  end.

Module BusinessNotCompletedOrderAPIView.
Definition get := count_view "in_progress".
End BusinessNotCompletedOrderAPIView.

Module BusinessCompletedOrderAPIView.
Definition get := count_view "completed".
End BusinessCompletedOrderAPIView.

End Orders.
(** * Vocabulary of the properties *)






(** * A sample store *)

Module Sample.
Import Auth Models.

Definition a_profile (t : string) : Profile :=
  {| type := t; first_name := "Ada"; last_name := "Berg";
     username := "ada" |}.

(** The owner of the offers: a business user. *)
Definition alice : User :=
  {| Auth.id := 1; is_staff := false; profile := Some (a_profile "business") |}.

(** A staff user whose profile is a customer profile. *)
Definition bob : User :=
  {| Auth.id := 2; is_staff := true; profile := Some (a_profile "customer") |}.

(** A customer without privileges. *)
Definition carol : User :=
  {| Auth.id := 3; is_staff := false; profile := Some (a_profile "customer") |}.

Definition logo : Offer :=
  {| id := 1; user := 1; title := "Logo"; description := "A logo";
     image := None; updated_at := 10; created_at := 5 |}.

Definition site : Offer :=
  {| id := 2; user := 1; title := "Site"; description := "A web site";
     image := None; updated_at := 20; created_at := 15 |}.

Definition detail (pk offer_pk days : Z) (p : Q) (tier : string)
  : OfferDetail :=
  {| detail_id := pk; detail_title := tier; price := p;
     delivery_time_in_days := days; offer := offer_pk;
     features := ["design"]; offer_type := tier; revisions := 2 |}.

(** [logo] has a three-day and a seven-day tier, [site] a ten-day one. *)
Definition db : DB :=
  {| auth_user := [alice; bob; carol];
     offers_offer := [logo; site];
     offers_offerdetail :=
       [ detail 1 1 3 (Qmake 50 1) "basic";
         detail 2 1 7 (Qmake 80 1) "standard";
         detail 3 2 10 (Qmake 30 1) "basic" ];
     next_offer_id := 3;
     next_detail_id := 4 |}.

(** A detail body on the boundary of every validator. *)
Definition boundary_detail : DetailData :=
  {| dd_id := None; dd_title := Some "Basic";
     dd_revisions := Some (-1);
     dd_delivery_time_in_days := Some 1;
     dd_price := Some (Qmake 101 100);
     dd_features := Some ["design"];
     dd_offer_type := Some "basic";
     dd_offer := None; dd_unknown := [] |}.



(** A create body whose one detail has a price with three decimals. *)
Definition precise_detail : DetailData :=
  {| dd_id := None; dd_title := Some "Basic";
     dd_revisions := Some 2;
     dd_delivery_time_in_days := Some 4;
     dd_price := Some (Qmake 10999 1000);
     dd_features := Some ["design"];
     dd_offer_type := Some "basic";
     dd_offer := None; dd_unknown := [] |}.

Definition create_request : OfferData :=
  {| od_title := Some "Flyer"; od_description := Some "A flyer";
     od_image := None; od_details := Some [precise_detail] |}.

(** A detail body that fails one check: its price is 1. *)
Definition cheap_detail : DetailData :=
  {| dd_id := None; dd_title := Some "Basic";
     dd_revisions := Some 2;
     dd_delivery_time_in_days := Some 4;
     dd_price := Some (Qmake 1 1);
     dd_features := Some ["design"];
     dd_offer_type := Some "basic";
     dd_offer := None; dd_unknown := [] |}.

(** A create body with that detail, and the same without title. *)
Definition cheap_request : OfferData :=
  {| od_title := Some "Flyer"; od_description := Some "A flyer";
     od_image := None; od_details := Some [cheap_detail] |}.

Definition headless_request : OfferData :=
  {| od_title := None; od_description := Some "A flyer";
     od_image := None; od_details := Some [cheap_detail] |}.

(** A create body without details. *)
Definition bare_request : OfferData :=
  {| od_title := Some "Flyer"; od_description := Some "A flyer";
     od_image := None; od_details := None |}.

(** A patch that renames the offer and has no [details] key. *)
Definition title_patch : OfferData :=
  {| od_title := Some "Emblem"; od_description := None;
     od_image := None; od_details := None |}.

(** Seven offers of [alice], the [n]th last updated at [n], without
    details. *)
Definition numbered (n : Z) : Offer :=
  {| id := n; user := 1; title := "Logo"; description := "A logo";
     image := None; updated_at := n; created_at := n |}.

Definition crowded : DB :=
  {| auth_user := [alice; bob; carol];
     offers_offer := map numbered [1; 2; 3; 4; 5; 6; 7];
     offers_offerdetail := [];
     next_offer_id := 8;
     next_detail_id := 1 |}.

End Sample.

(** The six tokens of the ordering parameter. *)
Definition vocabulary : list string :=
  ["created_at"; "-created_at"; "min_price"; "-min_price";
   "updated_at"; "-updated_at"].

(** [queryset] ordered by the token is sorted for [R] and holds the same
    rows. *)
Definition orders (R : relation Annotated) (ordering : string)
    (queryset : list Annotated) : Prop :=
  Sorted R (OrderingHelperOffers.apply_ordering queryset ordering)
  ∧ OrderingHelperOffers.apply_ordering queryset ordering ≡ₚ queryset.

(** A minimum price is at most another; the absent one, of an offer
    without details, is at most any. *)
Definition at_most (a b : option Q) : Prop :=
  match a, b with
  | None, _ => True
  | Some _, None => False
  | Some x, Some y => (x <= y)%Q
  end.

(** A list request that carries only [max_delivery_time]. *)
Definition only_max_delivery_time (value : Z) : OfferListAPIView.QueryParams :=
  {| OfferListAPIView.creator_id := None;
     OfferListAPIView.min_price := None;
     OfferListAPIView.max_delivery_time := Some value;
     OfferListAPIView.ordering := None |}.

(** A list request without parameters. *)
Definition no_parameters : OfferListAPIView.ListParams :=
  {| OfferListAPIView.query :=
       {| OfferListAPIView.creator_id := None;
          OfferListAPIView.min_price := None;
          OfferListAPIView.max_delivery_time := None;
          OfferListAPIView.ordering := None |};
     OfferListAPIView.filterset_user := None;
     OfferListAPIView.search := [];
     OfferListAPIView.page := None;
     OfferListAPIView.page_size := None |}.

(** The rows a list request selects, in the order of the response: the
    rows of [get_queryset] that pass the filter backends. *)
Definition listed (params : OfferListAPIView.ListParams) (db : DB)
  : list Annotated :=
  OrderingFilter.filter_queryset
    (OfferListAPIView.ordering (OfferListAPIView.query params))
    (SearchFilter.filter_queryset (OfferListAPIView.search params)
       (match OfferListAPIView.filterset_user params with
        | Some k =>
            List.filter (fun a => user (a_offer a) =? k)
              (OfferListAPIView.get_queryset (OfferListAPIView.query params)
                                             db)
        | None =>
            OfferListAPIView.get_queryset (OfferListAPIView.query params) db
        end)).

(** The answer to a list request whose parameter [user] names no user. *)
Definition no_such_user : APIException :=
  ValidationError
    (FieldErrors [("user", [DjangoFilterBackend.msg_invalid_choice])] []).

(** The offer owns a detail delivered within [value] days. *)
Definition delivers_within (db : DB) (value : Z) (o : Offer) : Prop :=
  ∃ d, d ∈ offers_offerdetail db ∧ offer d = id o
       ∧ delivery_time_in_days d <= value.

(** The owner of every offer of the store is a user with a profile, as
    [get_user_details] needs. *)
Definition owners_have_profiles (db : DB) : bool :=
  forallb (fun o => match ORM.owner_profile o db with
                    | (_, inr _) => true
                    | (_, inl _) => false
                    end)
          (offers_offer db).

(** The representation [to_representation] builds for an offer whose
    owner has the profile [p]. *)
Definition representation_of (db : DB) (o : Offer) (p : Auth.Profile)
  : OfferSerializer.Representation :=
  {| OfferSerializer.r_offer := o;
     OfferSerializer.r_details := map detail_id (ORM.details_of (id o) db);
     OfferSerializer.r_min_price := OfferSerializer.get_min_price o db;
     OfferSerializer.r_min_delivery_time :=
       OfferSerializer.get_min_delivery_time o db;
     OfferSerializer.r_user_details :=
       Some (Auth.first_name p, Auth.last_name p, Auth.username p) |}.

(** The rows a successful create request adds: the offer, owned by the
    caller, and one detail row per validated detail, each pointing to it. *)
Definition created_offer (now : Z) (u : Auth.User) (t d : string)
    (img : option string) (db : DB) : Offer :=
  {| id := next_offer_id db; user := Auth.id u; title := t;
     description := d; image := img;
     updated_at := now; created_at := now |}.

Definition created_rows (vs : list OfferDetailSerializer.ValidatedDetail)
    (db : DB) : list OfferDetail :=
  ORM.assign_ids (next_detail_id db)
    (map (OfferSerializer.new_detail (next_offer_id db)) vs).

Definition after_create (o : Offer) (rows : list OfferDetail) (db : DB) : DB :=
  {| auth_user := auth_user db;
     offers_offer := offers_offer db ++ [o];
     offers_offerdetail := offers_offerdetail db ++ rows;
     next_offer_id := next_offer_id db + 1;
     next_detail_id := next_detail_id db + Z.of_nat (length rows) |}.

(** The row [r] holds the detail [d] of a create request for the offer
    [offer_pk]: the fields of the request, the title trimmed, and for a
    key the request leaves out the default of its column. *)
Definition persisted (offer_pk : Z) (d : DetailData) (r : OfferDetail)
  : Prop :=
  Some (detail_title r) = Fields.strip <$> dd_title d
  ∧ price r = default (Qmake 1 1) (dd_price d)
  ∧ delivery_time_in_days r = default 1 (dd_delivery_time_in_days d)
  ∧ revisions r = default (-1) (dd_revisions d)
  ∧ Some (features r) = dd_features d
  ∧ Some (offer_type r) = dd_offer_type d
  ∧ offer r = offer_pk.

(** The details of a request body that fail their validation. *)
Definition invalid_details (data : OfferData) : list DetailData :=
  List.filter (fun d => negb (OfferDetailSerializer.is_valid d))
              (default [] (od_details data)).

(** An entry of a patch names the detail row [d] of the offer [pk]: it
    carries the identity of [d], and [d] belongs to the offer.  The key 0
    is falsy and counts as no identity. *)
Definition names (pk : Z) (e : DetailData) (d : OfferDetail) : Prop :=
  dd_id e = Some (detail_id d) ∧ detail_id d ≠ 0 ∧ offer d = pk.

(** An entry that carries no identity, or one that is not the identity
    of a current detail of the offer [pk]. *)
Definition unmatched (db : DB) (pk : Z) (e : DetailData) : Prop :=
  match dd_id e with
  | None => True
  | Some k => k ∉ map detail_id (ORM.details_of pk db)
  end.

(** The entry carries only keys that the serializers declare. *)
Definition plain (e : DetailData) : Prop :=
  dd_offer e = None ∧ dd_unknown e = [].

(** The entry passes the loop of the update view on the offer [pk]
    without an exception: each of its keys names a column, and the key
    [offer] comes only with an identity that matches no detail of the
    offer, where the statement touches no row. *)
Definition loop_safe (db : DB) (pk : Z) (e : DetailData) : Prop :=
  dd_unknown e = [] ∧ (dd_offer e = None ∨ unmatched db pk e).

(** The caller passes the permission classes of the view for the method
    and the offer. *)
Definition authorized (method : Method) (user : Auth.RequestUser)
    (o : Offer) : Prop :=
  forallb (fun p => Permissions.has_permission p user)
          (OfferDetailsAPIView.get_permissions method) = true
  ∧ forallb (fun p => Permissions.has_object_permission p user o)
            (OfferDetailsAPIView.get_permissions method) = true.

(** The detail table after the loop of the view over the entries. *)
Fixpoint loop_rows (pk : Z) (details_data : list DetailData)
    (rows : list OfferDetail) : list OfferDetail :=
  match details_data with
  | [] => rows
  | e :: rest =>
      match dd_id e with
      | Some k =>
          if k =? 0 then loop_rows pk rest rows
          else loop_rows pk rest
                 (map (fun r => if (detail_id r =? k) && (offer r =? pk)
                                then ORM.apply_data e r else r) rows)
      | None => loop_rows pk rest rows
      end
  end.

(** A patch on the sample offer 1: one entry names a detail of the other
    offer, one carries no identity. *)
Definition foreign_entry : DetailData :=
  {| dd_id := Some 3; dd_title := Some "Basic";
     dd_revisions := Some 5;
     dd_delivery_time_in_days := Some 1;
     dd_price := Some (Qmake 99 1);
     dd_features := Some ["all"];
     dd_offer_type := Some "basic";
     dd_offer := None; dd_unknown := [] |}.

(** An entry that carries an identity no detail has, and nothing else. *)
Definition stray_entry : DetailData :=
  {| dd_id := Some 999; dd_title := None; dd_revisions := None;
     dd_delivery_time_in_days := None; dd_price := None;
     dd_features := None; dd_offer_type := None;
     dd_offer := None; dd_unknown := [] |}.

Definition stray_patch : OfferData :=
  {| od_title := None; od_description := None; od_image := None;
     od_details := Some [stray_entry] |}.

(** A whole detail under an identity no detail has, with a key
    [discount] that names no field. *)
Definition tagged_entry : DetailData :=
  {| dd_id := Some 999; dd_title := Some "Basic";
     dd_revisions := Some 5;
     dd_delivery_time_in_days := Some 1;
     dd_price := Some (Qmake 99 1);
     dd_features := Some ["all"];
     dd_offer_type := Some "basic";
     dd_offer := None; dd_unknown := ["discount"] |}.

Definition tagged_patch : OfferData :=
  {| od_title := None; od_description := None; od_image := None;
     od_details := Some [tagged_entry] |}.

Definition foreign_patch : OfferData :=
  {| od_title := Some "Emblem"; od_description := None; od_image := None;
     od_details := Some [foreign_entry; Sample.boundary_detail] |}.

(** * Vocabulary of the further properties *)

(** The store keeps its keys apart: the counters are positive, primary
    keys are positive, unique and below the counter of their table, and
    every detail row points to an offer row. *)
Definition integrity (db : DB) : Prop :=
  0 < next_offer_id db ∧ 0 < next_detail_id db
  ∧ NoDup (map id (offers_offer db))
  ∧ Forall (fun o => 0 < id o < next_offer_id db) (offers_offer db)
  ∧ NoDup (map detail_id (offers_offerdetail db))
  ∧ Forall (fun d => 0 < detail_id d < next_detail_id db)
           (offers_offerdetail db)
  ∧ Forall (fun d => offer d ∈ map id (offers_offer db))
           (offers_offerdetail db).

(** The store after the deletion of the offer [pk]: the offer row and,
    by the cascade, its detail rows are gone. *)
Definition after_delete (pk : Z) (db : DB) : DB :=
  {| auth_user := auth_user db;
     offers_offer := List.filter (fun r => negb (id r =? pk)) (offers_offer db);
     offers_offerdetail :=
       List.filter (fun d => negb (offer d =? pk)) (offers_offerdetail db);
     next_offer_id := next_offer_id db;
     next_detail_id := next_detail_id db |}.

(** The offer with the key [pk], as [get_object_or_404] finds it. *)
Definition offer_at (pk : Z) (db : DB) : option Offer :=
  List.find (fun o => id o =? pk) (offers_offer db).

(** The caller is the owner of the offer. *)
Definition owns (u : Auth.User) (o : Offer) : Prop := Auth.id u = user o.

(** The detail with the key [pk], as [get_object_or_404] finds it. *)
Definition detail_at (pk : Z) (db : DB) : option OfferDetail :=
  List.find (fun d => detail_id d =? pk) (offers_offerdetail db).

(** The body of the response to a read of one offer: the representation
    without the details of its owner. *)
Definition read_view (db : DB) (o : Offer) (p : Auth.Profile)
  : OfferSerializer.Representation :=
  {| OfferSerializer.r_offer := o;
     OfferSerializer.r_details := map detail_id (ORM.details_of (id o) db);
     OfferSerializer.r_min_price := OfferSerializer.get_min_price o db;
     OfferSerializer.r_min_delivery_time :=
       OfferSerializer.get_min_delivery_time o db;
     OfferSerializer.r_user_details := None |}.

(** The store after an update that passed its checks: the rows of the
    detail table after the loop of the view, and the offer row with the
    attributes of the patch and a new stamp. *)
Definition after_update (now pk : Z) (o : Offer)
    (v : AllOfferDetailsSerializer.ValidatedPatch)
    (details_data : list DetailData) (db : DB) : DB :=
  (ORM.save_offer now (AllOfferDetailsSerializer.set_attrs v o)
     (ORM.set_offers_offerdetail
        (loop_rows pk details_data (offers_offerdetail db)) db)).1.

(** What one entry of the patch does to one row in the loop of the view. *)
Definition touch (pk : Z) (r : OfferDetail) (e : DetailData) : OfferDetail :=
  match dd_id e with
  | Some k =>
      if k =? 0 then r
      else if (detail_id r =? k) && (offer r =? pk)
           then ORM.apply_data e r else r
  | None => r
  end.

(** A patch that renames an offer and carries an empty [details] list. *)
Definition rename_patch : OfferData :=
  {| od_title := Some "Taken"; od_description := None; od_image := None;
     od_details := Some [] |}.

(** A patch with two entries for the detail 1, the second with the price
    20.555. *)
Definition priced_entry (p : Q) : DetailData :=
  {| dd_id := Some 1; dd_title := Some "Basic";
     dd_revisions := Some 2;
     dd_delivery_time_in_days := Some 3;
     dd_price := Some p;
     dd_features := Some ["design"];
     dd_offer_type := Some "basic";
     dd_offer := None; dd_unknown := [] |}.

Definition twice_patch : OfferData :=
  {| od_title := None; od_description := None; od_image := None;
     od_details :=
       Some [priced_entry (Qmake 15 1); priced_entry (Qmake 20555 1000)] |}.

(** A patch whose first entry sets the price of the detail 1 and whose
    second entry carries a key that names no column. *)
Definition torn_patch : OfferData :=
  {| od_title := None; od_description := None; od_image := None;
     od_details :=
       Some [ priced_entry (Qmake 15 1);
              {| dd_id := Some 1; dd_title := Some "Basic";
                 dd_revisions := Some 2;
                 dd_delivery_time_in_days := Some 3;
                 dd_price := Some (Qmake 16 1);
                 dd_features := Some ["design"];
                 dd_offer_type := Some "basic";
                 dd_offer := None; dd_unknown := ["discount"] |} ] |}.

(** The first entry of a list that carries the identity [k]. *)
Definition first_entry (k : Z) (details_data : list DetailData)
  : option DetailData :=
  List.find (fun e => bool_decide (dd_id e = Some k)) details_data.

(** What [_update_details] on the offer [pk] does to a row: a detail of
    the offer takes the fields of the first entry with its identity and
    is saved, which rounds its price. *)
Definition upsert (pk : Z) (details_data : list DetailData)
    (r : OfferDetail) : OfferDetail :=
  if offer r =? pk then
    match first_entry (detail_id r) details_data with
    | Some e => round_price (ORM.apply_data e r)
    | None => r
    end
  else r.

(** A list of entries with identities: the detail 1 twice and a detail
    of another offer. *)
Definition upsert_entries : list DetailData :=
  [ priced_entry (Qmake 20556 1000); priced_entry (Qmake 15 1);
    foreign_entry ].

(** The row of the caller is in the user table. *)
Definition known_user (db : DB) (u : Auth.User) : Prop :=
  List.find (fun x => Auth.id x =? Auth.id u) (auth_user db) = Some u.

(** What the loop does to a row, given the dictionary of the details
    that are still to be consumed. *)
Definition loop_effect (existing : gmap Z OfferDetail)
    (details_data : list DetailData) (r : OfferDetail) : OfferDetail :=
  match existing !! detail_id r with
  | Some _ =>
      match first_entry (detail_id r) details_data with
      | Some e => round_price (ORM.apply_data e r)
      | None => r
      end
  | None => r
  end.

(** The characters of a string, the capital ASCII letters as small ones. *)
Definition fold_case (s : string) : list ascii :=
  map SearchFilter.lower (list_ascii_of_string s).

(** The term occurs in the string, the case of the ASCII letters aside. *)
Definition occurs (term s : string) : Prop :=
  ∃ before after, fold_case s = before ++ fold_case term ++ after.

(** A list request for a page of a size. *)
Definition page_request (n size : Z) : OfferListAPIView.ListParams :=
  {| OfferListAPIView.query := OfferListAPIView.query no_parameters;
     OfferListAPIView.filterset_user := None;
     OfferListAPIView.search := [];
     OfferListAPIView.page := Some (OfferPagination.PageNumber n);
     OfferListAPIView.page_size := Some size |}.

(** * Vocabulary of the order properties *)

(** An order as [Order.save] leaves it: the columns it takes over from
    the detail are set and it has a business user. *)
Definition complete (o : Orders.Order) : Prop :=
  is_Some (Orders.price o)
  ∧ is_Some (Orders.delivery_time_in_days o)
  ∧ is_Some (Orders.features o)
  ∧ is_Some (Orders.revisions o)
  ∧ ∃ b, Orders.business_user o = Some b ∧ b ≠ 0.

(** The order table keeps its keys apart, its rows are complete and each
    of them points to a detail row. *)
Definition order_integrity (st : Orders.Store) : Prop :=
  NoDup (map Orders.id (Orders.orders_order st))
  ∧ Forall (fun o => complete o ∧ is_Some (Orders.related_detail o st))
           (Orders.orders_order st).

(** The order with the key [pk], as [get_object_or_404] finds it. *)
Definition order_at (pk : Z) (st : Orders.Store) : option Orders.Order :=
  List.find (fun o => Orders.id o =? pk) (Orders.orders_order st).

(** The user sold or bought the order. *)
Definition party (u : Auth.User) (o : Orders.Order) : Prop :=
  Orders.business_user o = Some (Auth.id u)
  ∨ Orders.customer_user o = Auth.id u.

(** The order after a change of its status to [s] at [now], on the
    detail [d]: the status and the stamp are new, an empty title or tier
    is taken from the detail. *)
Definition with_status (now : Z) (s : string) (d : OfferDetail)
    (o : Orders.Order) : Orders.Order :=
  {| Orders.id := Orders.id o;
     Orders.status := s;
     Orders.created_at := Orders.created_at o;
     Orders.title := Orders.str_or (Orders.title o) (detail_title d);
     Orders.offer_type := Orders.str_or (Orders.offer_type o) (offer_type d);
     Orders.offer_detail_id := Orders.offer_detail_id o;
     Orders.price := Orders.price o;
     Orders.updated_at := now;
     Orders.delivery_time_in_days := Orders.delivery_time_in_days o;
     Orders.features := Orders.features o;
     Orders.revisions := Orders.revisions o;
     Orders.customer_user := Orders.customer_user o;
     Orders.business_user := Orders.business_user o |}.

(** 1 when the two statuses are the same, else 0. *)
Definition one_if (s s' : string) : nat :=
  if String.eqb s s' then 1%nat else 0%nat.

(** [on_delete=CASCADE] of [Order.offer_detail_id]: the orders on a
    deleted detail are deleted with it. *)
Definition cascade (st : Orders.Store) : Orders.Store :=
  {| Orders.base := Orders.base st;
     Orders.orders_order :=
       List.filter
         (fun o => bool_decide (is_Some (Orders.related_detail o st)))
         (Orders.orders_order st) |}.

(** A view of the offer module on the store with the order table: the
    view works on the tables of the offer module, and the detail rows it
    deletes take the orders on them with them. *)
Definition on_offers {A} (v : View A) (st : Orders.Store)
  : Orders.Store * (APIException + A) :=
  let (db, r) := v (Orders.base st) in
  (cascade {| Orders.base := db; Orders.orders_order := Orders.orders_order st |},
   r).

(** The orders that were not placed on a detail of the offer [pk]. *)
Definition orders_off (pk : Z) (st : Orders.Store) : list Orders.Order :=
  List.filter
    (fun o => match Orders.related_detail o st with
              | Some d => negb (offer d =? pk)
              | None => false
              end)
    (Orders.orders_order st).

Module SampleOrders.
Import Orders.

Definition order (pk detail_pk customer : Z) (s : string) (stamp : Z)
  : Order :=
  {| id := pk; status := s; created_at := stamp; title := "Basic";
     offer_type := ""; offer_detail_id := detail_pk;
     price := Some (Qmake 45 1); updated_at := stamp;
     delivery_time_in_days := Some 3; features := Some ["sketch"];
     revisions := Some 1; customer_user := customer;
     business_user := Some 1 |}.

(** An order object with the key of the first row, without business
    user, price, delivery time and features, with an empty title and with
    no revisions. *)
Definition bare : Order :=
  {| id := 1; status := "in_progress"; created_at := 30; title := "";
     offer_type := ""; offer_detail_id := 1;
     price := None; updated_at := 30;
     delivery_time_in_days := None; features := None;
     revisions := Some 0; customer_user := 3;
     business_user := None |}.

(** Carol bought the first tier of the logo and the site, Bob the second
    tier of the logo; Alice sold them. *)
Definition store : Store :=
  {| base := Sample.db;
     orders_order :=
       [ order 1 1 3 "in_progress" 30;
         order 2 3 3 "completed" 40;
         order 3 2 2 "cancelled" 35 ] |}.

End SampleOrders.

(** * Properties *)

(** ** The view monad *)

Lemma bind_eval {A B} (m : View A) (k : A → View B) (db : DB) :
  (m ≫= k) db
  = match m db with
    | (db', inl e) => (db', inl e)
    | (db', inr a) => k a db'
    end.
Proof. reflexivity. Qed.

Lemma ret_eval {A} (a : A) (db : DB) : (mret a : View A) db = (db, inr a).
Proof. reflexivity. Qed.

Lemma require_eval (b : bool) (e : APIException) (db : DB) :
  require b e db = (db, if b then inr tt else inl e).
Proof. by destruct b. Qed.
(** ** Detail validation *)

Section DetailValidation.
Import Fields OfferDetailSerializer.













Lemma is_valid_errors data : is_valid data = false ↔ errors data ≠ [].
Proof.
  unfold is_valid, errors, run_validation, collect_errors.
  destruct (field_title data), (field_revisions data),
    (field_delivery_time_in_days data), (field_price data),
    (field_features data), (field_offer_type data); simpl;
    split; intros; congruence.
Qed.


(** The validators at and next to their thresholds. *)
Lemma validators_at_the_boundary :
  (∃ m, validate_delivery_time_in_days 0 = inl m)
  ∧ validate_delivery_time_in_days 1 = inr 1
  ∧ (∃ m, validate_price (Qmake 1 1) = inl m)
  ∧ validate_price (Qmake 101 100) = inr (Qmake 101 100)
  ∧ (∃ m, validate_revisions (-2) = inl m)
  ∧ validate_revisions (-1) = inr (-1)
  ∧ (∃ m, validate_features [] = inl m).
Proof. repeat split; eexists; reflexivity. Qed.




End DetailValidation.

(** ** Ordering *)

Section Ordering.
Import OrderingHelperOffers.

#[local] Instance by_created_at_total : Total by_created_at.
Proof. intros a b. unfold by_created_at. lia. Qed.

#[local] Instance by_updated_at_total : Total by_updated_at.
Proof. intros a b. unfold by_updated_at. lia. Qed.

#[local] Instance by_min_price_total : Total by_min_price.
Proof.
  intros a b. unfold by_min_price, price_le.
  destruct (a_min_price a) as [x|], (a_min_price b) as [y|]; auto.
  rewrite !Qle_bool_iff.
  destruct (Qlt_le_dec x y) as [H|H]; [left; by apply Qlt_le_weak | by right].
Qed.

#[local] Instance flip_total {A} (R : relation A) `{!Total R} : Total (flip R).
Proof. intros a b. unfold flip. destruct (total R a b); auto. Qed.

Lemma order_by_Permutation field queryset : order_by field queryset ≡ₚ queryset.
Proof.
  unfold order_by.
  repeat match goal with
         | |- context [String.eqb ?a ?b] => destruct (String.eqb a b)
         end;
    try apply merge_sort_Permutation; reflexivity.
Qed.

Lemma apply_ordering_Permutation queryset ordering :
  apply_ordering queryset ordering ≡ₚ queryset.
Proof. apply order_by_Permutation. Qed.

(** A token outside the vocabulary has no entry in the map. *)
Lemma ordering_field_default ordering :
  ordering ∉ vocabulary → ordering_field ordering = "-updated_at".
Proof.
  intros H. unfold ordering_field, ordering_map.
  rewrite (not_elem_of_list_to_map_1 _ ordering); [done|].
  intros Hin. apply H. simpl in Hin. unfold vocabulary.
  rewrite !elem_of_cons in *. tauto.
Qed.

Lemma orders_descending_updated_at queryset ordering :
  ordering_field ordering = "-updated_at" →
  orders (flip by_updated_at) ordering queryset.
Proof.
  intros H. split; [|apply apply_ordering_Permutation].
  unfold apply_ordering. rewrite H. apply (Sorted_merge_sort _).
Qed.

(** The rows under each of the six tokens. *)
Lemma apply_ordering_sorted queryset :
  Sorted by_created_at (apply_ordering queryset "created_at")
  ∧ Sorted (flip by_created_at) (apply_ordering queryset "-created_at")
  ∧ Sorted by_min_price (apply_ordering queryset "min_price")
  ∧ Sorted (flip by_min_price) (apply_ordering queryset "-min_price")
  ∧ Sorted (flip by_updated_at) (apply_ordering queryset "updated_at")
  ∧ Sorted by_updated_at (apply_ordering queryset "-updated_at").
Proof. repeat split; apply (Sorted_merge_sort _). Qed.

Lemma Sorted_weaken {A} (R R' : relation A) l :
  (∀ x y, R x y → R' x y) → Sorted R l → Sorted R' l.
Proof.
  intros HR. induction 1 as [|x l Hs IH Hh]; constructor; [done|].
  destruct Hh; constructor. by apply HR.
Qed.

Lemma price_le_at_most a b : price_le a b ↔ at_most a b.
Proof.
  unfold price_le, at_most. destruct a as [x|], b as [y|]; try done.
  apply Qle_bool_iff.
Qed.



End Ordering.

(** ** Filtering *)

Section Filtering.
Import OfferListAPIView.

Lemma in_apply_filter {V} (lookup : V → Annotated → bool) value queryset a :
  In a (apply_filter lookup value queryset) ↔
    In a queryset ∧ ∀ v, value = Some v → lookup v a = true.
Proof.
  unfold apply_filter. destruct value as [v|].
  - rewrite filter_In. split.
    + intros [? ?]. split; [done|]. by intros ? [= <-].
    + intros [? H]. auto.
  - split; [intros ?; split; [done | intros ? [=]] | tauto].
Qed.

Lemma in_annotate db a :
  In a (annotate db) ↔
    In (a_offer a) (offers_offer db)
    ∧ a_min_price a = OfferSerializer.get_min_price (a_offer a) db.
Proof.
  unfold annotate. rewrite in_map_iff. split.
  - intros (o & <- & Ho). simpl. auto.
  - intros [Ho Hm]. exists (a_offer a). split; [|done].
    destruct a as [o m]. simpl in *. by rewrite Hm.
Qed.

Lemma delivery_lookup db value a :
  filter_details__delivery_time_in_days__lte db value a = true ↔
    delivers_within db value (a_offer a).
Proof.
  unfold filter_details__delivery_time_in_days__lte, delivers_within,
    ORM.details_of.
  rewrite existsb_exists. split.
  - intros (d & Hd & Hle). apply filter_In in Hd as [Hd Ho].
    exists d. rewrite list_elem_of_In. repeat split; [done | lia | lia].
  - intros (d & Hd & Ho & Hle). exists d. rewrite filter_In.
    rewrite list_elem_of_In in Hd. repeat split; [done | lia | lia].
Qed.

Lemma in_get_queryset params db a :
  In a (get_queryset params db) ↔ In a (filtered params db).
Proof.
  unfold get_queryset. split; apply Permutation_in;
    [| symmetry]; apply order_by_Permutation.
Qed.

(** C9. An offer is listed exactly when it passes every filter that is
    present: its owner is [creator_id], its minimum price is at least
    [min_price], and one of its details is delivered within
    [max_delivery_time] days; an absent parameter filters nothing.  Under
    [max_delivery_time] alone an offer is listed exactly when one of its
    details is delivered in time, so an offer with a three-day detail is
    listed under the value 5 whatever its other details.  The listed rows
    are the filtered rows, each with the minimum price of its offer, in
    the order of the ordering parameter: by creation time or by minimum
    price, ascending or with a dash descending; latest update first under
    [updated_at], under a token outside the vocabulary and without the
    parameter, and latest update last under [-updated_at]. *)
Theorem filtering_max_delivery_time (db : DB) :
  (∀ params o,
     o ∈ map a_offer (get_queryset params db) ↔
       o ∈ offers_offer db
       ∧ (∀ v, creator_id params = Some v → user o = v)
       ∧ (∀ v, min_price params = Some v →
            ∃ m, OfferSerializer.get_min_price o db = Some m ∧ (v <= m)%Q)
       ∧ (∀ v, max_delivery_time params = Some v → delivers_within db v o))
  ∧ (∀ value o,
       o ∈ map a_offer (get_queryset (only_max_delivery_time value) db) ↔
         o ∈ offers_offer db ∧ delivers_within db value o)
  ∧ (∀ o d,
       o ∈ offers_offer db → d ∈ offers_offerdetail db →
       offer d = id o → delivery_time_in_days d = 3 →
       o ∈ map a_offer (get_queryset (only_max_delivery_time 5) db))
  ∧ (∀ params,
       get_queryset params db
       = OrderingHelperOffers.apply_ordering (filtered params db)
           (default "updated_at" (ordering params))
       ∧ get_queryset params db ≡ₚ filtered params db)
  ∧ (∀ params a,
       a ∈ get_queryset params db →
       a_min_price a = OfferSerializer.get_min_price (a_offer a) db)
  ∧ (∀ params,
       (ordering params = Some "created_at" →
        Sorted (fun a b => created_at (a_offer a) <= created_at (a_offer b))
               (get_queryset params db))
       ∧ (ordering params = Some "-created_at" →
          Sorted (fun a b => created_at (a_offer b) <= created_at (a_offer a))
                 (get_queryset params db))
       ∧ (ordering params = Some "min_price" →
          Sorted (fun a b => at_most (a_min_price a) (a_min_price b))
                 (get_queryset params db))
       ∧ (ordering params = Some "-min_price" →
          Sorted (fun a b => at_most (a_min_price b) (a_min_price a))
                 (get_queryset params db))
       ∧ (ordering params = Some "updated_at" →
          Sorted (fun a b => updated_at (a_offer b) <= updated_at (a_offer a))
                 (get_queryset params db))
       ∧ (ordering params = Some "-updated_at" →
          Sorted (fun a b => updated_at (a_offer a) <= updated_at (a_offer b))
                 (get_queryset params db))
       ∧ ((∀ token, ordering params = Some token → token ∉ vocabulary) →
          Sorted (fun a b => updated_at (a_offer b) <= updated_at (a_offer a))
                 (get_queryset params db))).
Proof.
  assert (Hgen : ∀ params o,
     o ∈ map a_offer (get_queryset params db) ↔
       o ∈ offers_offer db
       ∧ (∀ v, creator_id params = Some v → user o = v)
       ∧ (∀ v, min_price params = Some v →
            ∃ m, OfferSerializer.get_min_price o db = Some m ∧ (v <= m)%Q)
       ∧ (∀ v, max_delivery_time params = Some v → delivers_within db v o)).
  { intros params o. rewrite !list_elem_of_In, in_map_iff.
    split.
    - intros (a & <- & Ha). apply in_get_queryset in Ha.
      unfold filtered in Ha. rewrite !in_apply_filter, in_annotate in Ha.
      destruct Ha as ((([Ho Hm] & Hc) & Hp) & Hd).
      split; [done|]. split; [|split].
      + intros v Hv. specialize (Hc v Hv). unfold filter_user_id in Hc. lia.
      + intros v Hv. specialize (Hp v Hv). unfold filter_min_price__gte in Hp.
        rewrite <- Hm. destruct (a_min_price a) as [m|]; [|done].
        exists m. split; [done | by apply Qle_bool_iff].
      + intros v Hv. by apply delivery_lookup, Hd.
    - intros (Ho & Hc & Hp & Hd).
      exists {| a_offer := o;
                a_min_price := OfferSerializer.get_min_price o db |}.
      split; [done|]. apply in_get_queryset. unfold filtered.
      rewrite !in_apply_filter, in_annotate. simpl.
      repeat split; [done| | |].
      + intros v Hv. unfold filter_user_id. simpl.
        specialize (Hc v Hv). lia.
      + intros v Hv. unfold filter_min_price__gte. simpl.
        destruct (Hp v Hv) as (m & -> & Hle). by apply Qle_bool_iff.
      + intros v Hv. by apply delivery_lookup, Hd. }
  assert (Hmax : ∀ value o,
       o ∈ map a_offer (get_queryset (only_max_delivery_time value) db) ↔
         o ∈ offers_offer db ∧ delivers_within db value o).
  { intros value o. rewrite Hgen. simpl. split.
    - intros (Ho & _ & _ & Hd). auto.
    - intros [Ho Hd]. repeat split; [done | done | done |].
      by intros v [= <-]. }
  split; [exact Hgen|]. split; [exact Hmax|]. split.
  - intros o d Ho Hd Hoffer Hdays. apply Hmax. split; [done|].
    exists d. repeat split; [done | done | lia].
  - split; [|split].
    + intros params. split; [reflexivity|]. apply order_by_Permutation.
    + intros params a Ha%list_elem_of_In. apply in_get_queryset in Ha.
      unfold filtered in Ha. rewrite !in_apply_filter, in_annotate in Ha.
      tauto.
    + intros params. unfold get_queryset.
      destruct (apply_ordering_sorted (filtered params db))
        as (H1 & H2 & H3 & H4 & H5 & H6).
      repeat split.
      * intros ->. exact H1.
      * intros ->. exact H2.
      * intros ->. simpl. revert H3. apply Sorted_weaken.
        intros x y. apply price_le_at_most.
      * intros ->. simpl. revert H4. apply Sorted_weaken.
        intros x y. apply price_le_at_most.
      * intros ->. exact H5.
      * intros ->. exact H6.
      * intros Hout. destruct (ordering params) as [token|]; [|exact H5].
        simpl.
        apply (orders_descending_updated_at (filtered params db) token).
        apply ordering_field_default. by apply Hout.
Qed.

(** The offer of the sample store with a three-day and a seven-day detail
    is listed under [max_delivery_time=5]. *)
Lemma filtering_max_delivery_time_witness :
  Sample.logo ∈ map a_offer
    (get_queryset (only_max_delivery_time 5) Sample.db).
Proof.
  apply (filtering_max_delivery_time Sample.db).
  split.
  - apply list_elem_of_In. simpl. auto.
  - exists (Sample.detail 1 1 3 (Qmake 50 1) "basic").
    split; [apply list_elem_of_In; simpl; auto | split; [reflexivity|]].
    simpl. lia.
Defined.

End Filtering.
(** ** The list view: filter backends and paginator *)

Section Listing.
Import Auth Permissions Models OfferListAPIView.

Lemma django_filter_eval value queryset db :
  DjangoFilterBackend.filter_queryset value queryset db
  = (db, match value with
         | None => inr queryset
         | Some k =>
             if existsb (fun u => Auth.id u =? k) (auth_user db)
             then inr (List.filter (fun a => user (a_offer a) =? k) queryset)
             else inl no_such_user
         end).
Proof.
  destruct value as [k|]; [|done].
  unfold DjangoFilterBackend.filter_queryset.
  rewrite bind_eval. unfold get_db at 1.
  rewrite bind_eval, require_eval. by destruct (existsb _ _).
Qed.

Lemma filter_queryset_eval params db :
  OfferListAPIView.filter_queryset params (get_queryset (query params) db) db
  = (db, match filterset_user params with
         | Some k =>
             if existsb (fun u => Auth.id u =? k) (auth_user db)
             then inr (listed params db) else inl no_such_user
         | None => inr (listed params db)
         end).
Proof.
  unfold OfferListAPIView.filter_queryset, listed.
  rewrite bind_eval, django_filter_eval.
  destruct (filterset_user params) as [k|]; [|done].
  by destruct (existsb _ _).
Qed.

Lemma in_ordering_filter params queryset a :
  In a (OrderingFilter.filter_queryset params queryset) ↔ In a queryset.
Proof.
  unfold OrderingFilter.filter_queryset.
  destruct (OrderingFilter.get_ordering params) as [|t ts]; [done|].
  unfold OrderingFilter.order_by.
  split; apply Permutation_in; [|symmetry]; apply merge_sort_Permutation.
Qed.

Lemma in_search_filter terms queryset a :
  In a (SearchFilter.filter_queryset terms queryset)
  ↔ In a queryset ∧ SearchFilter.matches terms a = true.
Proof.
  unfold SearchFilter.filter_queryset. destruct terms as [|t ts].
  - simpl. tauto.
  - apply filter_In.
Qed.

(** The rows of a list response: rows of [get_queryset], of the user of
    the filter set, that hold every term of the search. *)
Lemma in_listed params db a :
  In a (listed params db)
  ↔ In a (get_queryset (query params) db)
    ∧ (∀ k, filterset_user params = Some k → user (a_offer a) = k)
    ∧ SearchFilter.matches (search params) a = true.
Proof.
  unfold listed. rewrite in_ordering_filter, in_search_filter.
  destruct (filterset_user params) as [k|].
  - rewrite filter_In, Z.eqb_eq. split.
    + intros [[? ?] ?]. split; [done|]. split; [|done]. by intros ? [= <-].
    + intros (? & Hk & ?). split; [|done]. split; [done|]. by apply Hk.
  - split; [|tauto]. intros [? ?]. split; [done|]. by split.
Qed.

Lemma listed_offers params db a :
  In a (listed params db) → In (a_offer a) (offers_offer db).
Proof.
  rewrite in_listed, in_get_queryset. intros [Ha _].
  unfold filtered in Ha. rewrite !in_apply_filter, in_annotate in Ha. tauto.
Qed.

Lemma page_size_bounds requested :
  1 ≤ OfferPagination.get_page_size requested ≤ 6.
Proof.
  unfold OfferPagination.get_page_size, OfferPagination.max_page_size,
    OfferPagination.page_size.
  destruct requested as [n|]; [|lia].
  destruct (Z.ltb_spec 0 n); lia.
Qed.



Lemma in_take_drop {A} (x : A) n m l : In x (take n (drop m l)) → In x l.
Proof.
  rewrite <- !list_elem_of_In. intros H.
  apply (subseteq_drop m l). by apply (subseteq_take n (drop m l)).
Qed.


End Listing.


(** ** Permissions of the read views and of the deletion *)

Section ReadPermissions.
Import Auth Permissions Models.

Lemma check_permissions_AllowAny user db :
  check_permissions [AllowAny] user db = (db, inr tt).
Proof. reflexivity. Qed.

Lemma check_permissions_IsAuthenticated user db :
  check_permissions [IsAuthenticated] user db
  = (db, if is_authenticated user then inr tt else inl NotAuthenticated).
Proof. destruct user; reflexivity. Qed.

Lemma to_representation_ok db o :
  owners_have_profiles db = true → In o (offers_offer db) →
  ∃ p, ORM.owner_profile o db = (db, inr p)
       ∧ OfferSerializer.to_representation o db
         = (db, inr (representation_of db o p)).
Proof.
  intros Hall Ho. unfold owners_have_profiles in Hall.
  rewrite forallb_forall in Hall. specialize (Hall o Ho).
  destruct (ORM.owner_profile o db) as [db' [e|p]] eqn:E; [done|].
  assert (db' = db) as ->.
  { unfold ORM.owner_profile in E.
    destruct (List.find _ _) as [u|]; [|by inversion E].
    destruct (profile u); by inversion E. }
  exists p. split; [done|].
  unfold OfferSerializer.to_representation, OfferSerializer.get_user_details,
    mbind, View_bind, mret, View_ret, get_db. simpl. by rewrite E.
Qed.

Lemma mapM_to_representation db l :
  owners_have_profiles db = true →
  (∀ o, In o l → In o (offers_offer db)) →
  ∃ data, mapM OfferSerializer.to_representation l db = (db, inr data)
          ∧ map OfferSerializer.r_offer data = l.
Proof.
  intros Hall. induction l as [|o l IH]; intros Hl.
  - by exists [].
  - destruct IH as (data & Hdata & Hmap).
    { intros o' Ho'. apply Hl. by right. }
    destruct (to_representation_ok db o Hall) as (p & _ & Hp).
    { apply Hl. by left. }
    exists (representation_of db o p :: data). split.
    + simpl. rewrite bind_eval, Hp, bind_eval, Hdata. reflexivity.
    + simpl. by rewrite Hmap.
Qed.

Lemma find_offer_In pk l o :
  List.find (fun o => id o =? pk) l = Some o → In o l ∧ id o = pk.
Proof. intros H. apply find_some in H as [? ?]. split; [done | lia]. Qed.

Lemma user_filter_choice k db :
  existsb (fun u => Auth.id u =? k) (auth_user db) = true
  ↔ k ∈ map Auth.id (auth_user db).
Proof.
  rewrite existsb_exists, list_elem_of_In, in_map_iff.
  split; intros (u & H1 & H2); exists u.
  - split; [|done]. lia.
  - split; [done|]. lia.
Qed.

(** The list view after its permission check, which every caller
    passes. *)
Lemma list_get_eval user params db :
  OfferListAPIView.get user params db
  = match OfferListAPIView.filter_queryset params
            (OfferListAPIView.get_queryset (OfferListAPIView.query params) db)
            db with
    | (db1, inl e) => (db1, inl e)
    | (db1, inr queryset) =>
        match OfferPagination.paginate_queryset
                (OfferListAPIView.page params)
                (OfferListAPIView.page_size params) queryset with
        | inl e => (db1, inl e)
        | inr p =>
            match mapM OfferSerializer.to_representation
                       (map a_offer (OfferPagination.object_list p)) db1 with
            | (db2, inl e) => (db2, inl e)
            | (db2, inr data) =>
                (db2, inr (OfferListAPIView.get_paginated_response p data))
            end
        end
    end.
Proof.
  unfold OfferListAPIView.get, check_permissions.
  rewrite bind_eval, require_eval. simpl. rewrite bind_eval.
  unfold get_db at 1. rewrite bind_eval.
  destruct (OfferListAPIView.filter_queryset _ _ _) as [db1 [e|queryset]];
    [done|].
  rewrite bind_eval. unfold lift at 1.
  destruct (OfferPagination.paginate_queryset _ _ _) as [e|p]; [done|].
  rewrite bind_eval.
  by destruct (mapM OfferSerializer.to_representation _ db1)
    as [db2 [e|data]].
Qed.




End ReadPermissions.

Section Deletion.
Import Auth Permissions Models.

(** A staff user with a profile may delete, whatever the type of the
    profile: the disjunction with [is_staff] absorbs the test. *)
Lemma has_permission_to_delete_staff u o p :
  is_staff u = true → profile u = Some p →
  OfferDetailsAPIView.has_permission_to_delete (Authenticated u) o = inr true.
Proof.
  intros Hs Hp. unfold OfferDetailsAPIView.has_permission_to_delete. simpl.
  destruct (Auth.id u =? user o); [done|].
  rewrite Hs, Hp. by rewrite orb_true_r.
Qed.

(** The callers whose deletion of an existing offer succeeds. *)
Lemma delete_succeeds_iff u pk o db :
  List.find (fun o => id o =? pk) (offers_offer db) = Some o →
  (∃ db', OfferDetailsAPIView.delete (Authenticated u) pk db = (db', inr tt))
  ↔ Auth.id u = user o ∨ (is_staff u = true ∧ is_Some (profile u)).
Proof.
  intros Hfind.
  unfold OfferDetailsAPIView.delete, mbind, View_bind, check_permissions,
    require, ORM.get_offer_or_404, lift,
    OfferDetailsAPIView.has_permission_to_delete. simpl.
  rewrite Hfind.
  destruct (Z.eqb_spec (Auth.id u) (user o)) as [E|E]; simpl.
  - split; [auto | eauto].
  - destruct (is_staff u); simpl.
    + destruct (profile u) as [p|]; simpl.
      * rewrite orb_true_r. simpl. split; [eauto | eauto].
      * split; [intros (? & [=]) | intros [?|[_ [? [=]]]]; done].
    + split; [intros (? & [=]) | intros [?|[[=] _]]; done].
Qed.

(** C1. At the failing input the code departs from the claim: the staff
    user [bob] is not the owner of offer 1 and his profile is a customer
    profile, yet his deletion succeeds and removes the offer with its two
    details. *)
Theorem delete_by_staff_with_customer_profile :
  user_eq (Authenticated Sample.bob) (user Sample.logo) = false
  ∧ is_staff Sample.bob = true
  ∧ type <$> profile Sample.bob = Some "customer"
  ∧ snd (OfferDetailsAPIView.delete (Authenticated Sample.bob) 1 Sample.db)
    = inr tt
  ∧ offers_offer
      (fst (OfferDetailsAPIView.delete (Authenticated Sample.bob) 1 Sample.db))
    = [Sample.site]
  ∧ offers_offerdetail
      (fst (OfferDetailsAPIView.delete (Authenticated Sample.bob) 1 Sample.db))
    = [Sample.detail 3 2 10 (Qmake 30 1) "basic"].
Proof. repeat split. Qed.

End Deletion.

(** ** Creation *)

Section Creation.
Import Auth Permissions Models Fields.
Import OfferDetailSerializer OfferSerializer.

#[local] Arguments OfferListAPIView.is_business_user : simpl never.

Lemma run_validation_inl d e :
  OfferDetailSerializer.run_validation d = inl e →
  is_valid d = false ∧ OfferDetailSerializer.errors d = e.
Proof.
  intros H. unfold is_valid, OfferDetailSerializer.errors. by rewrite H.
Qed.

Lemma run_validation_inr d v :
  OfferDetailSerializer.run_validation d = inr v → is_valid d = true.
Proof. intros H. unfold is_valid. by rewrite H. Qed.

Lemma validate_details_errors details_data :
  (validate_details details_data).1
  = map OfferDetailSerializer.errors
        (List.filter (fun d => negb (is_valid d)) details_data).
Proof.
  induction details_data as [|d ds IH]; [done|].
  simpl. destruct (validate_details ds) as [es vs]. simpl in IH.
  destruct (OfferDetailSerializer.run_validation d) as [e|v] eqn:E.
  - destruct (run_validation_inl d e E) as [-> <-]. simpl. by rewrite IH.
  - rewrite (run_validation_inr d v E). simpl. exact IH.
Qed.

Lemma validate_details_validated details_data :
  Forall2 (fun d v => OfferDetailSerializer.run_validation d = inr v)
          (List.filter is_valid details_data)
          (validate_details details_data).2.
Proof.
  induction details_data as [|d ds IH]; [constructor|].
  simpl. destruct (validate_details ds) as [es vs]. simpl in IH.
  destruct (OfferDetailSerializer.run_validation d) as [e|v] eqn:E.
  - destruct (run_validation_inl d e E) as [-> _]. exact IH.
  - rewrite (run_validation_inr d v E). simpl. by constructor.
Qed.

Lemma filter_negb_nil {A} (f : A → bool) l :
  List.filter (fun x => negb (f x)) l = [] → List.filter f l = l.
Proof.
  induction l as [|x l IH]; [done|]. simpl.
  destruct (f x); simpl; [intros H; by rewrite IH | done].
Qed.

Lemma assign_ids_length next objs : length (ORM.assign_ids next objs) = length objs.
Proof.
  revert next. induction objs as [|d ds IH]; intros next; [done|].
  simpl. by rewrite IH.
Qed.

(** [bulk_create] stores the price of each object as it is. *)
Lemma assign_ids_price next objs :
  map price (ORM.assign_ids next objs) = map price objs.
Proof.
  revert next. induction objs as [|d ds IH]; intros next; [done|].
  simpl. by rewrite IH.
Qed.

Lemma assign_ids_offer next objs pk :
  Forall (fun d => offer d = pk) objs →
  Forall (fun d => offer d = pk) (ORM.assign_ids next objs).
Proof.
  intros H. revert next. induction H; intros next; simpl; constructor; auto.
Qed.

Lemma field_errors_nil data :
  field_errors data = [] →
  ∃ t d, to_internal_value data = inr (t, d, od_image data).
Proof.
  unfold field_errors, to_internal_value.
  destruct (required _ (od_title data)), (required _ (od_description data));
    simpl; try discriminate. eauto.
Qed.

(** The outcome of a create request once its own fields passed. *)
Lemma post_after_field_pass now u data db t d :
  to_internal_value data = inr (t, d, od_image data) →
  OfferListAPIView.post now (Authenticated u) data db
  = match invalid_details data with
    | [] =>
        if OfferListAPIView.is_business_user (Authenticated u) then
          let o := created_offer now u t d (od_image data) db in
          let rows :=
            created_rows (validate_details (default [] (od_details data))).2
                         db in
          (after_create o rows db,
           inr {| c_id := id o; c_title := t; c_image := od_image data;
                  c_description := d;
                  c_details :=
                    ORM.details_of (id o) (after_create o rows db) |})
        else (db, inl BusinessProfileRequired)
    | _ =>
        (db, inl (ValidationError
                    (DetailErrors
                       (map OfferDetailSerializer.errors
                            (invalid_details data)))))
    end.
Proof.
  intros Hf.
  unfold OfferListAPIView.post, check_permissions.
  rewrite bind_eval, require_eval. simpl.
  rewrite bind_eval. unfold lift, OfferSerializer.run_validation, validate.
  rewrite Hf.
  pose proof (validate_details_errors (default [] (od_details data))) as He.
  unfold invalid_details.
  destruct (validate_details (default [] (od_details data))) as [es vs].
  simpl in He. subst es. simpl.
  destruct (List.filter _ (default [] (od_details data))) as [|x xs];
    [|reflexivity].
  simpl. rewrite bind_eval.
  unfold OfferListAPIView.perform_create.
  rewrite bind_eval, require_eval.
  destruct (OfferListAPIView.is_business_user (Authenticated u));
    [|reflexivity].
  unfold OfferSerializer.create. rewrite bind_eval. simpl.
  unfold to_representation_post, created_rows, after_create.
  rewrite bind_eval. simpl.
  rewrite assign_ids_length. reflexivity.
Qed.

Lemma assign_ids_keys next objs :
  map detail_id (ORM.assign_ids next objs) = seqZ next (Z.of_nat (length objs)).
Proof.
  revert next. induction objs as [|d ds IH]; intros next; [done|].
  cbn [ORM.assign_ids map length]. rewrite IH, Nat2Z.inj_succ.
  rewrite (seqZ_cons next) by lia. rewrite Z.pred_succ.
  unfold ORM.set_detail_id. cbn [detail_id]. reflexivity.
Qed.

Lemma char_field_value n x v : char_field n x = inr v → v = strip x.
Proof.
  unfold char_field. destruct (strip x) as [|c r]; [done|].
  destruct (_ ++ _); [by intros [= <-] | done].
Qed.

Lemma internal_value_fields data t d img :
  to_internal_value data = inr (t, d, img) →
  Some t = strip <$> od_title data
  ∧ Some d = strip <$> od_description data
  ∧ img = od_image data.
Proof.
  unfold to_internal_value, required.
  destruct (od_title data) as [x|]; [|done].
  destruct (char_field _ x) as [|t'] eqn:Et; [done|].
  destruct (od_description data) as [y|]; [|done].
  destruct (char_field _ y) as [|d'] eqn:Ed; [done|].
  intros [= <- <- <-].
  apply char_field_value in Et, Ed. by subst.
Qed.

(** The validated data of a detail are the fields of the body, the title
    trimmed. *)
Lemma detail_validated_fields d v :
  OfferDetailSerializer.run_validation d = inr v →
  Some (v_title v) = strip <$> dd_title d
  ∧ v_revisions v = dd_revisions d
  ∧ v_delivery_time_in_days v = dd_delivery_time_in_days d
  ∧ v_price v = dd_price d
  ∧ Some (v_features v) = dd_features d
  ∧ Some (v_offer_type v) = dd_offer_type d.
Proof.
  unfold OfferDetailSerializer.run_validation.
  destruct (field_title d) as [|t] eqn:Et; [done|].
  destruct (field_revisions d) as [|r] eqn:Er; [done|].
  destruct (field_delivery_time_in_days d) as [|dl] eqn:Ed; [done|].
  destruct (field_price d) as [|p] eqn:Ep; [done|].
  destruct (field_features d) as [|f] eqn:Ef; [done|].
  destruct (field_offer_type d) as [|ot] eqn:Eo; [done|].
  intros [= <-]. simpl.
  unfold field_title, required in Et.
  destruct (dd_title d) as [x|]; [|done].
  apply char_field_value in Et. subst t.
  split; [done|]. split; [|split; [|split; [|split]]].
  - unfold field_revisions, optional, with_hook, integer_field, hook,
      validate_revisions in Er.
    destruct (dd_revisions d) as [x'|]; [|by inversion Er].
    destruct (_ <? x'); [done|]. destruct (x' <? INTEGER_MIN); [done|].
    destruct (x' <? -1); [done|]. by inversion Er.
  - unfold field_delivery_time_in_days, optional, with_hook, integer_field,
      hook, validate_delivery_time_in_days in Ed.
    destruct (dd_delivery_time_in_days d) as [x'|]; [|by inversion Ed].
    destruct (_ <? x'); [done|]. destruct (x' <? INTEGER_MIN); [done|].
    destruct (x' <? 1); [done|]. by inversion Ed.
  - unfold field_price, optional, hook, validate_price in Ep.
    destruct (dd_price d) as [x'|]; [|by inversion Ep].
    destruct (Qle_bool x' 1); [done|]. by inversion Ep.
  - unfold field_features, required, hook, validate_features in Ef.
    destruct (dd_features d) as [[|x' l]|]; [done| |done]. by inversion Ef.
  - unfold field_offer_type, required, choice_field in Eo.
    destruct (dd_offer_type d) as [x'|]; [|done].
    destruct (bool_decide _); [|done]. by inversion Eo.
Qed.

(** The rows of [bulk_create] hold the details of the request. *)
Lemma created_rows_persisted details_data vs pk next :
  Forall2 (fun d v => OfferDetailSerializer.run_validation d = inr v)
          details_data vs →
  Forall2 (persisted pk) details_data
          (ORM.assign_ids next (map (new_detail pk) vs)).
Proof.
  intros H. revert next. induction H as [|d v ds vs Hv _ IH]; intros next.
  - constructor.
  - simpl. constructor; [|apply IH].
    destruct (detail_validated_fields d v Hv) as (Ht & Hr & Hd & Hp & Hf & Ho).
    unfold persisted. simpl. rewrite Hr, Hd, Hp. done.
Qed.

(** C6 (as amended). For a create request of an authenticated caller
    whose title and description pass the field pass: if some detail is
    invalid, the request fails with a validation error that lists the
    errors of every invalid detail, in order, and the store is left as it
    was.  If every detail is valid, a caller without business profile is
    refused and the store is left as it was; for a caller with a business
    profile the store gains the offer, owned by the caller, with the
    title, description and image of the request, and after the rows it
    had one detail row per detail of the request, in order, with fresh
    consecutive keys: each holds the fields of its detail and points to
    the offer; the response carries these rows. *)
Theorem create_validates_every_detail (now : Z) (u : User) (data : OfferData)
    (db : DB) (Hfields : field_errors data = []) :
  (invalid_details data ≠ [] →
   OfferListAPIView.post now (Authenticated u) data db
   = (db, inl (ValidationError
                 (DetailErrors (map OfferDetailSerializer.errors
                                    (invalid_details data)))))
   ∧ Forall (fun e => e ≠ [])
            (map OfferDetailSerializer.errors (invalid_details data)))
  ∧ (invalid_details data = [] →
     OfferListAPIView.is_business_user (Authenticated u) = false →
     OfferListAPIView.post now (Authenticated u) data db
     = (db, inl BusinessProfileRequired))
  ∧ (invalid_details data = [] →
     OfferListAPIView.is_business_user (Authenticated u) = true →
     ∃ o rows created,
       OfferListAPIView.post now (Authenticated u) data db
       = ({| auth_user := auth_user db;
             offers_offer := offers_offer db ++ [o];
             offers_offerdetail := offers_offerdetail db ++ rows;
             next_offer_id := next_offer_id db + 1;
             next_detail_id := next_detail_id db + Z.of_nat (length rows) |},
          inr created)
       ∧ id o = next_offer_id db ∧ user o = Auth.id u
       ∧ Some (title o) = strip <$> od_title data
       ∧ Some (description o) = strip <$> od_description data
       ∧ image o = od_image data
       ∧ created_at o = now ∧ updated_at o = now
       ∧ Forall2 (persisted (id o)) (default [] (od_details data)) rows
       ∧ map detail_id rows
         = seqZ (next_detail_id db) (Z.of_nat (length rows))
       ∧ c_id created = id o
       ∧ c_title created = title o
       ∧ c_description created = description o
       ∧ c_image created = image o
       ∧ c_details created
         = List.filter (fun r => offer r =? id o)
                       (offers_offerdetail db ++ rows)).
Proof.
  destruct (field_errors_nil data Hfields) as (t & d & Hf).
  pose proof (post_after_field_pass now u data db t d Hf) as Hpost.
  split; [|split].
  - intros Hinv. split.
    + rewrite Hpost. by destruct (invalid_details data).
    + apply Forall_forall. intros e He.
      apply list_elem_of_In, in_map_iff in He as (x & <- & Hx).
      apply filter_In in Hx as [_ Hx]. apply is_valid_errors.
      by destruct (is_valid x).
  - intros Hinv Hb. by rewrite Hinv, Hb in Hpost.
  - intros Hinv Hb. rewrite Hinv, Hb in Hpost.
    pose proof (validate_details_validated (default [] (od_details data)))
      as Hvs.
    unfold invalid_details in Hinv. rewrite (filter_negb_nil _ _ Hinv) in Hvs.
    destruct (internal_value_fields data t d _ Hf) as (Ht & Hd & _).
    cbv zeta in Hpost. unfold after_create in Hpost.
    exists (created_offer now u t d (od_image data) db),
      (created_rows (validate_details (default [] (od_details data))).2 db).
    eexists. split; [exact Hpost|]. simpl.
    split; [done|]. split; [done|]. split; [exact Ht|]. split; [exact Hd|].
    split; [done|]. split; [done|]. split; [done|].
    split; [by apply created_rows_persisted|].
    split; [|done].
    unfold created_rows. by rewrite assign_ids_keys, assign_ids_length.
Qed.

(** In the sample store the business user [alice] creates an offer with
    one detail, which is stored under the key 4 for the offer 3 with the
    price of the request. *)
Lemma create_validates_every_detail_witness :
  field_errors Sample.create_request = []
  ∧ invalid_details Sample.create_request = []
  ∧ OfferListAPIView.is_business_user (Authenticated Sample.alice) = true
  ∧ ∃ db' created,
      OfferListAPIView.post 100 (Authenticated Sample.alice)
        Sample.create_request Sample.db
      = (db', inr created)
      ∧ map detail_id (c_details created) = [4]
      ∧ map offer (c_details created) = [3]
      ∧ map price (c_details created) = [Qmake 10999 1000].
Proof.
  split; [reflexivity|]. split; [reflexivity|]. split; [reflexivity|].
  destruct (create_validates_every_detail 100 Sample.alice
              Sample.create_request Sample.db eq_refl) as (_ & _ & H).
  destruct (H eq_refl eq_refl)
    as (o & rows & created & Hp & Hid & _ & _ & _ & _ & _ & _ & Hrows & Hk
        & _ & _ & _ & _ & Hd).
  eexists _, created. split; [exact Hp|].
  simpl in Hrows.
  apply Forall2_cons_inv_l in Hrows as (r & rows' & Hr & Hnil & ->).
  apply Forall2_nil_inv_l in Hnil as ->.
  destruct Hr as (_ & Hprice & _ & _ & _ & _ & Hoffer).
  simpl in Hk. injection Hk as Hk.
  rewrite Hd, Hid. simpl. rewrite Hoffer, Hid. simpl.
  rewrite Hk, Hoffer, Hid, Hprice. done.
Defined.

(** C6 (as stated) fails on three counts.  The detail of the request has
    the price 1 and is invalid; from the anonymous caller the request is
    refused as not authenticated, and without a title it is answered with
    the error of the title alone: in neither case are the errors of the
    detail collected.  The details of the other request are valid; from a
    customer it is refused, and nothing is persisted. *)
Lemma create_answers_before_it_reads_the_details :
  (invalid_details Sample.cheap_request ≠ []
   ∧ OfferListAPIView.post 100 AnonymousUser Sample.cheap_request Sample.db
     = (Sample.db, inl NotAuthenticated))
  ∧ (invalid_details Sample.headless_request ≠ []
     ∧ OfferListAPIView.post 100 (Authenticated Sample.alice)
         Sample.headless_request Sample.db
       = (Sample.db,
          inl (ValidationError (FieldErrors [("title", [msg_required])] []))))
  ∧ (invalid_details Sample.create_request = []
     ∧ OfferListAPIView.post 100 (Authenticated Sample.carol)
         Sample.create_request Sample.db
       = (Sample.db, inl BusinessProfileRequired)).
Proof. repeat split; done. Qed.

Lemma details_of_app pk db rows o :
  ORM.details_of pk (after_create o rows db)
  = ORM.details_of pk db ++ List.filter (fun d => offer d =? pk) rows.
Proof. unfold ORM.details_of. simpl. apply List.filter_app. Qed.

(** C10. A create request of a caller with a business profile whose
    [details] key is absent or an empty list succeeds: the store gains the
    offer and no detail row, and, in a store where no detail row points to
    the next offer key, the minimum price and the minimum delivery time of
    the new offer read as absent. *)
Theorem create_without_details (now : Z) (u : User) (data : OfferData)
    (db : DB)
    (Hfields : field_errors data = [])
    (Hbusiness : OfferListAPIView.is_business_user (Authenticated u) = true)
    (Hnone : od_details data = None ∨ od_details data = Some [])
    (Hfresh : ∀ d, d ∈ offers_offerdetail db → offer d ≠ next_offer_id db) :
  ∃ db' o created,
    OfferListAPIView.post now (Authenticated u) data db = (db', inr created)
    ∧ offers_offer db' = offers_offer db ++ [o]
    ∧ offers_offerdetail db' = offers_offerdetail db
    ∧ user o = Auth.id u
    ∧ c_id created = id o
    ∧ c_details created = []
    ∧ ORM.details_of (id o) db' = []
    ∧ get_min_price o db' = None
    ∧ get_min_delivery_time o db' = None.
Proof.
  destruct (field_errors_nil data Hfields) as (t & d & Hf).
  pose proof (post_after_field_pass now u data db t d Hf) as Hpost.
  assert (Hd : default [] (od_details data) = []).
  { destruct Hnone as [-> | ->]; reflexivity. }
  unfold invalid_details in Hpost. rewrite Hd, Hbusiness in Hpost.
  simpl in Hpost.
  set (o := created_offer now u t d (od_image data) db) in *.
  assert (Hno : ORM.details_of (id o) (after_create o [] db) = []).
  { rewrite details_of_app. simpl. rewrite app_nil_r.
    unfold ORM.details_of.
    induction (offers_offerdetail db) as [|x l IH]; [done|].
    simpl. destruct (Z.eqb_spec (offer x) (next_offer_id db)) as [E|E].
    - exfalso. apply (Hfresh x); [by left | done].
    - apply IH. intros y Hy. apply Hfresh. by right. }
  exists (after_create o [] db), o. eexists. split; [exact Hpost|].
  simpl. rewrite app_nil_r.
  unfold get_min_price, get_min_delivery_time. rewrite Hno.
  repeat split; done.
Qed.

(** In the sample store [alice] creates an offer from a body without a
    [details] key. *)
Lemma create_without_details_witness :
  ∃ db' o created,
    OfferListAPIView.post 100 (Authenticated Sample.alice)
      Sample.bare_request Sample.db = (db', inr created)
    ∧ offers_offerdetail db' = offers_offerdetail Sample.db
    ∧ get_min_price o db' = None
    ∧ get_min_delivery_time o db' = None.
Proof.
  destruct (create_without_details 100 Sample.alice Sample.bare_request
              Sample.db eq_refl eq_refl (or_introl eq_refl))
    as (db' & o & created & Hp & _ & Hd & _ & _ & _ & _ & Hm & Ht).
  - intros d Hd. apply list_elem_of_In in Hd. simpl in Hd.
    decompose [or] Hd; subst; try done.
  - exists db', o, created. repeat split; assumption.
Defined.

(** [OfferDetail.save] stores the rounded price. *)
Lemma save_detail_rounds d db :
  (ORM.save_detail d db).1 = ORM.write_detail (round_price d) db
  ∧ price (round_price d) = round2 (price d).
Proof. split; reflexivity. Qed.

(** C2. At the failing input the code departs from the claim: the detail
    created with the price 10.999 is stored with the price 10.999, while
    that price rounded to two decimals is 11.00. *)
Theorem create_stores_the_price_unrounded :
  (∃ created,
     snd (OfferListAPIView.post 100 (Authenticated Sample.alice)
            Sample.create_request Sample.db) = inr created)
  ∧ map price
        (ORM.details_of 3
           (fst (OfferListAPIView.post 100 (Authenticated Sample.alice)
                   Sample.create_request Sample.db)))
    = [Qmake 10999 1000]
  ∧ round2 (Qmake 10999 1000) = Qmake 1100 100
  ∧ ¬ (Qmake 10999 1000 == round2 (Qmake 10999 1000))%Q.
Proof.
  split; [eexists; reflexivity|]. split; [reflexivity|].
  split; [reflexivity|]. intros H. vm_compute in H. discriminate.
Qed.

End Creation.

(** ** Update *)

Section Update.
Import Auth Permissions Models Fields.
Import AllOfferDetailsSerializer.

Lemma set_offers_offerdetail_same db :
  ORM.set_offers_offerdetail (offers_offerdetail db) db = db.
Proof. by destruct db. Qed.

Lemma plain_loop_safe db pk e : plain e → loop_safe db pk e.
Proof. intros [Ho Hu]. split; [done | by left]. Qed.

Lemma hit_none pk k rows :
  k ∉ map detail_id (List.filter (fun d => offer d =? pk) rows) →
  ∀ r, In r rows → (detail_id r =? k) && (offer r =? pk) = false.
Proof.
  intros Hk r Hr. destruct (Z.eqb_spec (detail_id r) k) as [E|E]; [|done].
  destruct (offer r =? pk) eqn:Ho; [|done]. exfalso. apply Hk.
  rewrite <- E. apply list_elem_of_In, in_map. by apply filter_In.
Qed.

Lemma map_unchanged {A} (f : A → A) l :
  (∀ x, In x l → f x = x) → map f l = l.
Proof.
  induction l as [|x l IH]; [done|]. intros H. simpl.
  rewrite (H x) by (by left). f_equal. apply IH. intros y Hy. apply H.
  by right.
Qed.

(** A statement of the loop whose entry is safe: the rows it matches take
    the columns of the entry, and the keys and the offers of the rows
    stay. *)
Lemma filter_update_safe k pk e db :
  dd_id e = Some k → loop_safe db pk e →
  ORM.filter_update k pk e db
  = (ORM.set_offers_offerdetail
       (map (fun r => if (detail_id r =? k) && (offer r =? pk)
                      then ORM.apply_data e r else r)
            (offers_offerdetail db)) db, inr tt)
    ∧ map (fun r => (detail_id r, offer r))
          (map (fun r => if (detail_id r =? k) && (offer r =? pk)
                         then ORM.apply_data e r else r)
               (offers_offerdetail db))
      = map (fun r => (detail_id r, offer r)) (offers_offerdetail db).
Proof.
  intros Hk [Hu Ho]. unfold ORM.filter_update. rewrite Hu.
  destruct Ho as [Ho|Hun].
  - rewrite Ho. split; [done|]. rewrite map_map. apply map_ext.
    intros r. destruct (Z.eqb_spec (detail_id r) k) as [E|E]; [|done].
    destruct (offer r =? pk); [|done].
    unfold ORM.apply_data. simpl. by rewrite Hk, Ho, E.
  - unfold unmatched in Hun. rewrite Hk in Hun.
    pose proof (hit_none pk k _ Hun) as Hnone.
    assert (Hex : existsb (fun r => (detail_id r =? k) && (offer r =? pk))
                    (offers_offerdetail db) = false).
    { apply not_true_is_false. intros (r & Hr & Hh)%existsb_exists.
      by rewrite (Hnone r Hr) in Hh. }
    rewrite Hex. cbn [andb].
    rewrite (map_unchanged _ (offers_offerdetail db)).
    + by destruct (dd_offer e).
    + intros r Hr. by rewrite (Hnone r Hr).
Qed.

Lemma unmatched_keys db db' pk e :
  map (fun r => (detail_id r, offer r)) (offers_offerdetail db')
  = map (fun r => (detail_id r, offer r)) (offers_offerdetail db) →
  unmatched db pk e → unmatched db' pk e.
Proof.
  intros Hkeys. unfold unmatched, ORM.details_of.
  destruct (dd_id e) as [k|]; [|done].
  assert (Hsame : ∀ l l' : list OfferDetail,
    map (fun r => (detail_id r, offer r)) l'
    = map (fun r => (detail_id r, offer r)) l →
    map detail_id (List.filter (fun d => offer d =? pk) l')
    = map detail_id (List.filter (fun d => offer d =? pk) l)).
  { intros l. induction l as [|x l IH]; intros [|x' l'] H; try done.
    simpl in H. injection H as Hi Ho Hl. simpl. rewrite Ho.
    destruct (offer x =? pk); simpl; [rewrite Hi; f_equal|]; by apply IH. }
  by rewrite (Hsame _ _ Hkeys).
Qed.

Lemma update_loop_rows pk details_data db :
  Forall (loop_safe db pk) details_data →
  OfferDetailsAPIView.update_loop pk details_data db
  = (ORM.set_offers_offerdetail
       (loop_rows pk details_data (offers_offerdetail db)) db, inr tt).
Proof.
  revert db. induction details_data as [|e rest IH]; intros db Hsafe; simpl.
  - by rewrite set_offers_offerdetail_same.
  - apply Forall_cons in Hsafe as [He Hrest].
    destruct (dd_id e) as [k|] eqn:Hk; [|by apply IH].
    destruct (k =? 0); [by apply IH|].
    destruct (filter_update_safe k pk e db Hk He) as [Hf Hkeys].
    rewrite bind_eval, Hf. rewrite IH.
    + reflexivity.
    + eapply Forall_impl; [exact Hrest|]. intros x [Hu Ho].
      split; [done|]. destruct Ho as [Ho|Ho]; [by left|right].
      by apply (unmatched_keys db).
Qed.

(** Whatever the entries, the loop keeps the keys of the detail rows,
    and a row that it moves points to an offer row. *)
Lemma update_loop_keys pk details_data db :
  ∃ rows,
    (OfferDetailsAPIView.update_loop pk details_data db).1
    = ORM.set_offers_offerdetail rows db
    ∧ map detail_id rows = map detail_id (offers_offerdetail db)
    ∧ (Forall (fun d => offer d ∈ map id (offers_offer db))
              (offers_offerdetail db) →
       Forall (fun d => offer d ∈ map id (offers_offer db)) rows).
Proof.
  revert db. induction details_data as [|e rest IH]; intros db; simpl.
  - exists (offers_offerdetail db).
    by rewrite set_offers_offerdetail_same.
  - destruct (dd_id e) as [k|] eqn:Hk; [|apply IH].
    destruct (k =? 0); [apply IH|].
    assert (Hstay : (OfferDetailsAPIView.update_loop pk rest db).1
                    = (OfferDetailsAPIView.update_loop pk rest db).1)
      by reflexivity.
    rewrite bind_eval. unfold ORM.filter_update.
    destruct (dd_unknown e) as [|x xs].
    2:{ exists (offers_offerdetail db).
        by rewrite set_offers_offerdetail_same. }
    set (rows1 := map (fun r => if (detail_id r =? k) && (offer r =? pk)
                                then ORM.apply_data e r else r)
                      (offers_offerdetail db)).
    assert (Hids : map detail_id rows1 = map detail_id (offers_offerdetail db)).
    { unfold rows1. rewrite map_map. apply map_ext. intros r.
      destruct (Z.eqb_spec (detail_id r) k) as [E|E]; [|done].
      destruct (offer r =? pk); [|done].
      unfold ORM.apply_data. simpl. by rewrite Hk, E. }
    assert (Hnext : ∃ rows,
      (OfferDetailsAPIView.update_loop pk rest
         (ORM.set_offers_offerdetail rows1 db)).1
      = ORM.set_offers_offerdetail rows db
      ∧ map detail_id rows = map detail_id (offers_offerdetail db)
      ∧ (Forall (fun d => offer d ∈ map id (offers_offer db)) rows1 →
         Forall (fun d => offer d ∈ map id (offers_offer db)) rows)).
    { destruct (IH (ORM.set_offers_offerdetail rows1 db))
        as (rows & Hr & Hi & Hfk).
      exists rows. split; [by rewrite Hr|]. split; [by rewrite Hi|].
      exact Hfk. }
    destruct (dd_offer e) as [j|] eqn:Hj.
    + destruct (existsb _ (offers_offerdetail db)
                && negb (existsb (fun o => id o =? j) (offers_offer db)))
        eqn:Hbad.
      * exists (offers_offerdetail db).
        by rewrite set_offers_offerdetail_same.
      * destruct Hnext as (rows & Hr & Hi & Hfk).
        exists rows. split; [exact Hr|]. split; [exact Hi|].
        intros Hall. apply Hfk. unfold rows1.
        rewrite Forall_forall in Hall. rewrite Forall_forall.
        intros d Hd%list_elem_of_In. apply in_map_iff in Hd as (r & <- & Hr').
        destruct ((detail_id r =? k) && (offer r =? pk)) eqn:Hhit.
        -- unfold ORM.apply_data. simpl. rewrite Hj. simpl.
           apply andb_false_iff in Hbad as [Hbad|Hbad].
           ++ exfalso. apply not_true_iff_false in Hbad. apply Hbad.
              apply existsb_exists. by exists r.
           ++ apply negb_false_iff, existsb_exists in Hbad
                as (o & Ho & Hjo). apply Z.eqb_eq in Hjo. rewrite <- Hjo.
              by apply list_elem_of_In, in_map.
        -- by apply Hall, list_elem_of_In.
    + destruct Hnext as (rows & Hr & Hi & Hfk).
      exists rows. split; [exact Hr|]. split; [exact Hi|].
      intros Hall. apply Hfk. unfold rows1.
      rewrite Forall_forall in Hall. rewrite Forall_forall.
      intros d Hd%list_elem_of_In. apply in_map_iff in Hd as (r & <- & Hr').
      destruct ((detail_id r =? k) && (offer r =? pk)).
      * unfold ORM.apply_data. simpl. rewrite Hj. simpl.
        by apply Hall, list_elem_of_In.
      * by apply Hall, list_elem_of_In.
Qed.

Lemma loop_rows_length pk details_data rows :
  length (loop_rows pk details_data rows) = length rows.
Proof.
  revert rows. induction details_data as [|e rest IH]; intros rows; simpl;
    [done|].
  destruct (dd_id e) as [k|]; [|apply IH].
  destruct (k =? 0); [apply IH|]. by rewrite IH, length_map.
Qed.

(** A row that no entry names is left as it is by the loop. *)
Lemma loop_rows_frame pk details_data rows i d :
  rows !! i = Some d →
  (∀ e, e ∈ details_data → ¬ names pk e d) →
  loop_rows pk details_data rows !! i = Some d.
Proof.
  revert rows. induction details_data as [|e rest IH]; intros rows Hi Hn;
    simpl; [done|].
  assert (Hrest : ∀ e', e' ∈ rest → ¬ names pk e' d).
  { intros e' He'. apply Hn. by right. }
  destruct (dd_id e) as [k|] eqn:Hk; [|by apply IH].
  destruct (Z.eqb_spec k 0) as [Hz|Hz]; [by apply IH|].
  apply IH; [|done].
  change (map ?f rows) with (f <$> rows).
  rewrite list_lookup_fmap, Hi. simpl.
  destruct (Z.eqb_spec (detail_id d) k) as [E|E]; [|done].
  destruct (Z.eqb_spec (offer d) pk) as [E'|E']; [|done].
  exfalso. apply (Hn e); [by left|]. unfold names. subst k. done.
Qed.

Lemma update_details_loop_nested existing details_data db :
  _update_details_loop existing (map nested_value details_data) db
  = (db, inr []).
Proof. induction details_data as [|e rest IH]; [done | exact IH]. Qed.

(** [_update_details] skips an entry without identity and one whose
    identity is not a key of the dictionary of existing details. *)
Lemma update_details_loop_unmatched existing details_data db :
  (∀ e, e ∈ details_data →
        match dd_id e with
        | None => True
        | Some k => existing !! k = None
        end) →
  _update_details_loop existing details_data db = (db, inr []).
Proof.
  induction details_data as [|e rest IH]; intros H; [done|].
  simpl. pose proof (H e ltac:(by left)) as He.
  assert (Hrest : _update_details_loop existing rest db = (db, inr [])).
  { apply IH. intros e' He'. apply H. by right. }
  destruct (dd_id e) as [k|]; [|done].
  destruct (k =? 0); [done|]. by rewrite He.
Qed.

Lemma existing_details_lookup_None l (m : gmap Z OfferDetail) k :
  fold_left (fun m d => <[detail_id d := d]> m) l m !! k = None ↔
    m !! k = None ∧ k ∉ map detail_id l.
Proof.
  revert m. induction l as [|d l IH]; intros m; simpl.
  - rewrite elem_of_nil. tauto.
  - rewrite IH, not_elem_of_cons, lookup_insert_None.
    split; [intros [[? ?] ?] | intros [? [? ?]]]; repeat split; congruence.
Qed.

Lemma refresh_cache_nil cache : refresh_cache [] cache = cache.
Proof. unfold refresh_cache. simpl. induction cache; simpl; congruence. Qed.

Lemma run_validation_fields data v :
  AllOfferDetailsSerializer.run_validation data = inr v →
  vp_title v = strip <$> od_title data
  ∧ vp_description v = strip <$> od_description data
  ∧ vp_image v = od_image data
  ∧ vp_details v = map nested_value <$> od_details data.
Proof.
  unfold AllOfferDetailsSerializer.run_validation, to_internal_value, validate.
  destruct (own_errors data); [|discriminate].
  destruct (details_errors data); [|discriminate].
  destruct (flat_map _ _); [|discriminate].
  intros [= <-]. done.
Qed.

Lemma serializer_update_nested now instance v details_data db :
  vp_details v = Some (map nested_value details_data) →
  AllOfferDetailsSerializer.update now instance v db
  = ((ORM.save_offer now (set_attrs v (obj instance)) db).1,
     inr {| obj := set_attrs v (obj instance);
            details_cache := details_cache instance |}).
Proof.
  intros Hd. unfold AllOfferDetailsSerializer.update. rewrite Hd.
  destruct details_data as [|e rest]; simpl.
  - reflexivity.
  - unfold mbind at 1, View_bind.
    unfold _update_details, mbind at 1, View_bind.
    change (nested_value e :: map nested_value rest)
      with (map nested_value (e :: rest)).
    rewrite update_details_loop_nested. simpl.
    rewrite refresh_cache_nil. reflexivity.
Qed.

(** The outcome of an update that passes the permission checks and the
    validation, on a patch with a [details] list. *)
Lemma update_outcome now method user pk data details_data o v db :
  List.find (fun o => id o =? pk) (offers_offer db) = Some o →
  authorized method user o →
  od_details data = Some details_data →
  Forall (loop_safe db pk) details_data →
  AllOfferDetailsSerializer.run_validation data = inr v →
  ∃ response,
    OfferDetailsAPIView.update now method user pk data db
    = ((ORM.save_offer now (set_attrs v o)
          (ORM.set_offers_offerdetail
             (loop_rows pk details_data (offers_offerdetail db)) db)).1,
       inr response).
Proof.
  intros Hfind [Hperm Hobj] Hdetails Hsafe Hvalid.
  destruct (find_offer_In _ _ _ Hfind) as [_ Hid].
  destruct (run_validation_fields data v Hvalid) as (_ & _ & _ & Hvd).
  rewrite Hdetails in Hvd. simpl in Hvd.
  unfold OfferDetailsAPIView.update, check_permissions.
  rewrite bind_eval, require_eval, Hperm.
  rewrite bind_eval. unfold OfferDetailsAPIView.get_object.
  rewrite bind_eval. unfold ORM.get_offer_or_404 at 1. rewrite Hfind.
  unfold check_object_permissions.
  rewrite bind_eval, require_eval, Hobj, bind_eval.
  unfold get_db at 1. rewrite ret_eval.
  rewrite bind_eval. unfold lift at 1. rewrite Hvalid.
  rewrite bind_eval, Hdetails, ret_eval.
  cbn [obj]. rewrite Hid.
  rewrite bind_eval, update_loop_rows by done.
  rewrite bind_eval.
  rewrite (serializer_update_nested _ _ _ details_data _ Hvd).
  rewrite ret_eval. eexists. reflexivity.
Qed.

(** Without a [details] key no update succeeds. *)
Lemma update_needs_details_key now method user pk data db db' response :
  od_details data = None →
  OfferDetailsAPIView.update now method user pk data db ≠ (db', inr response).
Proof.
  intros Hd. unfold OfferDetailsAPIView.update.
  unfold mbind at 1, View_bind.
  destruct (check_permissions _ _ _) as [db1 [e|[]]]; [done|].
  unfold mbind at 1, View_bind.
  destruct (OfferDetailsAPIView.get_object _ _ _ _) as [db2 [e|inst]]; [done|].
  unfold mbind at 1, View_bind, lift.
  destruct (AllOfferDetailsSerializer.run_validation data) as [e|v]; [done|].
  rewrite Hd. done.
Qed.

(** C7. At the failing input the code departs from the claim: the owner
    of offer 1 sends a patch with a new title and no [details] key; the
    view raises a [TypeError] and the store, title included, is as it
    was. *)
Theorem update_without_details_key_raises :
  user_eq (Authenticated Sample.alice) (user Sample.logo) = true
  ∧ OfferDetailsAPIView.update 100 PATCH (Authenticated Sample.alice) 1
      Sample.title_patch Sample.db
    = (Sample.db, inl (UncaughtException "TypeError"))
  ∧ status_code (UncaughtException "TypeError") = 500.
Proof. repeat split. Qed.

(** With an empty [details] list the same patch renames the offer. *)
Lemma update_with_empty_details_renames :
  ∃ db' response,
    OfferDetailsAPIView.update 100 PATCH (Authenticated Sample.alice) 1
      {| od_title := Some "Emblem"; od_description := None;
         od_image := None; od_details := Some [] |} Sample.db
    = (db', inr response)
    ∧ map title (offers_offer db') = ["Emblem"; "Site"].
Proof. eexists _, _. split; reflexivity. Qed.

(** An update that passes writes the scalar fields of the patch to the
    row of the offer and stamps it. *)
Lemma update_applies_scalar_fields now method caller pk data details_data o v db :
  List.find (fun o => id o =? pk) (offers_offer db) = Some o →
  authorized method caller o →
  od_details data = Some details_data →
  Forall (loop_safe db pk) details_data →
  AllOfferDetailsSerializer.run_validation data = inr v →
  ∃ db' response,
    OfferDetailsAPIView.update now method caller pk data db
    = (db', inr response)
    ∧ offers_offer db'
      = map (fun r =>
               if id r =? pk
               then {| id := id o; user := user o;
                       title := default (title o) (strip <$> od_title data);
                       description :=
                         default (description o)
                                 (strip <$> od_description data);
                       image := match od_image data with
                                | Some i => Some i
                                | None => image o
                                end;
                       updated_at := now; created_at := created_at o |}
               else r)
            (offers_offer db).
Proof.
  intros Hfind Hauth Hdetails Hsafe Hvalid.
  destruct (update_outcome now method caller pk data details_data o v db
              Hfind Hauth Hdetails Hsafe Hvalid) as (response & Hu).
  destruct (find_offer_In _ _ _ Hfind) as [_ Hid].
  destruct (run_validation_fields data v Hvalid) as (Ht & Hd & Hi & _).
  eexists _, response. split; [exact Hu|]. simpl.
  unfold set_attrs. simpl. by rewrite Ht, Hd, Hi, Hid.
Qed.

(** The loop of the view writes the price of a matched entry as it is:
    the patch of the three-day detail of offer 1 to the price 20.555
    stores 20.555. *)
Lemma update_stores_the_price_unrounded :
  ∃ db' response,
    OfferDetailsAPIView.update 100 PATCH (Authenticated Sample.alice) 1
      {| od_title := None; od_description := None; od_image := None;
         od_details :=
           Some [ {| dd_id := Some 1; dd_title := Some "Basic";
                     dd_revisions := Some 2;
                     dd_delivery_time_in_days := Some 3;
                     dd_price := Some (Qmake 20555 1000);
                     dd_features := Some ["design"];
                     dd_offer_type := Some "basic";
     dd_offer := None; dd_unknown := [] |} ] |} Sample.db
    = (db', inr response)
    ∧ map price (offers_offerdetail db')
      = [Qmake 20555 1000; Qmake 80 1; Qmake 30 1].
Proof. eexists _, _. split; reflexivity. Qed.

Lemma validate_rejects_invalid data attrs :
  invalid_details data ≠ [] →
  ∃ e, AllOfferDetailsSerializer.validate data attrs
       = inl (ValidationError e).
Proof.
  unfold invalid_details, validate. intros Hinv.
  destruct (flat_map _ (default [] (od_details data))) as [|x xs] eqn:E;
    [|by eexists].
  exfalso. apply Hinv. clear Hinv.
  induction (default [] (od_details data)) as [|d ds IH]; [done|].
  simpl in *. destruct (OfferDetailSerializer.is_valid d); simpl in *;
    [by apply IH | done].
Qed.

Lemma run_validation_rejects_invalid data :
  invalid_details data ≠ [] →
  ∃ e, AllOfferDetailsSerializer.run_validation data
       = inl (ValidationError e).
Proof.
  intros Hinv. unfold AllOfferDetailsSerializer.run_validation.
  destruct (to_internal_value data) as [e|attrs] eqn:E.
  - unfold to_internal_value in E.
    destruct (own_errors data), (details_errors data);
      inversion E; by eexists.
  - by apply validate_rejects_invalid.
Qed.

Lemma integer_field_accepts m m' z v :
  integer_field m z = inr v → integer_field m' z = inr v.
Proof.
  unfold integer_field. destruct (INTEGER_MAX <? z); [done|].
  by destruct (z <? INTEGER_MIN).
Qed.

Lemma optional_integer_accepts m m' (validate : Z → string + Z) x r :
  optional (with_hook (integer_field m) validate) x = inr r →
  errs "revisions" (optional (integer_field m') x) = []
  ∧ errs "delivery_time_in_days" (optional (integer_field m') x) = [].
Proof.
  unfold optional, with_hook. destruct x as [z|]; [|done].
  destruct (integer_field m z) as [|v] eqn:E; [done|].
  by rewrite (integer_field_accepts m m' z v E).
Qed.

(** A detail that is valid as a whole passes the nested field pass. *)
Lemma valid_detail_nested d :
  OfferDetailSerializer.is_valid d = true → nested_errors d = [].
Proof.
  unfold OfferDetailSerializer.is_valid, OfferDetailSerializer.run_validation.
  destruct (OfferDetailSerializer.field_title d) as [|t] eqn:Et; [done|].
  destruct (OfferDetailSerializer.field_revisions d) as [|r] eqn:Er; [done|].
  destruct (OfferDetailSerializer.field_delivery_time_in_days d)
    as [|dl] eqn:Ed; [done|].
  destruct (OfferDetailSerializer.field_price d) as [|p]; [done|].
  destruct (OfferDetailSerializer.field_features d) as [|f]; [done|].
  destruct (OfferDetailSerializer.field_offer_type d) as [|ot] eqn:Eo;
    [done|].
  intros _. unfold nested_errors.
  apply (optional_integer_accepts _ msg_min_value) in Er as [-> _].
  apply (optional_integer_accepts _ msg_min_value) in Ed as [_ ->].
  unfold OfferDetailSerializer.field_title, required in Et.
  unfold OfferDetailSerializer.field_offer_type, required in Eo.
  unfold optional.
  destruct (dd_title d) as [x|]; [|done]. rewrite Et.
  destruct (dd_offer_type d) as [y|]; [|done]. by rewrite Eo.
Qed.

(** A patch whose own fields pass and whose entries are valid details
    passes the validation. *)
Lemma run_validation_accepts data :
  own_errors data = [] → invalid_details data = [] →
  ∃ v, AllOfferDetailsSerializer.run_validation data = inr v.
Proof.
  intros Hown Hinv.
  assert (Hall : Forall (fun d => OfferDetailSerializer.is_valid d = true)
                        (default [] (od_details data))).
  { unfold invalid_details in Hinv. apply Forall_forall. intros d Hd.
    destruct (OfferDetailSerializer.is_valid d) eqn:E; [done|].
    exfalso. assert (Hin : In d []); [|done].
    rewrite <- Hinv. apply filter_In. split; [by apply list_elem_of_In|].
    by rewrite E. }
  unfold AllOfferDetailsSerializer.run_validation, to_internal_value.
  rewrite Hown.
  assert (Hd : details_errors data = []).
  { unfold details_errors.
    assert (Hf : forallb (fun e => bool_decide (e = []))
                   (map nested_errors (default [] (od_details data))) = true).
    { apply forallb_forall. intros e He.
      apply in_map_iff in He as (d & <- & Hd).
      apply bool_decide_eq_true, valid_detail_nested.
      rewrite Forall_forall in Hall. by apply Hall, list_elem_of_In. }
    by rewrite Hf. }
  rewrite Hd. unfold validate.
  assert (He : flat_map (fun detail =>
                 if OfferDetailSerializer.is_valid detail then []
                 else [OfferDetailSerializer.errors detail])
                 (default [] (od_details data)) = []).
  { induction Hall as [|d ds Hv _ IH]; [done|]. simpl. by rewrite Hv. }
  rewrite He. by eexists.
Qed.

Lemma run_validation_rejects_fields data :
  own_errors data ≠ [] →
  ∃ e, AllOfferDetailsSerializer.run_validation data
       = inl (ValidationError e).
Proof.
  intros Hown. unfold AllOfferDetailsSerializer.run_validation,
    to_internal_value.
  destruct (own_errors data); [done|]. by eexists.
Qed.

(** An update that reaches the validation and fails it leaves the store
    as it was. *)
Lemma update_invalid now method user pk data o e db :
  List.find (fun o => id o =? pk) (offers_offer db) = Some o →
  authorized method user o →
  AllOfferDetailsSerializer.run_validation data = inl e →
  OfferDetailsAPIView.update now method user pk data db = (db, inl e).
Proof.
  intros Hfind [Hperm Hobj] Hvalid.
  unfold OfferDetailsAPIView.update, check_permissions.
  rewrite bind_eval, require_eval, Hperm.
  rewrite bind_eval. unfold OfferDetailsAPIView.get_object.
  rewrite bind_eval. unfold ORM.get_offer_or_404 at 1. rewrite Hfind.
  unfold check_object_permissions.
  rewrite bind_eval, require_eval, Hobj, bind_eval.
  unfold get_db at 1. rewrite ret_eval.
  rewrite bind_eval. unfold lift at 1. by rewrite Hvalid.
Qed.

(** C8 (as amended).  An update by a caller that passes the permission
    checks, on a patch with a [details] list whose entries pass the loop
    of the view.  Every entry is validated as a whole detail, whether it
    matches a detail of the offer or not: if one of them is invalid, or
    if the title or the description of the patch is, the request is
    refused with a validation error and the store is left as it was.
    Otherwise the request succeeds; the detail table keeps its length;
    every detail row that no entry names is left as it is; and if every
    entry carries no identity or an identity that is not among the
    current details of the offer, the detail table is unchanged.
    [_update_details] likewise skips the entries whose identity is no key
    of the existing details. *)
Theorem update_ignores_unmatched_entries (now : Z) (method : Method)
    (user : RequestUser) (pk : Z) (data : OfferData)
    (details_data : list DetailData) (o : Offer) (db : DB)
    (Hfind : List.find (fun o => id o =? pk) (offers_offer db) = Some o)
    (Hauth : authorized method user o)
    (Hdetails : od_details data = Some details_data)
    (Hsafe : Forall (loop_safe db pk) details_data) :
  (invalid_details data ≠ [] →
   ∃ e, OfferDetailsAPIView.update now method user pk data db
        = (db, inl (ValidationError e)))
  ∧ (own_errors data ≠ [] →
     ∃ e, OfferDetailsAPIView.update now method user pk data db
          = (db, inl (ValidationError e)))
  ∧ (own_errors data = [] → invalid_details data = [] →
     ∃ db' response,
       OfferDetailsAPIView.update now method user pk data db
       = (db', inr response)
       ∧ length (offers_offerdetail db') = length (offers_offerdetail db)
       ∧ (∀ i d,
            offers_offerdetail db !! i = Some d →
            (∀ e, e ∈ details_data → ¬ names pk e d) →
            offers_offerdetail db' !! i = Some d)
       ∧ ((∀ e, e ∈ details_data → unmatched db pk e) →
          offers_offerdetail db' = offers_offerdetail db))
  ∧ (∀ instance entries store,
       (∀ e, e ∈ entries →
             match dd_id e with
             | None => True
             | Some k => k ∉ map detail_id (details_cache instance)
             end) →
       ∃ instance',
         _update_details instance entries store = (store, inr instance')
         ∧ obj instance' = obj instance
         ∧ details_cache instance' = details_cache instance).
Proof.
  split; [|split; [|split]].
  - intros Hinv.
    destruct (run_validation_rejects_invalid data Hinv) as [e He].
    exists e. by apply (update_invalid now method user pk data o).
  - intros Hown.
    destruct (run_validation_rejects_fields data Hown) as [e He].
    exists e. by apply (update_invalid now method user pk data o).
  - intros Hown Hinv.
    destruct (run_validation_accepts data Hown Hinv) as [v Hvalid].
    destruct (update_outcome now method user pk data details_data o v db
                Hfind Hauth Hdetails Hsafe Hvalid) as (response & Hu).
    eexists _, response. split; [exact Hu|]. simpl.
    assert (Hframe : ∀ i d,
           offers_offerdetail db !! i = Some d →
           (∀ e, e ∈ details_data → ¬ names pk e d) →
           loop_rows pk details_data (offers_offerdetail db) !! i = Some d).
    { intros i d. apply loop_rows_frame. }
    split; [apply loop_rows_length|]. split; [exact Hframe|].
    intros Hun. apply list_eq. intros i.
    destruct (offers_offerdetail db !! i) as [d|] eqn:Hi.
    + apply Hframe; [done|]. intros e He (Hk & Hz & Ho).
      specialize (Hun e He). unfold unmatched in Hun. rewrite Hk in Hun.
      apply Hun. apply list_elem_of_In, in_map_iff. exists d. split; [done|].
      unfold ORM.details_of. apply filter_In. split.
      * apply list_elem_of_In. by eapply list_elem_of_lookup_2.
      * lia.
    + apply lookup_ge_None. rewrite loop_rows_length.
      by apply lookup_ge_None.
  - intros instance entries store Hun. eexists. split; [|split].
    + unfold _update_details, mbind, View_bind.
      rewrite update_details_loop_unmatched; [reflexivity|].
      intros e He. specialize (Hun e He).
      destruct (dd_id e) as [k|]; [|done].
      unfold existing_details_of. apply existing_details_lookup_None.
      split; [apply lookup_empty | done].
    + reflexivity.
    + simpl. apply refresh_cache_nil.
Qed.

(** In the sample store the owner of offer 1 sends a patch with an entry
    that names a detail of offer 2 and an entry without identity, both
    valid details: the request succeeds and the detail table is
    unchanged. *)
Lemma update_ignores_unmatched_entries_witness :
  ∃ db' response,
    OfferDetailsAPIView.update 100 PATCH (Authenticated Sample.alice) 1
      foreign_patch Sample.db = (db', inr response)
    ∧ offers_offerdetail db' = offers_offerdetail Sample.db.
Proof.
  assert (Hsafe : Forall (loop_safe Sample.db 1)
                         [foreign_entry; Sample.boundary_detail]).
  { repeat constructor. }
  destruct (update_ignores_unmatched_entries 100 PATCH
              (Authenticated Sample.alice) 1 foreign_patch
              [foreign_entry; Sample.boundary_detail] Sample.logo Sample.db
              eq_refl (conj eq_refl eq_refl) eq_refl Hsafe)
    as (_ & _ & H & _).
  destruct (H eq_refl eq_refl) as (db' & response & Hu & _ & _ & Hsame).
  exists db', response. split; [exact Hu|]. apply Hsame.
  intros e He. apply list_elem_of_In in He. simpl in He.
  destruct He as [<-|[<-|[]]]; unfold unmatched; simpl; [|done].
  intros Hin%list_elem_of_In. simpl in Hin. intuition lia.
Defined.

(** C8 (as stated) fails: the owner of offer 1 sends a patch whose one
    entry carries the identity 999, which no detail has, and nothing
    else.  The entry is not ignored: it is validated as a whole detail,
    and the request is refused with status 400.  Nor is a whole detail
    under that identity ignored when it carries a key that names no
    field: the statement of the loop raises on the key. *)
Lemma unmatched_entry_is_validated :
  authorized PATCH (Authenticated Sample.alice) Sample.logo
  ∧ (unmatched Sample.db 1 stray_entry
     ∧ OfferDetailsAPIView.update 100 PATCH (Authenticated Sample.alice) 1
         stray_patch Sample.db
       = (Sample.db,
          inl (ValidationError
                 (DetailErrors
                    [[("title", [msg_required]);
                      ("features", [msg_required]);
                      ("offer_type", [msg_required])]])))
     ∧ status_code
         (ValidationError
            (DetailErrors
               [[("title", [msg_required]); ("features", [msg_required]);
                 ("offer_type", [msg_required])]])) = 400)
  ∧ (unmatched Sample.db 1 tagged_entry
     ∧ OfferDetailSerializer.is_valid tagged_entry = true
     ∧ OfferDetailsAPIView.update 100 PATCH (Authenticated Sample.alice) 1
         tagged_patch Sample.db
       = (Sample.db, inl (UncaughtException "FieldDoesNotExist"))
     ∧ status_code (UncaughtException "FieldDoesNotExist") = 500).
Proof.
  assert (Hun : ∀ e, dd_id e = Some 999 → unmatched Sample.db 1 e).
  { intros e He. unfold unmatched. rewrite He. simpl.
    rewrite !elem_of_cons, elem_of_nil. lia. }
  split; [by split|]. split.
  - split; [by apply Hun|]. by split.
  - split; [by apply Hun|]. repeat split.
Qed.

End Update.

(** ** Aggregates over the details of an offer *)

Section Aggregates.
Import OfferSerializer.

Lemma fold_Zmin_opt l acc :
  match fold_left ORM.Zmin_opt l acc with
  | None => acc = None ∧ l = []
  | Some m =>
      (acc = Some m ∨ m ∈ l)
      ∧ (∀ a, acc = Some a → m <= a)
      ∧ (∀ x, x ∈ l → m <= x)
  end.
Proof.
  revert acc. induction l as [|x l IH]; intros acc; simpl.
  - destruct acc as [a|]; [|done].
    split; [by left|]. split; [by intros ? [= <-] | by intros ? ?%elem_of_nil].
  - specialize (IH (ORM.Zmin_opt acc x)).
    destruct (fold_left ORM.Zmin_opt l (ORM.Zmin_opt acc x)) as [m|].
    + destruct IH as (Hin & Hacc & Hall). split; [|split].
      * destruct Hin as [Hin|Hin]; [|right; by right].
        destruct acc as [a|]; simpl in Hin; injection Hin as <-.
        -- destruct (Z.min_spec a x) as [[_ ->]|[_ ->]];
             [by left | right; by left].
        -- right; by left.
      * intros a ->. simpl in Hacc. specialize (Hacc _ eq_refl). lia.
      * intros y [->|Hy]%elem_of_cons; [|by apply Hall].
        destruct acc as [a|]; simpl in Hacc; specialize (Hacc _ eq_refl); lia.
    + destruct IH as [Hacc _]. by destruct acc.
Qed.

Lemma fold_Qmin_opt l acc :
  match fold_left ORM.Qmin_opt l acc with
  | None => acc = None ∧ l = []
  | Some m =>
      (acc = Some m ∨ m ∈ l)
      ∧ (∀ a, acc = Some a → (m <= a)%Q)
      ∧ (∀ x, x ∈ l → (m <= x)%Q)
  end.
Proof.
  revert acc. induction l as [|x l IH]; intros acc; simpl.
  - destruct acc as [a|]; [|done].
    split; [by left|]. split.
    + intros ? [= <-]. apply Qle_refl.
    + by intros ? ?%elem_of_nil.
  - specialize (IH (ORM.Qmin_opt acc x)).
    destruct (fold_left ORM.Qmin_opt l (ORM.Qmin_opt acc x)) as [m|].
    + destruct IH as (Hin & Hacc & Hall).
      assert (Hstep : match acc with
                      | Some a => (ORM.Qmin_opt acc x = Some a
                                   ∨ ORM.Qmin_opt acc x = Some x)
                      | None => ORM.Qmin_opt acc x = Some x
                      end).
      { destruct acc as [a|]; simpl; [|done].
        destruct (Qle_bool a x); auto. }
      split; [|split].
      * destruct Hin as [Hin|Hin]; [|right; by right].
        destruct acc as [a|].
        -- destruct Hstep as [E|E]; rewrite E in Hin; injection Hin as <-;
             [by left | right; by left].
        -- rewrite Hstep in Hin. injection Hin as <-. right; by left.
      * intros a ->. simpl in Hacc.
        destruct (Qle_bool a x) eqn:E.
        -- by apply Hacc.
        -- eapply Qle_trans; [by apply Hacc|].
           destruct (Qlt_le_dec x a) as [H|H]; [by apply Qlt_le_weak|].
           apply Qle_bool_iff in H. congruence.
      * intros y [->|Hy]%elem_of_cons; [|by apply Hall].
        destruct acc as [a|]; simpl in Hacc; [|by apply Hacc].
        destruct (Qle_bool a x) eqn:E.
        -- eapply Qle_trans; [by apply Hacc|]. by apply Qle_bool_iff.
        -- by apply Hacc.
    + destruct IH as [Hacc _]. destruct acc as [a|]; simpl in Hacc; [|done].
      by destruct (Qle_bool a x).
Qed.

(** X1. The minimum price and the minimum delivery time of an offer are
    absent exactly when the offer has no detail; otherwise each is the
    value of one of its details and no detail of the offer has a lower
    one.  The annotation of the list queryset is the same minimum
    price. *)
Theorem minimum_over_owned_details (o : Offer) (db : DB) :
  match get_min_price o db with
  | None => ORM.details_of (id o) db = []
  | Some m =>
      (∃ d, d ∈ ORM.details_of (id o) db ∧ price d = m)
      ∧ ∀ d, d ∈ ORM.details_of (id o) db → (m <= price d)%Q
  end
  ∧ match get_min_delivery_time o db with
    | None => ORM.details_of (id o) db = []
    | Some m =>
        (∃ d, d ∈ ORM.details_of (id o) db ∧ delivery_time_in_days d = m)
        ∧ ∀ d, d ∈ ORM.details_of (id o) db → m <= delivery_time_in_days d
    end
  ∧ (∀ a, a ∈ OfferListAPIView.annotate db →
          a_min_price a = get_min_price (a_offer a) db).
Proof.
  split; [|split].
  - unfold get_min_price, ORM.min_Q.
    pose proof (fold_Qmin_opt (map price (ORM.details_of (id o) db)) None)
      as H.
    destruct (fold_left _ _ _) as [m|].
    + destruct H as ([[=]|Hin] & _ & Hall). split.
      * apply list_elem_of_In, in_map_iff in Hin as (d & <- & Hd).
        exists d. by rewrite list_elem_of_In.
      * intros d Hd. apply Hall, list_elem_of_In, in_map.
        by apply list_elem_of_In.
    + destruct H as [_ H]. by apply map_eq_nil in H.
  - unfold get_min_delivery_time, ORM.min_Z.
    pose proof (fold_Zmin_opt
                  (map delivery_time_in_days (ORM.details_of (id o) db))
                  None) as H.
    destruct (fold_left _ _ _) as [m|].
    + destruct H as ([[=]|Hin] & _ & Hall). split.
      * apply list_elem_of_In, in_map_iff in Hin as (d & <- & Hd).
        exists d. by rewrite list_elem_of_In.
      * intros d Hd. apply Hall, list_elem_of_In, in_map.
        by apply list_elem_of_In.
    + destruct H as [_ H]. by apply map_eq_nil in H.
  - intros a Ha. apply list_elem_of_In, in_annotate in Ha. tauto.
Qed.

(** X2. The two serializers validate the details of a body alike: the
    comprehension of [OfferSerializer.validate] and the loop of
    [AllOfferDetailsSerializer.validate] raise the same error or yield
    the same validated details, and the latter keeps the other
    attributes. *)
Theorem both_serializers_validate_details_alike (data : OfferData)
    (attrs : AllOfferDetailsSerializer.ValidatedPatch) :
  match OfferSerializer.validate data with
  | inl e => AllOfferDetailsSerializer.validate data attrs = inl e
  | inr validated =>
      AllOfferDetailsSerializer.validate data attrs
      = inr {| AllOfferDetailsSerializer.vp_title :=
                 AllOfferDetailsSerializer.vp_title attrs;
               AllOfferDetailsSerializer.vp_description :=
                 AllOfferDetailsSerializer.vp_description attrs;
               AllOfferDetailsSerializer.vp_image :=
                 AllOfferDetailsSerializer.vp_image attrs;
               AllOfferDetailsSerializer.vp_details :=
                 AllOfferDetailsSerializer.vp_details attrs;
               AllOfferDetailsSerializer.vp_validated_details := validated |}
  end.
Proof.
  unfold OfferSerializer.validate, AllOfferDetailsSerializer.validate.
  induction (default [] (od_details data)) as [|d ds IH]; [done|].
  simpl. destruct (validate_details ds) as [es vs].
  unfold OfferDetailSerializer.is_valid, OfferDetailSerializer.errors.
  destruct (OfferDetailSerializer.run_validation d) as [e|v]; simpl.
  - destruct es as [|e' es].
    + destruct (flat_map _ ds) as [|? ?] eqn:E; [done | discriminate].
    + destruct (flat_map _ ds) as [|? ?] eqn:E; [discriminate|].
      by injection IH as -> ->.
  - destruct es as [|e' es].
    + destruct (flat_map _ ds) as [|? ?] eqn:E; [|discriminate].
      by injection IH as <-.
    + destruct (flat_map _ ds) as [|? ?] eqn:E; [discriminate|].
      exact IH.
Qed.

End Aggregates.

(** ** Outcomes of the views *)

Section Outcomes.
Import Auth Permissions Models Fields.

#[local] Arguments OfferListAPIView.is_business_user : simpl never.

Lemma field_errors_cons data :
  OfferSerializer.field_errors data ≠ [] →
  OfferSerializer.to_internal_value data
  = inl (OfferSerializer.field_errors data).
Proof.
  unfold OfferSerializer.to_internal_value, OfferSerializer.field_errors.
  destruct (required _ (od_title data)), (required _ (od_description data));
    simpl; intros H; try reflexivity. by destruct H.
Qed.

Lemma post_anonymous now data db :
  OfferListAPIView.post now AnonymousUser data db = (db, inl NotAuthenticated).
Proof. reflexivity. Qed.

Lemma post_field_errors now u data db :
  OfferSerializer.field_errors data ≠ [] →
  OfferListAPIView.post now (Authenticated u) data db
  = (db, inl (ValidationError
                (FieldErrors (OfferSerializer.field_errors data) []))).
Proof.
  intros H. unfold OfferListAPIView.post, check_permissions.
  rewrite bind_eval, require_eval. simpl. rewrite bind_eval.
  unfold lift, OfferSerializer.run_validation.
  by rewrite (field_errors_cons data H).
Qed.

(** X3. The create view makes its checks in this order: authentication,
    the offer's own fields, the details, and last the business profile.
    So an anonymous caller is not authenticated whatever the body; a body
    without a valid title or description fails on these fields alone,
    its details unread; a caller without a business profile whose body
    is valid is refused with [BusinessProfileRequired]; and a request
    that fails leaves the store as it was. *)
Theorem create_checks_in_order (now : Z) (data : OfferData) (db : DB) :
  OfferListAPIView.post now AnonymousUser data db
  = (db, inl NotAuthenticated)
  ∧ (∀ u, OfferSerializer.field_errors data ≠ [] →
          OfferListAPIView.post now (Authenticated u) data db
          = (db, inl (ValidationError
                        (FieldErrors (OfferSerializer.field_errors data) []))))
  ∧ (∀ u, OfferSerializer.field_errors data = [] →
          invalid_details data = [] →
          OfferListAPIView.is_business_user (Authenticated u) = false →
          OfferListAPIView.post now (Authenticated u) data db
          = (db, inl BusinessProfileRequired))
  ∧ (∀ user db' e,
       OfferListAPIView.post now user data db = (db', inl e) → db' = db).
Proof.
  split; [reflexivity|]. split; [intros u; apply post_field_errors|].
  assert (Hbiz : ∀ u, OfferSerializer.field_errors data = [] →
          invalid_details data = [] →
          OfferListAPIView.is_business_user (Authenticated u) = false →
          OfferListAPIView.post now (Authenticated u) data db
          = (db, inl BusinessProfileRequired)).
  { intros u Hf Hi Hb.
    destruct (field_errors_nil data Hf) as (t & d & Ht).
    rewrite (post_after_field_pass now u data db t d Ht), Hi, Hb.
    reflexivity. }
  split; [exact Hbiz|].
  intros [|u] db' e.
  - rewrite post_anonymous. by intros [= <- _].
  - destruct (OfferSerializer.field_errors data) as [|x xs] eqn:Hf.
    + destruct (field_errors_nil data Hf) as (t & d & Ht).
      rewrite (post_after_field_pass now u data db t d Ht).
      destruct (invalid_details data); [|by intros [= <- _]].
      destruct (OfferListAPIView.is_business_user (Authenticated u));
        [discriminate | by intros [= <- _]].
    + rewrite post_field_errors; [|by rewrite Hf]. by intros [= <- _].
Qed.

(** In the sample store the customer [carol] sends a valid body and is
    refused for want of a business profile. *)
Lemma create_checks_in_order_witness :
  OfferListAPIView.post 100 (Authenticated Sample.carol)
    Sample.create_request Sample.db
  = (Sample.db, inl BusinessProfileRequired).
Proof.
  apply (create_checks_in_order 100 Sample.create_request Sample.db);
    reflexivity.
Defined.

(** Every case of the deletion of an existing offer by a user. *)
Lemma delete_cases u pk o db :
  offer_at pk db = Some o →
  OfferDetailsAPIView.delete (Authenticated u) pk db
  = if Auth.id u =? user o then (after_delete pk db, inr tt)
    else if is_staff u then
      match profile u with
      | Some _ => (after_delete pk db, inr tt)
      | None => (db, inl (UncaughtException "RelatedObjectDoesNotExist"))
      end
    else (db, inl PermissionDenied).
Proof.
  intros Hfind. pose proof Hfind as [_ Hid]%find_offer_In.
  unfold offer_at in Hfind.
  unfold OfferDetailsAPIView.delete, check_permissions.
  rewrite bind_eval, require_eval. simpl. rewrite bind_eval.
  unfold ORM.get_offer_or_404 at 1. rewrite Hfind. rewrite bind_eval.
  unfold lift, OfferDetailsAPIView.has_permission_to_delete. simpl.
  destruct (Auth.id u =? user o).
  - rewrite bind_eval, require_eval. unfold ORM.delete_offer, after_delete.
    by rewrite Hid.
  - destruct (is_staff u).
    + destruct (profile u); [|reflexivity].
      rewrite orb_true_r, bind_eval, require_eval.
      unfold ORM.delete_offer, after_delete. by rewrite Hid.
    + rewrite bind_eval, require_eval. reflexivity.
Qed.

(** X4. The deletion view: the anonymous caller is not authenticated; an
    unknown key is not found; on an existing offer the owner, and a staff
    user that has a profile, delete the offer row and with it exactly the
    detail rows of that offer, every other row staying in place; a staff
    user without profile raises an uncaught exception; any other user is
    denied; and a request that fails leaves the store as it was. *)
Theorem delete_outcomes (pk : Z) (db : DB) :
  OfferDetailsAPIView.delete AnonymousUser pk db = (db, inl NotAuthenticated)
  ∧ (∀ u, offer_at pk db = None →
          OfferDetailsAPIView.delete (Authenticated u) pk db
          = (db, inl Http404))
  ∧ (∀ u o, offer_at pk db = Some o →
            owns u o ∨ (is_staff u = true ∧ is_Some (profile u)) →
            OfferDetailsAPIView.delete (Authenticated u) pk db
            = (after_delete pk db, inr tt))
  ∧ (∀ u o, offer_at pk db = Some o →
            ¬ owns u o → is_staff u = true → profile u = None →
            OfferDetailsAPIView.delete (Authenticated u) pk db
            = (db, inl (UncaughtException "RelatedObjectDoesNotExist")))
  ∧ (∀ u o, offer_at pk db = Some o →
            ¬ owns u o → is_staff u = false →
            OfferDetailsAPIView.delete (Authenticated u) pk db
            = (db, inl PermissionDenied))
  ∧ (∀ user db' e,
       OfferDetailsAPIView.delete user pk db = (db', inl e) → db' = db).
Proof.
  split; [reflexivity|].
  assert (Hnone : ∀ u, offer_at pk db = None →
          OfferDetailsAPIView.delete (Authenticated u) pk db
          = (db, inl Http404)).
  { intros u Hfind. unfold offer_at in Hfind.
    unfold OfferDetailsAPIView.delete, check_permissions.
    rewrite bind_eval, require_eval. simpl. rewrite bind_eval.
    unfold ORM.get_offer_or_404 at 1. by rewrite Hfind. }
  split; [exact Hnone|]. split; [|split; [|split]].
  - intros u o Hfind Hwho. rewrite (delete_cases u pk o db Hfind).
    unfold owns in Hwho. destruct (Z.eqb_spec (Auth.id u) (user o)); [done|].
    destruct Hwho as [?|[-> [p ->]]]; done.
  - intros u o Hfind Hown Hs Hp. rewrite (delete_cases u pk o db Hfind).
    unfold owns in Hown. destruct (Z.eqb_spec (Auth.id u) (user o)); [done|].
    by rewrite Hs, Hp.
  - intros u o Hfind Hown Hs. rewrite (delete_cases u pk o db Hfind).
    unfold owns in Hown. destruct (Z.eqb_spec (Auth.id u) (user o)); [done|].
    by rewrite Hs.
  - intros [|u] db' e; [by intros [= <- _]|].
    pose proof (Hnone u) as Hn.
    destruct (offer_at pk db) as [o|] eqn:Hfind.
    + rewrite (delete_cases u pk o db Hfind).
      destruct (Auth.id u =? user o); [discriminate|].
      destruct (is_staff u); [|by intros [= <- _]].
      destruct (profile u); [discriminate | by intros [= <- _]].
    + rewrite (Hn eq_refl). by intros [= <- _].
Qed.

(** In the sample store the owner [alice] deletes offer 1: its two
    details go with it and the detail of offer 2 stays. *)
Lemma delete_outcomes_witness :
  OfferDetailsAPIView.delete (Authenticated Sample.alice) 1 Sample.db
  = (after_delete 1 Sample.db, inr tt)
  ∧ offers_offerdetail (after_delete 1 Sample.db)
    = [Sample.detail 3 2 10 (Qmake 30 1) "basic"].
Proof.
  split; [|reflexivity].
  apply (delete_outcomes 1 Sample.db) with (o := Sample.logo);
    [reflexivity | left; reflexivity].
Defined.

End Outcomes.

Section ReadOutcomes.
Import Auth Permissions Models.

Lemma owner_profile_store o db : (ORM.owner_profile o db).1 = db.
Proof.
  unfold ORM.owner_profile.
  destruct (List.find _ _) as [u|]; [|done]. by destruct (profile u).
Qed.

Lemma to_representation_cases o db :
  OfferSerializer.to_representation o db
  = match (ORM.owner_profile o db).2 with
    | inl e => (db, inl e)
    | inr p => (db, inr (representation_of db o p))
    end.
Proof.
  pose proof (owner_profile_store o db) as Hs.
  unfold OfferSerializer.to_representation. rewrite bind_eval.
  unfold get_db at 1. rewrite bind_eval.
  unfold OfferSerializer.get_user_details. rewrite bind_eval.
  destruct (ORM.owner_profile o db) as [db' [e|p]]; simpl in *; by subst.
Qed.

Lemma mapM_to_representation_store l db :
  (mapM OfferSerializer.to_representation l db).1 = db.
Proof.
  induction l as [|o l IH]; [done|].
  simpl. rewrite bind_eval, to_representation_cases.
  destruct (ORM.owner_profile o db).2; [done|].
  rewrite bind_eval.
  destruct (mapM OfferSerializer.to_representation l db) as [db' [e|ds]];
    simpl in *; by subst.
Qed.

Lemma offer_get_cases u pk db :
  OfferDetailsAPIView.get (Authenticated u) pk db
  = match offer_at pk db with
    | None => (db, inl Http404)
    | Some o =>
        match (ORM.owner_profile o db).2 with
        | inl e => (db, inl e)
        | inr p => (db, inr (read_view db o p))
        end
    end.
Proof.
  unfold OfferDetailsAPIView.get, check_permissions, offer_at.
  rewrite bind_eval, require_eval. simpl. rewrite bind_eval.
  unfold ORM.get_offer_or_404 at 1.
  destruct (List.find _ _) as [o|]; [|done].
  rewrite bind_eval, to_representation_cases.
  by destruct (ORM.owner_profile o db).2.
Qed.

(** X5. The read views.  For an authenticated caller the read of one
    offer answers an unknown key with [Http404]; it raises when the owner
    of the offer has no profile, although the owner's details are then
    left out of the response; otherwise it returns the offer with the
    keys of its details and its two minimums.  The read of one detail
    returns the row with the key or [Http404].  No read view changes the
    store, whatever the caller and the outcome. *)
Theorem read_outcomes (db : DB) :
  (∀ u pk, offer_at pk db = None →
           OfferDetailsAPIView.get (Authenticated u) pk db
           = (db, inl Http404))
  ∧ (∀ u pk o e, offer_at pk db = Some o →
                 ORM.owner_profile o db = (db, inl e) →
                 OfferDetailsAPIView.get (Authenticated u) pk db
                 = (db, inl e))
  ∧ (∀ u pk o p, offer_at pk db = Some o →
                 ORM.owner_profile o db = (db, inr p) →
                 OfferDetailsAPIView.get (Authenticated u) pk db
                 = (db, inr (read_view db o p)))
  ∧ (∀ u pk, OfferDetailAPIView.get (Authenticated u) pk db
             = match detail_at pk db with
               | Some d => (db, inr d)
               | None => (db, inl Http404)
               end)
  ∧ (∀ user params pk,
       (OfferListAPIView.get user params db).1 = db
       ∧ (OfferDetailsAPIView.get user pk db).1 = db
       ∧ (OfferDetailAPIView.get user pk db).1 = db).
Proof.
  split; [|split; [|split; [|split]]].
  - intros u pk H. by rewrite offer_get_cases, H.
  - intros u pk o e H He. by rewrite offer_get_cases, H, He.
  - intros u pk o p H Hp. by rewrite offer_get_cases, H, Hp.
  - intros u pk. unfold OfferDetailAPIView.get, check_permissions, detail_at.
    rewrite bind_eval, require_eval. simpl.
    unfold ORM.get_offerdetail_or_404. by destruct (List.find _ _).
  - intros user params pk. split; [|split].
    + rewrite list_get_eval, filter_queryset_eval.
      assert (Hpage : ∀ queryset,
        (match OfferPagination.paginate_queryset
                 (OfferListAPIView.page params)
                 (OfferListAPIView.page_size params) queryset with
         | inl e => (db, inl e)
         | inr p =>
             match mapM OfferSerializer.to_representation
                        (map a_offer (OfferPagination.object_list p)) db with
             | (db2, inl e) => (db2, inl e)
             | (db2, inr data) =>
                 (db2, inr (OfferListAPIView.get_paginated_response p data))
             end
         end).1 = db).
      { intros queryset.
        destruct (OfferPagination.paginate_queryset _ _ _) as [e|p]; [done|].
        pose proof (mapM_to_representation_store
                      (map a_offer (OfferPagination.object_list p)) db) as Hs.
        by destruct (mapM OfferSerializer.to_representation _ db)
          as [db2 [e|data]]. }
      destruct (OfferListAPIView.filterset_user params) as [k|];
        [destruct (existsb _ _); [|done]|]; apply Hpage.
    + destruct user as [|u]; [done|]. rewrite offer_get_cases.
      destruct (offer_at pk db) as [o|]; [|done].
      by destruct (ORM.owner_profile o db).2.
    + destruct user as [|u]; [done|].
      unfold OfferDetailAPIView.get, check_permissions.
      rewrite bind_eval, require_eval. simpl.
      unfold ORM.get_offerdetail_or_404. by destruct (List.find _ _).
Qed.

(** In the sample store the offer 7 is unknown and the offer 1 is read
    with the keys 1 and 2 of its details. *)
Lemma read_outcomes_witness :
  OfferDetailsAPIView.get (Authenticated Sample.carol) 7 Sample.db
  = (Sample.db, inl Http404)
  ∧ OfferDetailsAPIView.get (Authenticated Sample.carol) 1 Sample.db
    = (Sample.db,
       inr (read_view Sample.db Sample.logo (Sample.a_profile "business"))).
Proof.
  split.
  - by apply (read_outcomes Sample.db).
  - by apply (read_outcomes Sample.db).
Defined.

End ReadOutcomes.

(** ** The update view, case by case *)

Section UpdateOutcomes.
Import Auth Permissions Models Fields.
Import AllOfferDetailsSerializer.

(** Every case of an update request. *)
Lemma update_cases now method caller pk data db :
  ∃ response : Offer → ValidatedPatch → OfferDetailsAPIView.Updated,
  OfferDetailsAPIView.update now method caller pk data db
  = if forallb (fun p => has_permission p caller)
               (OfferDetailsAPIView.get_permissions method)
    then
      match offer_at pk db with
      | None => (db, inl Http404)
      | Some o =>
          if forallb (fun p => has_object_permission p caller o)
                     (OfferDetailsAPIView.get_permissions method)
          then
            match AllOfferDetailsSerializer.run_validation data with
            | inl e => (db, inl e)
            | inr v =>
                match od_details data with
                | None => (db, inl (UncaughtException "TypeError"))
                | Some details_data =>
                    match OfferDetailsAPIView.update_loop pk details_data db
                    with
                    | (db1, inl e) => (db1, inl e)
                    | (db1, inr _) =>
                        ((ORM.save_offer now (set_attrs v o) db1).1,
                         inr (response o v))
                    end
                end
            end
          else (db, inl (permission_denied caller))
      end
    else (db, inl (permission_denied caller)).
Proof.
  eexists (fun o v =>
    {| OfferDetailsAPIView.u_id := id o;
       OfferDetailsAPIView.u_title :=
         default (title (set_attrs v o)) (vp_title v);
       OfferDetailsAPIView.u_description :=
         default (description (set_attrs v o)) (vp_description v);
       OfferDetailsAPIView.u_details := ORM.details_of pk db;
       OfferDetailsAPIView.u_image := image (set_attrs v o) |}).
  unfold OfferDetailsAPIView.update, check_permissions, offer_at.
  rewrite bind_eval, require_eval.
  destruct (forallb (fun p => has_permission p caller) _) eqn:Hperm;
    [|reflexivity].
  rewrite bind_eval. unfold OfferDetailsAPIView.get_object.
  rewrite bind_eval. unfold ORM.get_offer_or_404 at 1.
  destruct (List.find _ (offers_offer db)) as [o|] eqn:Hfind; [|reflexivity].
  destruct (find_offer_In _ _ _ Hfind) as [_ Hid].
  unfold check_object_permissions. rewrite bind_eval, require_eval.
  destruct (forallb (fun p => has_object_permission p caller o) _) eqn:Hobj;
    [|reflexivity].
  rewrite bind_eval. unfold get_db at 1. rewrite ret_eval.
  rewrite bind_eval. unfold lift at 1.
  destruct (AllOfferDetailsSerializer.run_validation data) as [e|v] eqn:Hvalid;
    [reflexivity|].
  destruct (run_validation_fields data v Hvalid) as (_ & _ & _ & Hvd).
  rewrite bind_eval.
  destruct (od_details data) as [details_data|] eqn:Hdetails; [|reflexivity].
  simpl in Hvd. rewrite ret_eval.
  cbn [obj]. rewrite Hid. rewrite bind_eval.
  destruct (OfferDetailsAPIView.update_loop pk details_data db)
    as [db1 [e|[]]]; [reflexivity|].
  rewrite bind_eval.
  rewrite (serializer_update_nested _ _ _ details_data _ Hvd).
  rewrite ret_eval. simpl. by rewrite ?Hid.
Qed.

(** The tables after an update request, whatever its outcome: the keys
    of both tables and the counters stay, and every detail row still
    points to an offer row. *)
Lemma update_store now method caller pk data db :
  let db' := (OfferDetailsAPIView.update now method caller pk data db).1 in
  next_offer_id db' = next_offer_id db
  ∧ next_detail_id db' = next_detail_id db
  ∧ map id (offers_offer db') = map id (offers_offer db)
  ∧ map detail_id (offers_offerdetail db')
    = map detail_id (offers_offerdetail db)
  ∧ (Forall (fun d => offer d ∈ map id (offers_offer db))
            (offers_offerdetail db) →
     Forall (fun d => offer d ∈ map id (offers_offer db))
            (offers_offerdetail db')).
Proof.
  destruct (update_cases now method caller pk data db) as [response ->].
  destruct (forallb _ _); [|done].
  destruct (offer_at pk db) as [o|] eqn:Hfind; [|done].
  destruct (forallb _ _); [|done].
  destruct (AllOfferDetailsSerializer.run_validation data) as [e|v]; [done|].
  destruct (od_details data) as [details_data|]; [|done].
  destruct (update_loop_keys pk details_data db) as (rows & Hr & Hi & Hfk).
  destruct (OfferDetailsAPIView.update_loop pk details_data db)
    as [db1 [e|[]]]; simpl in Hr; subst db1; simpl.
  - done.
  - repeat split; try done.
    rewrite map_map. apply map_ext. intros r.
    destruct (Z.eqb_spec (id r) (id o)) as [E|E]; [by rewrite E | done].
Qed.

Lemma authorized_PATCH u o :
  authorized PATCH (Authenticated u) o ↔ owns u o ∨ is_staff u = true.
Proof.
  unfold authorized, owns. simpl. rewrite andb_true_r, orb_true_iff.
  rewrite Z.eqb_eq. tauto.
Qed.

(** X6. Who may update.  A PATCH is admitted for the owner of the offer
    and for staff, and no one else: any other user is denied and the
    anonymous caller is not authenticated, but on an unknown key the
    anonymous caller learns [Http404], as the offer is looked up before
    the owner is checked.  A PUT runs the same update and is admitted
    for every authenticated user, owner or not: with a valid patch that
    carries a [details] list whose entries pass the loop it succeeds.
    An update that fails leaves the store as it was, unless it failed in
    the loop over the entries: then the store is as the loop left it,
    with the statements of the earlier entries carried out and the offer
    row untouched.  The loop does not fail on entries that pass it by
    their keys. *)
Theorem update_admission (now pk : Z) (data : OfferData) (db : DB) :
  (∀ o, offer_at pk db = Some o →
        OfferDetailsAPIView.update now PATCH AnonymousUser pk data db
        = (db, inl NotAuthenticated))
  ∧ (offer_at pk db = None →
     OfferDetailsAPIView.update now PATCH AnonymousUser pk data db
     = (db, inl Http404))
  ∧ OfferDetailsAPIView.update now PUT AnonymousUser pk data db
    = (db, inl NotAuthenticated)
  ∧ (∀ u o, offer_at pk db = Some o → ¬ owns u o → is_staff u = false →
            OfferDetailsAPIView.update now PATCH (Authenticated u) pk data db
            = (db, inl PermissionDenied))
  ∧ (∀ u o, authorized PATCH (Authenticated u) o
            ↔ owns u o ∨ is_staff u = true)
  ∧ (∀ u o v details_data,
       offer_at pk db = Some o →
       od_details data = Some details_data →
       Forall (loop_safe db pk) details_data →
       AllOfferDetailsSerializer.run_validation data = inr v →
       ∃ response,
         OfferDetailsAPIView.update now PUT (Authenticated u) pk data db
         = (after_update now pk o v details_data db, inr response))
  ∧ (∀ method caller db' e,
       OfferDetailsAPIView.update now method caller pk data db
       = (db', inl e) →
       db' = db
       ∨ (∃ details_data,
            od_details data = Some details_data
            ∧ OfferDetailsAPIView.update_loop pk details_data db
              = (db', inl e)
            ∧ offers_offer db' = offers_offer db
            ∧ ¬ Forall (loop_safe db pk) details_data)).
Proof.
  split; [|split; [|split; [|split; [|split; [|split]]]]].
  - intros o Hfind.
    destruct (update_cases now PATCH AnonymousUser pk data db) as [r ->].
    by rewrite Hfind.
  - intros Hfind.
    destruct (update_cases now PATCH AnonymousUser pk data db) as [r ->].
    by rewrite Hfind.
  - by destruct (update_cases now PUT AnonymousUser pk data db) as [r ->].
  - intros u o Hfind Hown Hs.
    destruct (update_cases now PATCH (Authenticated u) pk data db) as [r ->].
    rewrite Hfind. simpl. rewrite Hs, orb_false_r, andb_true_r.
    unfold owns in Hown. by destruct (Z.eqb_spec (Auth.id u) (user o)).
  - apply authorized_PATCH.
  - intros u o v details_data Hfind Hdetails Hsafe Hvalid.
    destruct (update_cases now PUT (Authenticated u) pk data db) as [r ->].
    rewrite Hfind, Hvalid, Hdetails. simpl.
    rewrite update_loop_rows by done. unfold after_update. eauto.
  - intros method caller db' e.
    destruct (update_cases now method caller pk data db) as [r ->].
    destruct (forallb _ _); [|intros [= <- _]; by left].
    destruct (offer_at pk db) as [o|]; [|intros [= <- _]; by left].
    destruct (forallb _ _); [|intros [= <- _]; by left].
    destruct (AllOfferDetailsSerializer.run_validation data);
      [intros [= <- _]; by left|].
    destruct (od_details data) as [details_data|];
      [|intros [= <- _]; by left].
    destruct (update_loop_keys pk details_data db) as (rows & Hr & _).
    destruct (OfferDetailsAPIView.update_loop pk details_data db)
      as [db1 [e1|[]]] eqn:Hloop; [|discriminate].
    intros [= <- <-]. right. exists details_data.
    split; [done|]. split; [done|]. split.
    + simpl in Hr. by rewrite Hr.
    + intros Hsafe. by rewrite update_loop_rows in Hloop.
Qed.

(** In the sample store the customer [carol], who does not own offer 1,
    is denied its PATCH and renames it by a PUT; a patch of the owner
    whose second entry carries a key that is no column fails after the
    price of the first entry is written. *)
Lemma update_admission_witness :
  OfferDetailsAPIView.update 100 PATCH (Authenticated Sample.carol) 1
    rename_patch Sample.db = (Sample.db, inl PermissionDenied)
  ∧ (∃ db' response,
       OfferDetailsAPIView.update 100 PUT (Authenticated Sample.carol) 1
         rename_patch Sample.db = (db', inr response)
       ∧ map title (offers_offer db') = ["Taken"; "Site"])
  ∧ ∃ db',
      OfferDetailsAPIView.update 100 PATCH (Authenticated Sample.alice) 1
        torn_patch Sample.db
      = (db', inl (UncaughtException "FieldDoesNotExist"))
      ∧ map price (offers_offerdetail db')
        = [Qmake 15 1; Qmake 80 1; Qmake 30 1]
      ∧ offers_offer db' = offers_offer Sample.db.
Proof.
  destruct (update_admission 100 1 rename_patch Sample.db)
    as (_ & _ & _ & Hdenied & _ & Hput & _).
  destruct (update_admission 100 1 torn_patch Sample.db)
    as (_ & _ & _ & _ & _ & _ & Hfail).
  split; [|split].
  - apply (Hdenied Sample.carol Sample.logo); [reflexivity | | reflexivity].
    unfold owns. simpl. lia.
  - destruct (Hput Sample.carol Sample.logo _ [] eq_refl eq_refl
                (List.Forall_nil _) eq_refl) as [response Hr].
    eexists _, response. split; [exact Hr | reflexivity].
  - eexists. split; [reflexivity|].
    destruct (Hfail PATCH (Authenticated Sample.alice) _ _ eq_refl)
      as [Hsame|(l & _ & _ & Hoffers & _)].
    + exfalso. apply (f_equal (fun d => map price (offers_offerdetail d)))
        in Hsame. discriminate Hsame.
    + split; [reflexivity | exact Hoffers].
Defined.

End UpdateOutcomes.

(** ** What an update writes *)

Section UpdateWrites.
Import Auth Permissions Models Fields.
Import AllOfferDetailsSerializer.

Lemma touch_keys pk r e :
  dd_offer e = None →
  detail_id (touch pk r e) = detail_id r ∧ offer (touch pk r e) = offer r.
Proof.
  intros Hoff. unfold touch. destruct (dd_id e) as [k|] eqn:Hk; [|done].
  destruct (k =? 0); [done|].
  destruct (Z.eqb_spec (detail_id r) k) as [E|E]; [|done].
  destruct (offer r =? pk); [|done].
  unfold ORM.apply_data. simpl. by rewrite Hk, Hoff.
Qed.

Lemma fold_touch_keys pk details_data r :
  Forall plain details_data →
  detail_id (fold_left (touch pk) details_data r) = detail_id r
  ∧ offer (fold_left (touch pk) details_data r) = offer r.
Proof.
  intros Hplain. revert r.
  induction Hplain as [|e rest [He _] _ IH]; intros r; [done|].
  simpl. destruct (IH (touch pk r e)) as [-> ->]. by apply touch_keys.
Qed.

(** The loop of the view, read row by row: each row meets the entries in
    their order. *)
Lemma loop_rows_rowwise pk details_data rows :
  loop_rows pk details_data rows
  = map (fun r => fold_left (touch pk) details_data r) rows.
Proof.
  revert rows. induction details_data as [|e rest IH]; intros rows; simpl.
  - by rewrite map_id.
  - unfold touch at 2.
    destruct (dd_id e) as [k|]; [|apply IH].
    destruct (k =? 0); [apply IH|].
    rewrite IH, map_map. reflexivity.
Qed.

Lemma touch_other pk r e : ¬ names pk e r → touch pk r e = r.
Proof.
  intros Hn. unfold touch. destruct (dd_id e) as [k|] eqn:Hk; [|done].
  destruct (Z.eqb_spec k 0) as [Hz|Hz]; [done|].
  destruct (Z.eqb_spec (detail_id r) k) as [E|E]; [|done].
  destruct (Z.eqb_spec (offer r) pk) as [E'|E']; [|done].
  exfalso. apply Hn. unfold names. rewrite Hk, E. repeat split; congruence.
Qed.

Lemma fold_touch_other pk details_data r :
  offer r ≠ pk → fold_left (touch pk) details_data r = r.
Proof.
  intros Hr. induction details_data as [|e rest IH]; [done|].
  simpl. rewrite touch_other; [done|]. by intros (_ & _ & ?).
Qed.

Lemma touch_named pk r e :
  names pk e r → touch pk r e = ORM.apply_data e r.
Proof.
  intros (Hk & Hz & Ho). unfold touch. rewrite Hk.
  destruct (Z.eqb_spec (detail_id r) 0); [done|].
  by rewrite Z.eqb_refl, Ho, Z.eqb_refl.
Qed.

(** X7. What a successful update writes to the detail table, for a
    patch whose entries carry only the keys of the serializer.  Each row
    meets the entries of the patch in their order: an entry that names
    the row sets on it the columns whose keys it carries, each with the
    value as the client gave it, neither trimmed nor rounded, and leaves
    the other columns; an entry that does not name the row leaves it.
    So the last entry that names a row decides a column that several
    carry.  The rows keep their keys and their offers, the rows of other
    offers are untouched, and the offer table keeps its keys. *)
Theorem update_writes_row_by_row (now : Z) (method : Method)
    (caller : RequestUser) (pk : Z) (data : OfferData)
    (details_data : list DetailData) (o : Offer) (v : ValidatedPatch)
    (db : DB)
    (Hfind : offer_at pk db = Some o)
    (Hauth : authorized method caller o)
    (Hdetails : od_details data = Some details_data)
    (Hplain : Forall plain details_data)
    (Hvalid : AllOfferDetailsSerializer.run_validation data = inr v) :
  ∃ db' response,
    OfferDetailsAPIView.update now method caller pk data db
    = (db', inr response)
    ∧ offers_offerdetail db'
      = map (fun r => fold_left (touch pk) details_data r)
            (offers_offerdetail db)
    ∧ map detail_id (offers_offerdetail db')
      = map detail_id (offers_offerdetail db)
    ∧ map offer (offers_offerdetail db') = map offer (offers_offerdetail db)
    ∧ map id (offers_offer db') = map id (offers_offer db)
    ∧ (∀ r, offer r ≠ pk → fold_left (touch pk) details_data r = r)
    ∧ (∀ r e earlier,
         details_data = earlier ++ [e] →
         fold_left (touch pk) details_data r
         = touch pk (fold_left (touch pk) earlier r) e)
    ∧ (∀ r e, ¬ names pk e r → touch pk r e = r)
    ∧ (∀ r e, names pk e r → plain e →
         touch pk r e
         = {| detail_id := detail_id r;
              detail_title := default (detail_title r) (dd_title e);
              price := default (price r) (dd_price e);
              delivery_time_in_days :=
                default (delivery_time_in_days r)
                        (dd_delivery_time_in_days e);
              offer := offer r;
              features := default (features r) (dd_features e);
              offer_type := default (offer_type r) (dd_offer_type e);
              revisions := default (revisions r) (dd_revisions e) |}).
Proof.
  assert (Hsafe : Forall (loop_safe db pk) details_data).
  { eapply Forall_impl; [exact Hplain|]. intros e. apply plain_loop_safe. }
  destruct (update_cases now method caller pk data db) as [response Hu].
  destruct Hauth as [Hperm Hobj].
  rewrite Hperm, Hfind, Hobj, Hvalid, Hdetails in Hu.
  rewrite update_loop_rows in Hu by done.
  eexists _, _. split; [exact Hu|]. simpl.
  rewrite loop_rows_rowwise.
  split; [reflexivity|]. split; [|split; [|split; [|split; [|split; [|split]]]]].
  - rewrite map_map. apply map_ext. intros r. by apply fold_touch_keys.
  - rewrite map_map. apply map_ext. intros r. by apply fold_touch_keys.
  - rewrite map_map. apply map_ext. intros r.
    destruct (Z.eqb_spec (id r) (id o)) as [E|E]; [by rewrite E | done].
  - intros r. apply fold_touch_other.
  - intros r e earlier ->. by rewrite fold_left_app.
  - intros r e. apply touch_other.
  - intros r e Hn [Hoff _]. rewrite (touch_named pk r e Hn).
    destruct Hn as (Hk & _ & _). unfold ORM.apply_data.
    by rewrite Hk, Hoff.
Qed.

(** In the sample store the owner patches the price of the three-day
    detail of offer 1 twice in one request: the second price stands,
    unrounded. *)
Lemma update_writes_row_by_row_witness :
  ∃ db' response,
    OfferDetailsAPIView.update 100 PATCH (Authenticated Sample.alice) 1
      twice_patch Sample.db = (db', inr response)
    ∧ map price (offers_offerdetail db')
      = [Qmake 20555 1000; Qmake 80 1; Qmake 30 1].
Proof.
  assert (Hplain : Forall plain [priced_entry (Qmake 15 1);
                                 priced_entry (Qmake 20555 1000)]).
  { repeat constructor. }
  destruct (update_writes_row_by_row 100 PATCH (Authenticated Sample.alice)
              1 twice_patch _ Sample.logo _ Sample.db
              eq_refl (conj eq_refl eq_refl) eq_refl Hplain eq_refl)
    as (db' & response & Hu & Hrows & _).
  exists db', response. split; [exact Hu|]. rewrite Hrows. reflexivity.
Defined.

End UpdateWrites.

(** ** The nested update of the serializer *)

Section NestedUpdate.
Import Models AllOfferDetailsSerializer.

Lemma sample_integrity : integrity Sample.db.
Proof.
  unfold integrity. simpl. repeat split; try lia.
  - repeat constructor; rewrite ?elem_of_cons, ?elem_of_nil; lia.
  - repeat constructor; simpl; lia.
  - repeat constructor; rewrite ?elem_of_cons, ?elem_of_nil; lia.
  - repeat constructor; simpl; lia.
  - repeat constructor; simpl; rewrite ?elem_of_cons; auto.
Defined.

Lemma bind_ret_store {A B} (m : View A) (g : A → B) db :
  ((a ← m; mret (g a)) db).1 = (m db).1.
Proof. rewrite bind_eval. by destruct (m db) as [? [?|?]]. Qed.

Lemma NoDup_map_eq {A} (f : A → Z) l x y :
  NoDup (map f l) → In x l → In y l → f x = f y → x = y.
Proof.
  induction l as [|a l IH]; [done|]. simpl.
  intros Hnd [->|Hx] [->|Hy] E; inversion Hnd as [|? ? Hnot Hnd']; subst.
  - done.
  - exfalso. apply Hnot. rewrite E. by apply list_elem_of_In, in_map.
  - exfalso. apply Hnot. rewrite <- E. by apply list_elem_of_In, in_map.
  - by apply IH.
Qed.

Lemma existing_details_lookup_Some l (m : gmap Z OfferDetail) k d :
  fold_left (fun m d => <[detail_id d := d]> m) l m !! k = Some d →
  m !! k = Some d ∨ (In d l ∧ detail_id d = k).
Proof.
  revert m. induction l as [|x l IH]; intros m; simpl; [auto|].
  intros H. apply IH in H as [H|[? ?]]; [|by auto].
  apply lookup_insert_Some in H as [[<- <-]|[_ H]]; auto.
Qed.

Lemma existing_details_lookup_is_Some l (m : gmap Z OfferDetail) d :
  In d l →
  is_Some (fold_left (fun m d => <[detail_id d := d]> m) l m !! detail_id d).
Proof.
  intros Hd. destruct (fold_left _ l m !! detail_id d) eqn:E; [eauto|].
  apply existing_details_lookup_None in E as [_ E].
  exfalso. apply E. by apply list_elem_of_In, in_map.
Qed.

Lemma update_detail_instance_eval inst e :
  dd_offer e = None →
  _update_detail_instance inst e
  = (ORM.save_detail (ORM.apply_data e inst);;
     mret (round_price (ORM.apply_data e inst))).
Proof. intros H. unfold _update_detail_instance. by rewrite H. Qed.

Lemma update_details_loop_effect details_data :
  Forall (fun e => dd_offer e = None) details_data →
  ∀ (existing : gmap Z OfferDetail) db,
    NoDup (map detail_id (offers_offerdetail db)) →
    (∀ k inst, existing !! k = Some inst →
               detail_id inst = k ∧ k ≠ 0 ∧ In inst (offers_offerdetail db)) →
    (_update_details_loop existing details_data db).1
    = ORM.set_offers_offerdetail
        (map (loop_effect existing details_data) (offers_offerdetail db)) db.
Proof.
  induction 1 as [|e rest Hoff _ IH]; intros existing db Hnd Hinv.
  - simpl. unfold loop_effect, first_entry. simpl.
    rewrite (map_ext _ (fun r => r)); [|intros r; by destruct (_ !! _)].
    by rewrite map_id, set_offers_offerdetail_same.
  - assert (Hskip : ∀ r,
              (∀ inst, existing !! detail_id r = Some inst →
                       dd_id e ≠ Some (detail_id r)) →
              loop_effect existing (e :: rest) r = loop_effect existing rest r).
    { intros r Hr. unfold loop_effect.
      destruct (existing !! detail_id r) as [inst|] eqn:El; [|done].
      unfold first_entry. simpl.
      rewrite bool_decide_eq_false_2; [done|]. by eapply Hr. }
    simpl. destruct (dd_id e) as [k|] eqn:Hk.
    + destruct (Z.eqb_spec k 0) as [Hz|Hz].
      * rewrite IH by done. f_equal. apply map_ext. intros r. symmetry.
        apply Hskip. intros inst Hi [= E].
        destruct (Hinv _ _ Hi) as (_ & ? & _). congruence.
      * destruct (existing !! k) as [inst|] eqn:Hex.
        -- destruct (Hinv _ _ Hex) as (Hid & _ & Hin).
           rewrite bind_eval, (update_detail_instance_eval _ _ Hoff).
           rewrite bind_eval. unfold ORM.save_detail at 1. rewrite ret_eval.
           set (X := round_price (ORM.apply_data e inst)).
           assert (HX : detail_id X = k).
           { unfold X, ORM.apply_data. simpl. by rewrite Hk. }
           set (db1 := ORM.write_detail X db).
           assert (Hids : map detail_id (offers_offerdetail db1)
                          = map detail_id (offers_offerdetail db)).
           { unfold db1, ORM.write_detail, ORM.set_offers_offerdetail.
             cbn [offers_offerdetail]. rewrite map_map.
             apply map_ext. intros r.
             destruct (Z.eqb_spec (detail_id r) (detail_id X));
               cbv iota; congruence. }
           change (ORM.write_detail X db) with db1.
           rewrite bind_ret_store, IH.
           ++ unfold db1, ORM.write_detail, ORM.set_offers_offerdetail.
              cbn [offers_offerdetail auth_user offers_offer next_offer_id
                   next_detail_id].
              f_equal. rewrite map_map. apply map_ext_in.
              intros r Hr. rewrite HX.
              destruct (Z.eqb_spec (detail_id r) k) as [E|E].
              ** assert (r = inst) as ->.
                 { eapply (NoDup_map_eq detail_id); eauto. congruence. }
                 unfold loop_effect at 1.
                 rewrite HX, lookup_delete_eq.
                 unfold loop_effect, first_entry. simpl.
                 rewrite Hid, Hex, Hk, bool_decide_eq_true_2; done.
              ** unfold loop_effect at 1. rewrite lookup_delete_ne by done.
                 symmetry. rewrite Hskip; [done|].
                 intros ? _ [= ?]. congruence.
           ++ by rewrite Hids.
           ++ intros k' inst' Hl.
              apply lookup_delete_Some in Hl as [Hne Hl].
              destruct (Hinv _ _ Hl) as (Hid' & Hz' & Hin').
              split; [done|]. split; [done|].
              unfold db1, ORM.write_detail, ORM.set_offers_offerdetail.
              cbn [offers_offerdetail]. apply in_map_iff.
              exists inst'. split; [|done].
              destruct (Z.eqb_spec (detail_id inst') (detail_id X));
                [congruence | done].
        -- rewrite IH by done. f_equal. apply map_ext. intros r. symmetry.
           apply Hskip. intros inst Hi [= E]. congruence.
    + rewrite IH by done. f_equal. apply map_ext. intros r. symmetry.
      apply Hskip. intros inst Hi. congruence.
Qed.

Lemma update_details_loop_ok details_data :
  Forall (fun e => dd_offer e = None) details_data →
  ∀ (existing : gmap Z OfferDetail) db,
    ∃ changed, (_update_details_loop existing details_data db).2 = inr changed.
Proof.
  induction 1 as [|e rest Hoff _ IH]; intros existing db; simpl.
  - by eexists.
  - destruct (dd_id e) as [k|]; [|apply IH].
    destruct (k =? 0); [apply IH|].
    destruct (existing !! k) as [inst|]; [|apply IH].
    rewrite bind_eval, (update_detail_instance_eval _ _ Hoff).
    rewrite bind_eval. unfold ORM.save_detail at 1. rewrite ret_eval.
    rewrite bind_eval.
    destruct (IH (delete k existing)
                 (ORM.write_detail
                    (round_price (ORM.apply_data e inst)) db))
      as [changed Hc].
    destruct (_update_details_loop _ rest _) as [db2 [err|ds]];
      simpl in Hc; [discriminate|]. by eexists.
Qed.

(** X8. [_update_details] on an offer whose cached details are its
    current rows, in a store with distinct positive detail keys, on
    entries without the key [offer]: the call succeeds; each detail of
    the offer takes from the first entry that carries its identity the
    columns whose keys the entry carries, each with the value as given
    but for the price, which is rounded to two decimals when the detail
    is saved, and keeps its other columns, its key and its offer; later
    entries with the same identity, entries with an identity of another
    offer's detail and entries without identity change nothing, and no
    row of another offer is touched. *)
Theorem nested_update_takes_first_entry (o : Offer) (pk : Z)
    (details_data : list DetailData) (db : DB) (Hstore : integrity db)
    (Hkeys : Forall (fun e => dd_offer e = None) details_data) :
  (∃ instance',
     _update_details {| obj := o; details_cache := ORM.details_of pk db |}
       details_data db
     = (ORM.set_offers_offerdetail
          (map (upsert pk details_data) (offers_offerdetail db)) db,
        inr instance')
     ∧ obj instance' = o)
  ∧ (∀ r e, offer r = pk →
            first_entry (detail_id r) details_data = Some e →
            upsert pk details_data r
            = {| detail_id := detail_id r;
                 detail_title := default (detail_title r) (dd_title e);
                 price := round2 (default (price r) (dd_price e));
                 delivery_time_in_days :=
                   default (delivery_time_in_days r)
                           (dd_delivery_time_in_days e);
                 offer := offer r;
                 features := default (features r) (dd_features e);
                 offer_type := default (offer_type r) (dd_offer_type e);
                 revisions := default (revisions r) (dd_revisions e) |})
  ∧ (∀ k e later, dd_id e = Some k →
                  first_entry k (e :: later) = Some e)
  ∧ (∀ k e later, dd_id e ≠ Some k →
                  first_entry k (e :: later) = first_entry k later)
  ∧ (∀ r, offer r ≠ pk → upsert pk details_data r = r)
  ∧ (∀ r, (∀ e, e ∈ details_data → dd_id e ≠ Some (detail_id r)) →
          upsert pk details_data r = r).
Proof.
  destruct Hstore as (_ & _ & _ & _ & Hnd & Hpos & _).
  split; [|split; [|split; [|split; [|split]]]].
  - set (existing := existing_details_of (ORM.details_of pk db)).
    assert (Hinv : ∀ k inst, existing !! k = Some inst →
              detail_id inst = k ∧ k ≠ 0 ∧ In inst (offers_offerdetail db)
              ∧ offer inst = pk).
    { intros k inst Hl. unfold existing, existing_details_of in Hl.
      apply existing_details_lookup_Some in Hl as [Hl|[Hin Hid]];
        [by rewrite lookup_empty in Hl|].
      unfold ORM.details_of in Hin. apply filter_In in Hin as [Hin Ho].
      rewrite Forall_forall in Hpos.
      pose proof (Hpos inst ltac:(by apply list_elem_of_In)).
      repeat split; [done | lia | done | lia]. }
    pose proof (update_details_loop_effect details_data Hkeys existing db
                  Hnd) as Hstore.
    destruct (update_details_loop_ok details_data Hkeys existing db)
      as [changed Hok].
    unfold _update_details. rewrite bind_eval. cbn [details_cache obj].
    fold existing.
    destruct (_update_details_loop existing details_data db)
      as [db2 [err|ds]] eqn:Eloop; simpl in Hok, Hstore; [discriminate|].
    rewrite Hstore by (intros k inst Hl; destruct (Hinv k inst Hl); tauto).
    assert (Hmap : map (loop_effect existing details_data)
                       (offers_offerdetail db)
                   = map (upsert pk details_data) (offers_offerdetail db)).
    { apply map_ext_in. intros r Hr. unfold loop_effect, upsert.
      destruct (existing !! detail_id r) as [inst|] eqn:El.
      + destruct (Hinv _ _ El) as (Hid & _ & Hin & Ho).
        assert (inst = r) as -> by (eapply (NoDup_map_eq detail_id); eauto).
        by rewrite Ho, Z.eqb_refl.
      + destruct (Z.eqb_spec (offer r) pk) as [Ho|Ho]; [|done].
        exfalso.
        assert (Hin : In r (ORM.details_of pk db)).
        { unfold ORM.details_of. apply filter_In. split; [done | lia]. }
        apply (existing_details_lookup_is_Some _ ∅) in Hin.
        unfold existing, existing_details_of in El. rewrite El in Hin.
        by destruct Hin. }
    rewrite Hmap, ret_eval. eexists. split; reflexivity.
  - intros r e Ho He. unfold upsert.
    rewrite Ho, Z.eqb_refl, He. rewrite <- Ho.
    unfold first_entry in He. apply find_some in He as [Hin Hd].
    apply bool_decide_eq_true in Hd.
    rewrite Forall_forall in Hkeys.
    specialize (Hkeys e ltac:(by apply list_elem_of_In)).
    unfold round_price, ORM.apply_data. simpl. by rewrite Hd, Hkeys.
  - intros k e later Hk. unfold first_entry. simpl.
    by rewrite bool_decide_eq_true_2.
  - intros k e later Hk. unfold first_entry. simpl.
    by rewrite bool_decide_eq_false_2.
  - intros r Ho. unfold upsert.
    by destruct (Z.eqb_spec (offer r) pk).
  - intros r Hr. unfold upsert.
    destruct (offer r =? pk); [|done].
    destruct (first_entry (detail_id r) details_data) as [e|] eqn:He; [|done].
    unfold first_entry in He. apply find_some in He as [Hin Hd].
    apply bool_decide_eq_true in Hd. exfalso.
    by apply (Hr e); [apply list_elem_of_In|].
Qed.

(** In the sample store the offer 1 receives two entries for its detail
    1 and an entry for a detail of offer 2: the first entry decides, its
    price 20.556 is stored as 20.56, and the other rows stay. *)
Lemma nested_update_takes_first_entry_witness :
  integrity Sample.db
  ∧ ∃ instance',
      _update_details
        {| obj := Sample.logo; details_cache := ORM.details_of 1 Sample.db |}
        upsert_entries Sample.db
      = (ORM.set_offers_offerdetail
           (map (upsert 1 upsert_entries) (offers_offerdetail Sample.db))
           Sample.db, inr instance')
      ∧ map price (map (upsert 1 upsert_entries)
                       (offers_offerdetail Sample.db))
        = [Qmake 2056 100; Qmake 80 1; Qmake 30 1].
Proof.
  assert (Hi : integrity Sample.db) by apply sample_integrity.
  split; [exact Hi|].
  assert (Hkeys : Forall (fun e => dd_offer e = None) upsert_entries).
  { repeat constructor. }
  destruct (nested_update_takes_first_entry Sample.logo 1 upsert_entries
              Sample.db Hi Hkeys) as ((inst & Hu & _) & _).
  exists inst. split; [exact Hu | reflexivity].
Defined.

End NestedUpdate.

(** ** The integrity of the store *)

Section Integrity.
Import Auth Permissions Models Fields.

Lemma integrity_after_create o rows db :
  integrity db →
  id o = next_offer_id db →
  map detail_id rows = seqZ (next_detail_id db) (Z.of_nat (length rows)) →
  Forall (fun r => offer r = id o) rows →
  integrity (after_create o rows db).
Proof.
  intros (Hno & Hnd & Ho & Hob & Hd & Hdb & Hfk) Hid Hkeys Hrows.
  unfold integrity, after_create. simpl.
  rewrite !map_app, Hkeys. simpl.
  rewrite Forall_forall in Hob. rewrite Forall_forall in Hdb.
  rewrite Forall_forall in Hfk. rewrite Forall_forall in Hrows.
  split; [lia|]. split; [lia|]. split; [|split; [|split; [|split]]].
  - apply NoDup_app. split; [done|]. split; [|apply NoDup_singleton].
    intros k Hk [->|[]%elem_of_nil]%elem_of_cons.
    apply list_elem_of_In, in_map_iff in Hk as (x & Hx & Hin).
    pose proof (Hob x ltac:(by apply list_elem_of_In)). lia.
  - apply Forall_app. split.
    + apply Forall_forall. intros x Hx. pose proof (Hob x Hx). lia.
    + apply Forall_singleton. lia.
  - apply NoDup_app. split; [done|]. split; [|apply NoDup_seqZ].
    intros k Hk Hs. apply elem_of_seqZ in Hs.
    apply list_elem_of_In, in_map_iff in Hk as (x & Hx & Hin).
    pose proof (Hdb x ltac:(by apply list_elem_of_In)). lia.
  - apply Forall_app. split.
    + apply Forall_forall. intros x Hx. pose proof (Hdb x Hx). lia.
    + apply Forall_forall. intros x Hx.
      assert (Hk : detail_id x ∈ map detail_id rows).
      { apply list_elem_of_In, in_map. by apply list_elem_of_In. }
      rewrite Hkeys in Hk. apply elem_of_seqZ in Hk. lia.
  - apply Forall_app. split.
    + apply Forall_forall. intros x Hx. apply elem_of_app. left. by apply Hfk.
    + apply Forall_forall. intros x Hx. rewrite (Hrows x Hx).
      apply elem_of_app. right. by left.
Qed.

Lemma integrity_after_delete pk db : integrity db → integrity (after_delete pk db).
Proof.
  intros (Hno & Hnd & Ho & Hob & Hd & Hdb & Hfk).
  unfold integrity, after_delete. simpl.
  rewrite Forall_forall in Hob. rewrite Forall_forall in Hdb.
  rewrite Forall_forall in Hfk.
  assert (Hsub : ∀ {A} (f : A → bool) (g : A → Z) l,
             NoDup (map g l) → NoDup (map g (List.filter f l))).
  { intros A f g l. induction l as [|x l IH]; [done|]. simpl.
    intros [Hx Hl]%NoDup_cons. destruct (f x); simpl; [|by apply IH].
    apply NoDup_cons. split; [|by apply IH].
    intros Hin. apply Hx.
    apply list_elem_of_In, in_map_iff in Hin as (y & Hy & Hin).
    apply filter_In in Hin as [Hin _].
    rewrite <- Hy. by apply list_elem_of_In, in_map. }
  split; [done|]. split; [done|]. split; [|split; [|split; [|split]]].
  - by apply Hsub.
  - apply Forall_forall. intros x Hx%list_elem_of_In.
    apply filter_In in Hx as [Hx _]. by apply Hob, list_elem_of_In.
  - by apply Hsub.
  - apply Forall_forall. intros x Hx%list_elem_of_In.
    apply filter_In in Hx as [Hx _]. by apply Hdb, list_elem_of_In.
  - apply Forall_forall. intros x Hx%list_elem_of_In.
    apply filter_In in Hx as [Hx Hne].
    pose proof (Hfk x ltac:(by apply list_elem_of_In)) as Hin.
    apply list_elem_of_In, in_map_iff in Hin as (o & Hio & Hin).
    apply list_elem_of_In, in_map_iff. exists o. split; [done|].
    apply filter_In. split; [done|]. rewrite Hio. done.
Qed.

Lemma integrity_same_keys db db' :
  integrity db →
  next_offer_id db' = next_offer_id db →
  next_detail_id db' = next_detail_id db →
  map id (offers_offer db') = map id (offers_offer db) →
  map detail_id (offers_offerdetail db')
  = map detail_id (offers_offerdetail db) →
  Forall (fun d => offer d ∈ map id (offers_offer db))
         (offers_offerdetail db') →
  integrity db'.
Proof.
  intros (Hno & Hnd & Ho & Hob & Hd & Hdb & Hfk) Hn1 Hn2 Hi Hk Hf.
  assert (Hall : ∀ {A} (g : A → Z) (P : Z → Prop) l,
             Forall (fun x => P (g x)) l ↔ Forall P (map g l)).
  { intros A g P l. change (map g l) with (g <$> l).
    by rewrite Forall_fmap. }
  unfold integrity. rewrite Hn1, Hn2, Hi, Hk.
  split; [done|]. split; [done|]. split; [done|].
  split; [|split; [done|split]].
  - apply (Hall _ id (fun k => 0 < k < next_offer_id db)). rewrite Hi.
    by apply (Hall _ id (fun k => 0 < k < next_offer_id db)).
  - apply (Hall _ detail_id (fun k => 0 < k < next_detail_id db)).
    rewrite Hk.
    by apply (Hall _ detail_id (fun k => 0 < k < next_detail_id db)).
  - exact Hf.
Qed.

Lemma post_store now caller data db :
  (OfferListAPIView.post now caller data db).1 = db
  ∨ ∃ o vs, (OfferListAPIView.post now caller data db).1
            = after_create o (created_rows vs db) db
            ∧ id o = next_offer_id db.
Proof.
  destruct caller as [|u]; [by left|].
  destruct (OfferSerializer.field_errors data) as [|x xs] eqn:Hf.
  - destruct (field_errors_nil data Hf) as (t & d & Ht).
    rewrite (post_after_field_pass now u data db t d Ht).
    destruct (invalid_details data); [|by left].
    destruct (OfferListAPIView.is_business_user (Authenticated u));
      [|by left].
    right. by eexists _, _.
  - left. rewrite post_field_errors; [done | by rewrite Hf].
Qed.

(** X9. The three write views keep the integrity of the store, whatever
    the caller, the body and the outcome: after a create, an update or a
    delete request the primary keys are still distinct, positive and
    below their counters, and every detail row still points to an offer
    row - the cascade of the deletion leaves no detail behind. *)
Theorem writes_keep_integrity (db : DB) (Hstore : integrity db) :
  (∀ now caller data,
     integrity (OfferListAPIView.post now caller data db).1)
  ∧ (∀ now method caller pk data,
       integrity (OfferDetailsAPIView.update now method caller pk data db).1)
  ∧ (∀ caller pk, integrity (OfferDetailsAPIView.delete caller pk db).1).
Proof.
  split; [|split].
  - intros now caller data.
    destruct (post_store now caller data db) as [->|(o & vs & -> & Hid)];
      [done|].
    apply integrity_after_create; [done | done | |].
    + unfold created_rows. by rewrite assign_ids_keys, assign_ids_length.
    + unfold created_rows. apply assign_ids_offer, Forall_forall.
      intros r Hr. apply list_elem_of_In, in_map_iff in Hr as (x & <- & _).
      by rewrite Hid.
  - intros now method caller pk data.
    destruct (update_store now method caller pk data db)
      as (Hn1 & Hn2 & Hi & Hk & Hfk).
    apply (integrity_same_keys db); try done.
    apply Hfk. by destruct Hstore as (_ & _ & _ & _ & _ & _ & ?).
  - intros [|u] pk; [done|].
    destruct (offer_at pk db) as [o|] eqn:Hfind.
    + rewrite (delete_cases u pk o db Hfind).
      destruct (Auth.id u =? user o); [by apply integrity_after_delete|].
      destruct (is_staff u); [|done].
      destruct (profile u); [by apply integrity_after_delete | done].
    + unfold offer_at in Hfind.
      unfold OfferDetailsAPIView.delete, check_permissions.
      rewrite bind_eval, require_eval. simpl. rewrite bind_eval.
      unfold ORM.get_offer_or_404 at 1. by rewrite Hfind.
Qed.

(** The sample store has its integrity and keeps it when its owner
    deletes offer 1. *)
Lemma writes_keep_integrity_witness :
  integrity Sample.db
  ∧ integrity
      (OfferDetailsAPIView.delete (Authenticated Sample.alice) 1 Sample.db).1.
Proof.
  split; [apply sample_integrity|].
  apply (writes_keep_integrity Sample.db sample_integrity).
Defined.

End Integrity.

(** ** A write followed by a read *)

Section RoundTrip.
Import Auth Permissions Models Fields.
Import OfferSerializer.

#[local] Arguments OfferListAPIView.is_business_user : simpl never.

Lemma find_app_fresh {A} (f : A → bool) l x :
  (∀ y, In y l → f y = false) → f x = true →
  List.find f (l ++ [x]) = Some x.
Proof.
  intros Hl Hx. induction l as [|y l IH]; simpl.
  - by rewrite Hx.
  - rewrite (Hl y) by (by left). apply IH. intros z Hz. apply Hl. by right.
Qed.

Lemma filter_all {A} (f : A → bool) l :
  (∀ x, In x l → f x = true) → List.filter f l = l.
Proof.
  induction l as [|x l IH]; [done|]. intros H. simpl.
  rewrite (H x) by (by left). f_equal. apply IH. intros y Hy. apply H.
  by right.
Qed.

Lemma filter_none {A} (f : A → bool) l :
  (∀ x, In x l → f x = false) → List.filter f l = [].
Proof.
  induction l as [|x l IH]; [done|]. intros H. simpl.
  rewrite (H x) by (by left). apply IH. intros y Hy. apply H. by right.
Qed.

(** X10. Create, then read.  In a store with integrity, when a known
    user with a business profile creates an offer from a valid body, the
    response carries the new offer key and the created detail rows, one
    per detail of the body; a read of that key by any authenticated user
    then returns the offer with the title and the description of the
    response, owned by the creator, with exactly the keys of the created
    details and with the minimum of their prices. *)
Theorem created_offer_is_read_back (now : Z) (u : User) (data : OfferData)
    (db : DB)
    (Hstore : integrity db)
    (Hknown : known_user db u)
    (Hbusiness : OfferListAPIView.is_business_user (Authenticated u) = true)
    (Hfields : field_errors data = [])
    (Hdetails : invalid_details data = []) :
  ∃ db' created,
    OfferListAPIView.post now (Authenticated u) data db = (db', inr created)
    ∧ c_id created = next_offer_id db
    ∧ length (c_details created) = length (default [] (od_details data))
    ∧ offers_offerdetail db' = offers_offerdetail db ++ c_details created
    ∧ ∀ reader, ∃ view,
        OfferDetailsAPIView.get (Authenticated reader) (c_id created) db'
        = (db', inr view)
        ∧ id (r_offer view) = c_id created
        ∧ user (r_offer view) = Auth.id u
        ∧ title (r_offer view) = c_title created
        ∧ description (r_offer view) = c_description created
        ∧ r_details view = map detail_id (c_details created)
        ∧ r_min_price view = ORM.min_Q (map price (c_details created)).
Proof.
  destruct (field_errors_nil data Hfields) as (t & d & Ht).
  pose proof (post_after_field_pass now u data db t d Ht) as Hpost.
  rewrite Hdetails, Hbusiness in Hpost. cbv zeta in Hpost.
  set (o := created_offer now u t d (od_image data) db) in *.
  set (vs := (validate_details (default [] (od_details data))).2) in *.
  set (rows := created_rows vs db) in *.
  set (db' := after_create o rows db) in *.
  destruct Hstore as (_ & _ & _ & Hob & _ & _ & Hfk).
  rewrite Forall_forall in Hob. rewrite Forall_forall in Hfk.
  assert (Hrows : ORM.details_of (id o) db' = rows).
  { unfold db'. rewrite details_of_app.
    unfold ORM.details_of. rewrite filter_none, filter_all; [done| |].
    - intros r Hr. unfold rows, created_rows in Hr.
      assert (Hall : Forall (fun r => offer r = next_offer_id db)
                       (ORM.assign_ids (next_detail_id db)
                          (map (new_detail (next_offer_id db)) vs))).
      { apply assign_ids_offer, Forall_forall.
        intros x Hx. by apply list_elem_of_In, in_map_iff in Hx
          as (y & <- & _). }
      rewrite Forall_forall in Hall.
      rewrite (Hall r) by (by apply list_elem_of_In). apply Z.eqb_refl.
    - intros r Hr. apply Z.eqb_neq. intros E.
      pose proof (Hfk r ltac:(by apply list_elem_of_In)) as Hin.
      apply list_elem_of_In, in_map_iff in Hin as (x & Hx & Hin).
      pose proof (Hob x ltac:(by apply list_elem_of_In)).
      simpl in E. lia. }
  exists db'. eexists. split; [exact Hpost|]. cbn [c_id c_details].
  rewrite Hrows. split; [done|]. split; [|split; [done|]].
  - unfold rows, created_rows. rewrite assign_ids_length, length_map.
    pose proof (validate_details_validated (default [] (od_details data)))
      as Hv.
    unfold invalid_details in Hdetails.
    rewrite (filter_negb_nil _ _ Hdetails) in Hv.
    symmetry. by eapply Forall2_length.
  - intros reader.
    assert (Hat : offer_at (id o) db' = Some o).
    { unfold offer_at, db', after_create. cbn [offers_offer].
      apply find_app_fresh; [|apply Z.eqb_refl].
      intros y Hy. apply Z.eqb_neq.
      pose proof (Hob y ltac:(by apply list_elem_of_In)). simpl. lia. }
    assert (Hprof : ∃ p, ORM.owner_profile o db' = (db', inr p)).
    { unfold ORM.owner_profile, db', after_create. cbn [auth_user].
      unfold known_user in Hknown. simpl. rewrite Hknown.
      unfold OfferListAPIView.is_business_user in Hbusiness.
      destruct (profile u) as [p|]; [by exists p | done]. }
    destruct Hprof as [p Hp].
    exists (read_view db' o p). split.
    + rewrite offer_get_cases. simpl. change (next_offer_id db) with (id o).
      by rewrite Hat, Hp.
    + unfold read_view. cbn [r_offer r_details r_min_price].
      unfold get_min_price. rewrite Hrows. done.
Qed.

(** In the sample store [alice] creates the offer 3 with one detail and
    [carol] reads it back with the key 4 of that detail. *)
Lemma created_offer_is_read_back_witness :
  ∃ db' created view,
    OfferListAPIView.post 100 (Authenticated Sample.alice)
      Sample.create_request Sample.db = (db', inr created)
    ∧ OfferDetailsAPIView.get (Authenticated Sample.carol) 3 db'
      = (db', inr view)
    ∧ title (r_offer view) = "Flyer"
    ∧ r_details view = map detail_id (c_details created).
Proof.
  destruct (created_offer_is_read_back 100 Sample.alice
              Sample.create_request Sample.db sample_integrity
              eq_refl eq_refl eq_refl eq_refl)
    as (db' & created & Hp & Hid & _ & _ & Hread).
  destruct (Hread Sample.carol) as (view & Hg & _ & _ & Ht & _ & Hd & _).
  exists db', created, view. split; [exact Hp|].
  rewrite Hid in Hg. split; [exact Hg|]. split; [|exact Hd].
  rewrite Ht. injection Hp as _ <-. reflexivity.
Defined.

Lemma detail_get_cases u pk db :
  OfferDetailAPIView.get (Authenticated u) pk db
  = match detail_at pk db with
    | Some d => (db, inr d)
    | None => (db, inl Http404)
    end.
Proof.
  unfold OfferDetailAPIView.get, check_permissions, detail_at.
  rewrite bind_eval, require_eval. simpl.
  unfold ORM.get_offerdetail_or_404. by destruct (List.find _ _).
Qed.

Lemma find_filter_none {A} (f g : A → bool) l :
  (∀ x, In x l → f x = true → g x = false) →
  List.find f (List.filter g l) = None.
Proof.
  intros H. induction l as [|x l IH]; [done|]. simpl.
  assert (IH' : List.find f (List.filter g l) = None).
  { apply IH. intros y Hy. apply H. by right. }
  destruct (g x) eqn:Eg; [|done]. simpl.
  destruct (f x) eqn:Ef; [|done].
  rewrite (H x) in Eg; [done | by left | done].
Qed.

Lemma find_filter_keep {A} (f g : A → bool) l :
  (∀ x, In x l → f x = true → g x = true) →
  List.find f (List.filter g l) = List.find f l.
Proof.
  intros H. induction l as [|x l IH]; [done|]. simpl.
  assert (IH' : List.find f (List.filter g l) = List.find f l).
  { apply IH. intros y Hy. apply H. by right. }
  destruct (f x) eqn:Ef.
  - rewrite (H x); [|by left|done]. simpl. by rewrite Ef.
  - destruct (g x); [|done]. simpl. by rewrite Ef.
Qed.

(** X11. Delete, then read.  After the deletion of an offer by its owner
    or by a staff user with a profile, in a store with integrity: a read
    of the offer's key and a read of the key of any of its former
    details answer [Http404]; the offer is in no list; and every other
    offer and every detail of another offer is found as before. *)
Theorem deleted_offer_is_gone (u : User) (pk : Z) (o : Offer) (db : DB)
    (Hstore : integrity db)
    (Hfind : offer_at pk db = Some o)
    (Hwho : owns u o ∨ (is_staff u = true ∧ is_Some (profile u))) :
  ∃ db',
    OfferDetailsAPIView.delete (Authenticated u) pk db = (db', inr tt)
    ∧ (∀ reader, OfferDetailsAPIView.get (Authenticated reader) pk db'
                 = (db', inl Http404))
    ∧ (∀ reader d, d ∈ offers_offerdetail db → offer d = pk →
                   OfferDetailAPIView.get (Authenticated reader)
                     (detail_id d) db'
                   = (db', inl Http404))
    ∧ (∀ params a, a ∈ OfferListAPIView.get_queryset params db' →
                   id (a_offer a) ≠ pk)
    ∧ (∀ pk', pk' ≠ pk → offer_at pk' db' = offer_at pk' db)
    ∧ (∀ d, d ∈ offers_offerdetail db → offer d ≠ pk →
            detail_at (detail_id d) db' = Some d).
Proof.
  exists (after_delete pk db).
  split.
  { rewrite (delete_cases u pk o db Hfind). unfold owns in Hwho.
    destruct (Z.eqb_spec (Auth.id u) (user o)); [done|].
    destruct Hwho as [?|[-> [p ->]]]; done. }
  destruct Hstore as (_ & _ & _ & _ & Hnd & _ & _).
  assert (Hgone : offer_at pk (after_delete pk db) = None).
  { unfold offer_at, after_delete. cbn [offers_offer].
    apply find_filter_none. intros x _ Hx. by rewrite Hx. }
  split; [|split; [|split; [|split]]].
  - intros reader. by rewrite offer_get_cases, Hgone.
  - intros reader d Hd Ho.
    rewrite detail_get_cases. unfold detail_at, after_delete.
    cbn [offers_offerdetail].
    rewrite find_filter_none; [done|].
    intros x Hx Hk. apply Z.eqb_eq in Hk.
    assert (x = d) as ->.
    { eapply (NoDup_map_eq detail_id); eauto. by apply list_elem_of_In. }
    by rewrite Ho, Z.eqb_refl.
  - intros params a Ha. apply list_elem_of_In, in_get_queryset in Ha.
    unfold OfferListAPIView.filtered in Ha.
    rewrite !in_apply_filter, in_annotate in Ha.
    destruct Ha as ((([Ha _] & _) & _) & _).
    unfold after_delete in Ha. cbn [offers_offer] in Ha.
    apply filter_In in Ha as [_ Ha]. apply negb_true_iff, Z.eqb_neq in Ha.
    done.
  - intros pk' Hne. unfold offer_at, after_delete. cbn [offers_offer].
    apply find_filter_keep. intros x _ Hx. apply Z.eqb_eq in Hx.
    apply negb_true_iff, Z.eqb_neq. congruence.
  - intros d Hd Ho. unfold detail_at, after_delete.
    cbn [offers_offerdetail].
    assert (Hk : List.find (fun x => detail_id x =? detail_id d)
                   (offers_offerdetail db) = Some d).
    { apply list_elem_of_In in Hd.
      destruct (List.find _ (offers_offerdetail db)) as [x|] eqn:E.
      - apply find_some in E as [Hx Hk]. apply Z.eqb_eq in Hk.
        f_equal. eapply (NoDup_map_eq detail_id); eauto.
      - eapply find_none in E; [|exact Hd]. by rewrite Z.eqb_refl in E. }
    rewrite find_filter_keep; [done|].
    intros x Hx Hkx. apply Z.eqb_eq in Hkx.
    assert (x = d) as ->.
    { eapply (NoDup_map_eq detail_id); eauto. by apply list_elem_of_In. }
    by apply negb_true_iff, Z.eqb_neq.
Qed.

(** In the sample store, after [alice] deleted her offer 1, its key and
    the key 2 of its seven-day detail are not found. *)
Lemma deleted_offer_is_gone_witness :
  ∃ db',
    OfferDetailsAPIView.delete (Authenticated Sample.alice) 1 Sample.db
    = (db', inr tt)
    ∧ OfferDetailsAPIView.get (Authenticated Sample.carol) 1 db'
      = (db', inl Http404)
    ∧ OfferDetailAPIView.get (Authenticated Sample.carol) 2 db'
      = (db', inl Http404).
Proof.
  destruct (deleted_offer_is_gone Sample.alice 1 Sample.logo Sample.db
              sample_integrity eq_refl (or_introl eq_refl))
    as (db' & Hd & Ho & Hdet & _).
  exists db'. split; [exact Hd|]. split; [apply Ho|].
  apply (Hdet Sample.carol (Sample.detail 2 1 7 (Qmake 80 1) "standard"));
    [|reflexivity].
  apply list_elem_of_In. simpl. auto.
Defined.

End RoundTrip.

(** ** What a list holds *)

Section Listing.
Import OfferListAPIView.

Lemma filter_sublist {A} (f : A → bool) l : List.filter f l `sublist_of` l.
Proof.
  induction l as [|x l IH]; [constructor|]. simpl.
  destruct (f x); by constructor.
Qed.

Lemma apply_filter_sublist {V} (lookup : V → Annotated → bool) value l :
  apply_filter lookup value l `sublist_of` l.
Proof. destruct value; [apply filter_sublist | done]. Qed.

Lemma annotate_offers db : map a_offer (annotate db) = offers_offer db.
Proof. unfold annotate. rewrite map_map. simpl. apply map_id. Qed.

(** X12. What a list holds.  The offers of the list queryset are offers
    of the table, none more often than it is stored, so distinct keys
    stay distinct; a request without [creator_id], [min_price] and
    [max_delivery_time] lists every offer, whatever its ordering; and an
    offer without details is in no list that is filtered by minimum
    price or by delivery time. *)
Theorem list_holds_each_offer_once (params : QueryParams) (db : DB) :
  map a_offer (get_queryset params db) ⊆+ offers_offer db
  ∧ (NoDup (map id (offers_offer db)) →
     NoDup (map (fun a => id (a_offer a)) (get_queryset params db)))
  ∧ (creator_id params = None → min_price params = None →
     max_delivery_time params = None →
     map a_offer (get_queryset params db) ≡ₚ offers_offer db)
  ∧ (∀ o, ORM.details_of (id o) db = [] →
          is_Some (min_price params) ∨ is_Some (max_delivery_time params) →
          o ∉ map a_offer (get_queryset params db)).
Proof.
  assert (Hperm : map a_offer (get_queryset params db)
                  ≡ₚ map a_offer (filtered params db)).
  { apply Permutation_map. unfold get_queryset.
    apply order_by_Permutation. }
  assert (Hsub : map a_offer (get_queryset params db) ⊆+ offers_offer db).
  { rewrite Hperm, <- (annotate_offers db).
    change (map a_offer ?l) with (a_offer <$> l).
    apply fmap_submseteq, sublist_submseteq. unfold filtered.
    etrans; [apply apply_filter_sublist|].
    etrans; [apply apply_filter_sublist|]. apply apply_filter_sublist. }
  split; [exact Hsub|]. split; [|split].
  - intros Hnd. rewrite <- (map_map a_offer id).
    change (map id ?l) with (id <$> l) in *.
    apply submseteq_Permutation in Hsub as [k Hk].
    rewrite Hk, fmap_app in Hnd. by apply NoDup_app in Hnd as [? _].
  - intros Hc Hp Hd. rewrite Hperm. unfold filtered.
    rewrite Hc, Hp, Hd. simpl. by rewrite annotate_offers.
  - intros o Hno Hfilter Hin.
    apply list_elem_of_In, in_map_iff in Hin as (a & <- & Ha).
    apply in_get_queryset in Ha. unfold filtered in Ha.
    rewrite !in_apply_filter, in_annotate in Ha.
    destruct Ha as ((([_ Hm] & _) & Hp) & Hd).
    destruct Hfilter as [[v Hv]|[v Hv]].
    + specialize (Hp v Hv). unfold filter_min_price__gte in Hp.
      rewrite Hm in Hp. unfold OfferSerializer.get_min_price in Hp.
      by rewrite Hno in Hp.
    + specialize (Hd v Hv).
      unfold filter_details__delivery_time_in_days__lte in Hd.
      by rewrite Hno in Hd.
Qed.

(** The sample store lists its two offers when no filter is given. *)
Lemma list_holds_each_offer_once_witness :
  map a_offer
    (get_queryset {| creator_id := None; min_price := None;
                     max_delivery_time := None; ordering := Some "min_price" |}
                  Sample.db)
  ≡ₚ [Sample.logo; Sample.site].
Proof.
  by apply (list_holds_each_offer_once
              {| creator_id := None; min_price := None;
                 max_delivery_time := None; ordering := Some "min_price" |}
              Sample.db).
Defined.

End Listing.

(** ** Rounding on save *)

Section Rounding.
Import Models.

Lemma round_half_even_of n (d : positive) :
  let r := round_half_even (Qmake n d) in
  - Z.pos d <= 2 * (r * Z.pos d - n) <= Z.pos d.
Proof.
  unfold round_half_even. cbn [Qnum Qden].
  pose proof (Z.div_mod n (Z.pos d) ltac:(lia)) as Hdm.
  pose proof (Z.mod_pos_bound n (Z.pos d) ltac:(lia)) as Hm.
  set (f := n / Z.pos d) in *. set (m := n mod Z.pos d) in *.
  destruct (Z.ltb_spec (2 * m) (Z.pos d)); [nia|].
  destruct (Z.ltb_spec (Z.pos d) (2 * m)); [nia|].
  destruct (Z.even f); nia.
Qed.

Lemma round_half_even_exact n (d : positive) k :
  n = k * Z.pos d → round_half_even (Qmake n d) = k.
Proof.
  intros ->. unfold round_half_even. cbn [Qnum Qden].
  rewrite Z.div_mul, Z.mod_mul by lia. reflexivity.
Qed.

Lemma round2_hundredths m : round2 (Qmake m 100) = Qmake m 100.
Proof.
  unfold round2. f_equal. unfold Qmult. cbn [Qnum Qden].
  apply round_half_even_exact. reflexivity.
Qed.

(** X13. Rounding on save.  [round_price] leaves a price with two
    decimals: the result is a number of hundredths, at most half a
    hundredth away from the price, and equal to it when the price already
    is a number of hundredths.  Rounding again changes nothing, so a
    detail that is saved twice is stored as when it is saved once. *)
Theorem round_price_is_stable (d : OfferDetail) :
  round_price (round_price d) = round_price d
  ∧ Qden (price (round_price d)) = 100%positive
  ∧ (price d - Qmake 1 200 <= price (round_price d))%Q
  ∧ (price (round_price d) <= price d + Qmake 1 200)%Q
  ∧ (∀ n, (price d == Qmake n 100)%Q →
          (price (round_price d) == price d)%Q)
  ∧ (∀ db, (ORM.save_detail (round_price d) db).1
           = (ORM.save_detail d db).1).
Proof.
  assert (Hidem : round_price (round_price d) = round_price d).
  { unfold round_price. cbn [price detail_id detail_title
      delivery_time_in_days offer features offer_type revisions].
    f_equal. unfold round2 at 2. apply round2_hundredths. }
  assert (Hsave : ∀ db, (ORM.save_detail (round_price d) db).1
                        = (ORM.save_detail d db).1).
  { intros db. unfold ORM.save_detail. cbn [fst]. by rewrite Hidem. }
  split; [exact Hidem|]. split; [reflexivity|].
  revert Hsave. clear Hidem.
  destruct d as [i t [qn qd] days o f ty rv]. intros Hsave.
  unfold round_price. cbn [price]. unfold round2, Qmult. cbn [Qnum Qden].
  pose proof (round_half_even_of (qn * 100) (qd * 1)) as Hb.
  cbv zeta in Hb.
  set (r := round_half_even (Qmake (qn * 100) (qd * 1))) in *.
  split; [|split; [|split]].
  - unfold Qle, Qminus, Qplus, Qopp. cbn [Qnum Qden]. lia.
  - unfold Qle, Qplus. cbn [Qnum Qden]. lia.
  - intros n Hn. unfold Qeq in *. cbn [Qnum Qden] in *.
    assert (r = n) as ->; [|lia].
    apply round_half_even_exact. lia.
  - exact Hsave.
Qed.

End Rounding.

(** * The orders *)

Section OrderSave.
Import Orders.

Lemma related_detail_stamp now o st :
  related_detail (stamp now o) st = related_detail o st.
Proof. reflexivity. Qed.

Lemma save_cases now o st d :
  related_detail o st = Some d →
  no_business_user o = false ∨ is_Some (related_owner d st) →
  ∃ w, save now o st
       = (write now (inherit d w o) st, inr (stamp now (inherit d w o)))
       ∧ (no_business_user o = true → related_owner d st = Some w).
Proof.
  intros Hd Hw. unfold save. rewrite Hd.
  destruct (no_business_user o) eqn:Hb.
  - destruct Hw as [|[w Hw]]; [done|]. rewrite Hw. by exists w.
  - by exists 0.
Qed.

(** X14.  [Order.save] on an order whose detail and the owner of the
    detail's offer are in the store succeeds and touches no row of the
    offer module.  The saved order has a price, a delivery time, features,
    revisions and a business user: what the order had is kept, where a
    number 0 counts as given and an empty title does not, and what it
    lacked is the value of the detail.  A later save keeps these columns,
    whatever the detail has become. *)
Theorem order_save_takes_over_what_is_missing
    (now : Z) (o : Order) (st : Store) (d : OfferDetail)
    (Hdetail : related_detail o st = Some d)
    (Howner : is_Some (related_owner d st)) :
  ∃ o',
    (save now o st).2 = inr (stamp now o')
    ∧ base (save now o st).1 = base st
    ∧ (is_Some (price o') ∧ is_Some (delivery_time_in_days o')
       ∧ is_Some (features o') ∧ is_Some (revisions o')
       ∧ is_Some (business_user o'))
    ∧ (∀ p, price o = Some p → price o' = Some p)
    ∧ (∀ n, revisions o = Some n → revisions o' = Some n)
    ∧ (∀ n, delivery_time_in_days o = Some n
            → delivery_time_in_days o' = Some n)
    ∧ (∀ f, features o = Some f → features o' = Some f)
    ∧ (title o ≠ "" → title o' = title o)
    ∧ (price o = None → price o' = Some (Models.price d))
    ∧ (revisions o = None → revisions o' = Some (Models.revisions d))
    ∧ (delivery_time_in_days o = None
       → delivery_time_in_days o' = Some (Models.delivery_time_in_days d))
    ∧ (features o = None → features o' = Some (Models.features d))
    ∧ (title o = "" → title o' = Models.detail_title d)
    ∧ (business_user o = None → business_user o' = related_owner d st)
    ∧ (∀ now' st' d',
         related_detail o' st' = Some d' →
         business_user o' ≠ Some 0 →
         ∃ o'',
           (save now' (stamp now o') st').2 = inr (stamp now' o'')
           ∧ price o'' = price o'
           ∧ revisions o'' = revisions o'
           ∧ delivery_time_in_days o'' = delivery_time_in_days o'
           ∧ features o'' = features o'
           ∧ business_user o'' = business_user o').
Proof.
  destruct (save_cases now o st d Hdetail (or_intror Howner))
    as (w & Hsave & Hw).
  exists (inherit d w o). rewrite Hsave. split; [done|]. split; [done|].
  split.
  { cbn [inherit price delivery_time_in_days features revisions business_user].
    repeat split; try by eexists.
    destruct (no_business_user o) eqn:Hb; [by eexists|].
    unfold no_business_user in Hb. destruct (business_user o); [by eexists|done]. }
  cbn [inherit price delivery_time_in_days features revisions business_user
       title].
  repeat split.
  - by intros p ->.
  - by intros n ->.
  - by intros n ->.
  - by intros f ->.
  - intros Ht. by destruct (title o).
  - by intros ->.
  - by intros ->.
  - by intros ->.
  - by intros ->.
  - by intros ->.
  - intros Hb. unfold no_business_user. rewrite Hb. symmetry. apply Hw.
    unfold no_business_user. by rewrite Hb.
  - intros now' st' d' Hd' Hnz.
    assert (Hb : no_business_user (stamp now (inherit d w o)) = false).
    { cbn [stamp inherit business_user] in Hnz.
      unfold no_business_user at 1. cbn [stamp inherit business_user].
      destruct (no_business_user o) eqn:E.
      - destruct (Z.eqb_spec w 0) as [->|]; done.
      - exact E. }
    destruct (save_cases now' (stamp now (inherit d w o)) st' d' Hd'
                (or_introl Hb)) as (w' & Hsave' & _).
    exists (inherit d' w' (stamp now (inherit d w o))).
    rewrite Hsave'. split; [done|].
    unfold no_business_user in Hb.
    cbn [inherit stamp price delivery_time_in_days features revisions
         business_user] in *.
    repeat split.
    unfold no_business_user.
    cbn [inherit stamp business_user]. by rewrite Hb.
Qed.

Lemma order_save_takes_over_what_is_missing_witness :
  ∃ o',
    (save 50 SampleOrders.bare SampleOrders.store).2 = inr (stamp 50 o')
    ∧ price o' = Some (Qmake 50 1)
    ∧ revisions o' = Some 0
    ∧ title o' = "basic"
    ∧ business_user o' = Some 1.
Proof.
  destruct (order_save_takes_over_what_is_missing 50 SampleOrders.bare
              SampleOrders.store (Sample.detail 1 1 3 (Qmake 50 1) "basic")
              eq_refl (ex_intro _ 1 eq_refl))
    as (o' & Hsave & _ & _ & _ & Hrev & _ & _ & _ & Hprice & _ & _ & _
        & Htitle & Hbus & _).
  exists o'. split; [exact Hsave|].
  split; [by apply Hprice|]. split; [by apply Hrev|].
  split; [by apply Htitle|]. by rewrite Hbus.
Defined.

End OrderSave.

Section StatusChange.
Import Orders OrderSingleAPIView.

Lemma order_at_In pk st o :
  order_at pk st = Some o → In o (orders_order st) ∧ id o = pk.
Proof. intros H. apply find_some in H as [? ?]. split; [done | lia]. Qed.

Lemma is_business_user_of_spec o u :
  is_business_user_of o u = true ↔ business_user o = Some (Auth.id u).
Proof.
  unfold is_business_user_of. destruct (business_user o) as [k|]; [|done].
  rewrite Z.eqb_eq. split; [by intros -> | by intros [= ->]].
Qed.

(** A save that succeeds is followed by a representation that succeeds:
    both read the same detail. *)
Lemma save_then_represent now o st :
  match save now o st with
  | (st', inl e) => st' = st
  | (st', inr saved) =>
      ∃ d w, related_detail o st = Some d
             ∧ saved = stamp now (inherit d w o)
             ∧ st' = write now (inherit d w o) st
             ∧ to_representation saved st'
               = inr {| b_order := saved; b_features := Models.features d |}
  end.
Proof.
  unfold save. destruct (related_detail o st) as [d|] eqn:Hd; [|done].
  assert (Hrep : ∀ w,
    to_representation (stamp now (inherit d w o))
                      (write now (inherit d w o) st)
    = inr {| b_order := stamp now (inherit d w o);
             b_features := Models.features d |}).
  { intros w. unfold to_representation.
    change (related_detail (stamp now (inherit d w o))
                           (write now (inherit d w o) st))
      with (related_detail o st).
    by rewrite Hd. }
  destruct (no_business_user o).
  - destruct (related_owner d st) as [w|]; [|done]. by exists d, w.
  - by exists d, 0.
Qed.

(** X15.  The status change of an order, PATCH [orders/<pk>/], checks in
    this order: an anonymous caller is not authenticated; an unknown key
    is not found; a caller who is not the business user of the order is
    refused with 403, whatever the body, be the caller the customer of
    the order or a staff user; then a status that is missing or none of
    the three is refused with 400.  A request that is not answered with
    200 leaves the store as it was. *)
Theorem status_change_checks_in_order
    (now : Z) (caller : Auth.RequestUser) (pk : Z)
    (status_value : option string) (st : Store) :
  let r := patch now caller pk status_value st in
  (caller = Auth.AnonymousUser → r = (st, inl NotAuthenticated))
  ∧ (∀ u, caller = Auth.Authenticated u → order_at pk st = None →
          r = (st, inl Http404))
  ∧ (∀ u o, caller = Auth.Authenticated u → order_at pk st = Some o →
            business_user o ≠ Some (Auth.id u) →
            ∃ detail, r = (st, inr (Refused 403 detail)))
  ∧ (∀ u o, caller = Auth.Authenticated u → order_at pk st = Some o →
            business_user o = Some (Auth.id u) →
            (∀ s, status_value = Some s → s ∉ order_status) →
            r = (st, inr (Refused 400 invalid_status)))
  ∧ ((∀ b, r.2 ≠ inr (Ok 200 b)) → r.1 = st).
Proof.
  intros r. subst r. unfold order_at.
  split; [by intros ->|]. split; [|split; [|split]].
  - intros u -> Hfind. unfold patch. by rewrite Hfind.
  - intros u o -> Hfind Hb. unfold patch. rewrite Hfind.
    destruct (is_business_user_of o u) eqn:E.
    + by apply is_business_user_of_spec in E.
    + by eexists.
  - intros u o -> Hfind Hb Hs. unfold patch. rewrite Hfind.
    apply is_business_user_of_spec in Hb. rewrite Hb. cbn [negb].
    destruct status_value as [s|]; [|done].
    rewrite bool_decide_eq_false_2; [done|]. by apply Hs.
  - unfold patch. destruct caller as [|u]; [done|].
    destruct (List.find _ _) as [o|]; [|done].
    destruct (negb _); [done|].
    destruct status_value as [s|]; [|done].
    destruct (bool_decide _); [|done].
    pose proof (save_then_represent now (set_status s o) st) as Hsave.
    destruct (save now (set_status s o) st) as [st' [e|saved]].
    + by intros _.
    + destruct Hsave as (d & w & _ & _ & _ & ->).
      intros H. exfalso. by eapply H.
Qed.

Lemma status_change_checks_in_order_witness :
  (∃ detail,
     patch 50 (Auth.Authenticated Sample.carol) 1 (Some "completed")
           SampleOrders.store
     = (SampleOrders.store, inr (Refused 403 detail)))
  ∧ patch 50 (Auth.Authenticated Sample.alice) 1 (Some "done")
          SampleOrders.store
    = (SampleOrders.store, inr (Refused 400 invalid_status)).
Proof.
  pose proof (status_change_checks_in_order 50
                (Auth.Authenticated Sample.carol) 1 (Some "completed")
                SampleOrders.store) as (_ & _ & H403 & _).
  pose proof (status_change_checks_in_order 50
                (Auth.Authenticated Sample.alice) 1 (Some "done")
                SampleOrders.store) as (_ & _ & _ & H400 & _).
  split.
  - by apply (H403 Sample.carol (SampleOrders.order 1 1 3 "in_progress" 30)).
  - apply (H400 Sample.alice (SampleOrders.order 1 1 3 "in_progress" 30));
      [done..|].
    intros s [= <-]. apply (bool_decide_unpack _). by vm_compute.
Defined.

Lemma find_replace_hit (x : Order) pk l o :
  id x = pk →
  List.find (fun r => id r =? pk) l = Some o →
  List.find (fun r => id r =? pk)
            (map (fun r => if id r =? pk then x else r) l) = Some x.
Proof.
  intros Hx. induction l as [|a l IH]; [done|]. simpl.
  destruct (id a =? pk) eqn:E.
  - intros _. by rewrite Hx, Z.eqb_refl.
  - rewrite E. exact IH.
Qed.

Lemma find_replace_miss (x : Order) pk k l :
  id x = pk → k ≠ pk →
  List.find (fun r => id r =? k)
            (map (fun r => if id r =? pk then x else r) l)
  = List.find (fun r => id r =? k) l.
Proof.
  intros Hx Hk. induction l as [|a l IH]; [done|]. simpl.
  destruct (Z.eqb_spec (id a) pk) as [E|E].
  - rewrite Hx, E. destruct (Z.eqb_spec pk k); [congruence|]. exact IH.
  - destruct (id a =? k); [done | exact IH].
Qed.

Lemma map_id_replace (x : Order) pk l :
  id x = pk →
  map id (map (fun r => if id r =? pk then x else r) l) = map id l.
Proof.
  intros Hx. induction l as [|a l IH]; [done|]. simpl. rewrite IH. f_equal.
  destruct (Z.eqb_spec (id a) pk); congruence.
Qed.

Lemma sample_order_integrity : order_integrity SampleOrders.store.
Proof.
  split.
  - apply (bool_decide_unpack _). by vm_compute.
  - repeat constructor; try by eexists.
    all: try (exists 1; split; [reflexivity | lia]).
Defined.

Lemma in_order_status s :
  bool_decide (s ∈ order_status) = true → s ∈ order_status.
Proof. apply bool_decide_eq_true_1. Defined.

Lemma complete_no_business_user o :
  complete o → no_business_user o = false.
Proof.
  intros (_ & _ & _ & _ & b & Hb & Hnz). unfold no_business_user.
  rewrite Hb. by apply Z.eqb_neq.
Qed.

Lemma inherit_complete now s d w o :
  complete o →
  stamp now (inherit d w (set_status s o)) = with_status now s d o.
Proof.
  intros Hc. pose proof (complete_no_business_user o Hc) as Hnb.
  destruct Hc as ([p Hp] & [t Ht] & [f Hf] & [n Hn] & _).
  unfold stamp, inherit, with_status, set_status, no_business_user in *.
  cbn [id status created_at title offer_type offer_detail_id price
       updated_at delivery_time_in_days features revisions customer_user
       business_user] in *.
  by rewrite Hnb, Hp, Ht, Hf, Hn.
Qed.

Lemma status_change_ok now u pk s o d st :
  order_at pk st = Some o →
  complete o →
  related_detail o st = Some d →
  business_user o = Some (Auth.id u) →
  s ∈ order_status →
  patch now (Auth.Authenticated u) pk (Some s) st
  = ({| base := base st;
        orders_order :=
          map (fun r => if id r =? pk then with_status now s d o else r)
              (orders_order st) |},
     inr (Ok 200 {| b_order := with_status now s d o;
                    b_features := Models.features d |})).
Proof.
  intros Hfind Hc Hd Hb Hs.
  pose proof (order_at_In _ _ _ Hfind) as [_ Hid].
  unfold order_at in Hfind. unfold patch. rewrite Hfind.
  apply is_business_user_of_spec in Hb. rewrite Hb. cbn [negb].
  rewrite bool_decide_eq_true_2 by done.
  unfold save.
  change (related_detail (set_status s o) st) with (related_detail o st).
  rewrite Hd.
  change (no_business_user (set_status s o)) with (no_business_user o).
  rewrite (complete_no_business_user o Hc).
  unfold to_representation.
  change (related_detail (stamp now (inherit d 0 (set_status s o)))
            (write now (inherit d 0 (set_status s o)) st))
    with (related_detail o st).
  rewrite Hd, (inherit_complete now s d 0 o Hc).
  unfold write.
  change (id (inherit d 0 (set_status s o))) with (id o).
  by rewrite (inherit_complete now s d 0 o Hc), Hid.
Qed.

(** X16.  In a store with complete orders, the business user of an order
    changes its status to any of the three values, whatever the status
    was: the answer is 200 with the order and the features the detail
    has now; the row of the order takes the status and the stamp, an
    empty title or tier is taken from the detail, the price, the delivery
    time, the revisions and the stored features stay; no other order and
    no row of the offer module changes, and the store stays complete. *)
Theorem status_change_effect
    (now : Z) (u : Auth.User) (pk : Z) (s : string) (o : Order) (st : Store)
    (Hstore : order_integrity st)
    (Hfind : order_at pk st = Some o)
    (Hbusiness : business_user o = Some (Auth.id u))
    (Hstatus : s ∈ order_status) :
  ∃ d st',
    related_detail o st = Some d
    ∧ patch now (Auth.Authenticated u) pk (Some s) st
      = (st', inr (Ok 200 {| b_order := with_status now s d o;
                             b_features := Models.features d |}))
    ∧ base st' = base st
    ∧ order_at pk st' = Some (with_status now s d o)
    ∧ (∀ k, k ≠ pk → order_at k st' = order_at k st)
    ∧ map id (orders_order st') = map id (orders_order st)
    ∧ order_integrity st'.
Proof.
  destruct Hstore as [Hnd Hall].
  pose proof (order_at_In _ _ _ Hfind) as [Hin Hid].
  rewrite Forall_forall in Hall.
  destruct (Hall o) as [Hc [d Hd]]; [by apply list_elem_of_In|].
  exists d. eexists. split; [exact Hd|].
  split; [by apply status_change_ok|].
  cbn [base orders_order]. unfold order_at. cbn [orders_order].
  split; [done|]. split; [|split; [|split]].
  - by apply (find_replace_hit _ pk _ o).
  - intros k Hk. by apply find_replace_miss.
  - by apply map_id_replace.
  - split; cbn [orders_order].
    + by rewrite map_id_replace.
    + rewrite Forall_forall. intros x Hx.
      apply list_elem_of_In, in_map_iff in Hx as (r & <- & Hr).
      destruct (Hall r) as [Hcr Hdr]; [by apply list_elem_of_In|].
      destruct (id r =? pk); [|done].
      split.
      * destruct Hc as (? & ? & ? & ? & ?). by repeat split.
      * change (is_Some (related_detail o st)). by rewrite Hd.
Qed.

Lemma status_change_effect_witness :
  ∃ d st',
    patch 50 (Auth.Authenticated Sample.alice) 2 (Some "in_progress")
          SampleOrders.store
    = (st', inr (Ok 200
         {| b_order :=
              with_status 50 "in_progress" d
                (SampleOrders.order 2 3 3 "completed" 40);
            b_features := Models.features d |}))
    ∧ order_integrity st'.
Proof.
  destruct (status_change_effect 50 Sample.alice 2 "in_progress"
              (SampleOrders.order 2 3 3 "completed" 40) SampleOrders.store
              sample_order_integrity eq_refl eq_refl
              (in_order_status "in_progress" eq_refl))
    as (d & st' & _ & Hpatch & _ & _ & _ & _ & Hafter).
  by exists d, st'.
Defined.

End StatusChange.

Section Counts.
Import Orders OrderSingleAPIView.

Lemma replace_absent (x : Order) pk l :
  pk ∉ map id l → map (fun r => if id r =? pk then x else r) l = l.
Proof.
  induction l as [|a l IH]; [done|]. simpl. intros Hn.
  apply not_elem_of_cons in Hn as [Ha Hl].
  rewrite IH by done. by destruct (Z.eqb_spec (id a) pk).
Qed.

Lemma length_filter_replace (f : Order → bool) (x o : Order) l :
  NoDup (map id l) → In o l →
  Nat.add
    (length (List.filter f (map (fun r => if id r =? id o then x else r) l)))
    (if f o then 1%nat else 0%nat)
  = Nat.add (length (List.filter f l)) (if f x then 1%nat else 0%nat).
Proof.
  induction l as [|a l IH]; [done|]. simpl.
  intros Hnd Hin. apply NoDup_cons in Hnd as [Ha Hnd].
  destruct (Z.eqb_spec (id a) (id o)) as [E|E].
  - assert (a = o) as ->.
    { destruct Hin as [|Hin]; [done|]. exfalso. apply Ha. rewrite E.
      by apply list_elem_of_In, in_map. }
    rewrite replace_absent by done.
    destruct (f x), (f o); simpl; lia.
  - destruct Hin as [->|Hin]; [done|].
    specialize (IH Hnd Hin).
    destruct (f a); simpl; lia.
Qed.

Lemma count_view_known s reader pk st :
  is_Some (List.find (fun x => Auth.id x =? pk) (auth_user (base st))) →
  count_view s (Auth.Authenticated reader) pk st
  = (st, inr (Ok 200 (count_orders pk s st))).
Proof. intros [x Hx]. unfold count_view. by rewrite Hx. Qed.

(** X17.  The two counting views follow a status change.  When the
    business user of an order, a user of the user table, changes its
    status from [status o] to [s], the count of the status [s] of that
    business user rises by one and the count of the old status falls by
    one, for the orders in progress that [order-count/<pk>/] counts and
    for the completed ones that [completed-order-count/<pk>/] counts; a
    cancelled order is in neither of them.  Both views answer any
    authenticated user, and the counts of every other business user stay
    as they were. *)
Theorem status_change_moves_the_counts
    (now : Z) (u reader : Auth.User) (pk : Z) (s : string) (o : Order)
    (st : Store)
    (Hstore : order_integrity st)
    (Hfind : order_at pk st = Some o)
    (Hbusiness : business_user o = Some (Auth.id u))
    (Hstatus : s ∈ order_status)
    (Hknown : is_Some (List.find (fun x => Auth.id x =? Auth.id u)
                                 (auth_user (base st)))) :
  let st' := (patch now (Auth.Authenticated u) pk (Some s) st).1 in
  (∃ n n',
     BusinessNotCompletedOrderAPIView.get (Auth.Authenticated reader)
       (Auth.id u) st = (st, inr (Ok 200 n))
     ∧ BusinessNotCompletedOrderAPIView.get (Auth.Authenticated reader)
         (Auth.id u) st' = (st', inr (Ok 200 n'))
     ∧ (n' + one_if (status o) "in_progress"
        = n + one_if s "in_progress")%nat)
  ∧ (∃ m m',
       BusinessCompletedOrderAPIView.get (Auth.Authenticated reader)
         (Auth.id u) st = (st, inr (Ok 200 m))
       ∧ BusinessCompletedOrderAPIView.get (Auth.Authenticated reader)
           (Auth.id u) st' = (st', inr (Ok 200 m'))
       ∧ (m' + one_if (status o) "completed"
          = m + one_if s "completed")%nat)
  ∧ (∀ b s', b ≠ Auth.id u → count_orders b s' st' = count_orders b s' st).
Proof.
  intros st'. destruct Hstore as [Hnd Hall].
  pose proof (order_at_In _ _ _ Hfind) as [Hin Hid].
  rewrite Forall_forall in Hall.
  destruct (Hall o) as [Hc [d Hd]]; [by apply list_elem_of_In|].
  assert (Hst' : st' = {| base := base st;
                          orders_order :=
                            map (fun r => if id r =? id o
                                          then with_status now s d o else r)
                                (orders_order st) |}).
  { subst st'. rewrite (status_change_ok now u pk s o d st) by done.
    by rewrite Hid. }
  assert (Hcount : ∀ s',
    (count_orders (Auth.id u) s' st' + one_if (status o) s'
     = count_orders (Auth.id u) s' st + one_if s s')%nat).
  { intros s'. rewrite Hst'. unfold count_orders. cbn [orders_order].
    pose proof (length_filter_replace
      (fun r => match business_user r with
                | Some k => (k =? Auth.id u) && String.eqb (status r) s'
                | None => false
                end) (with_status now s d o) o (orders_order st) Hnd Hin)
      as H.
    cbn beta in H. cbn [with_status business_user status] in H.
    rewrite Hbusiness, Z.eqb_refl in H. exact H. }
  assert (Hknown' : is_Some (List.find (fun x => Auth.id x =? Auth.id u)
                                       (auth_user (base st')))).
  { by rewrite Hst'. }
  split; [|split].
  - exists (count_orders (Auth.id u) "in_progress" st),
           (count_orders (Auth.id u) "in_progress" st').
    unfold BusinessNotCompletedOrderAPIView.get.
    by rewrite !count_view_known.
  - exists (count_orders (Auth.id u) "completed" st),
           (count_orders (Auth.id u) "completed" st').
    unfold BusinessCompletedOrderAPIView.get.
    by rewrite !count_view_known.
  - intros b s' Hb. rewrite Hst'. unfold count_orders. cbn [orders_order].
    pose proof (length_filter_replace
      (fun r => match business_user r with
                | Some k => (k =? b) && String.eqb (status r) s'
                | None => false
                end) (with_status now s d o) o (orders_order st) Hnd Hin)
      as H.
    cbn beta in H. cbn [with_status business_user status] in H.
    rewrite Hbusiness in H.
    destruct (Z.eqb_spec (Auth.id u) b) as [E|_]; [congruence|].
    cbn [andb] in H. lia.
Qed.

Lemma status_change_moves_the_counts_witness :
  let st' :=
    (patch 50 (Auth.Authenticated Sample.alice) 1 (Some "completed")
           SampleOrders.store).1 in
  BusinessNotCompletedOrderAPIView.get (Auth.Authenticated Sample.carol) 1
    SampleOrders.store = (SampleOrders.store, inr (Ok 200 1%nat))
  ∧ BusinessNotCompletedOrderAPIView.get (Auth.Authenticated Sample.carol) 1
      st' = (st', inr (Ok 200 0%nat))
  ∧ BusinessCompletedOrderAPIView.get (Auth.Authenticated Sample.carol) 1
      st' = (st', inr (Ok 200 2%nat)).
Proof.
  intros st'.
  destruct (status_change_moves_the_counts 50 Sample.alice Sample.carol 1
              "completed" (SampleOrders.order 1 1 3 "in_progress" 30)
              SampleOrders.store sample_order_integrity eq_refl eq_refl
              (in_order_status "completed" eq_refl)
              (ex_intro _ Sample.alice eq_refl))
    as ((n & n' & Hn & Hn' & En) & (m & m' & Hm & Hm' & Em) & _).
  fold st' in Hn', Hm'.
  assert (n = 1%nat) as -> by (by injection Hn).
  assert (m = 1%nat) as -> by (by injection Hm).
  assert (n' = 0%nat) as -> by (unfold one_if in En; simpl in En; lia).
  assert (m' = 2%nat) as -> by (unfold one_if in Em; simpl in Em; lia).
  done.
Defined.

End Counts.

Section OrderList.
Import Orders.

#[local] Instance order_by_created_at_total :
  Total OrderListAPIView.by_created_at.
Proof. intros a b. unfold OrderListAPIView.by_created_at. lia. Qed.

#[local] Instance latest_first_total :
  Total (flip OrderListAPIView.by_created_at).
Proof. intros a b. unfold flip, OrderListAPIView.by_created_at. lia. Qed.

Lemma in_get_user_orders u st o :
  o ∈ OrderListAPIView.get_user_orders (Auth.Authenticated u) st
  ↔ o ∈ orders_order st ∧ party u o.
Proof.
  unfold OrderListAPIView.get_user_orders.
  rewrite merge_sort_Permutation, !list_elem_of_In, filter_In.
  unfold party. rewrite orb_true_iff, is_business_user_of_spec, Z.eqb_eq.
  done.
Qed.

Lemma to_representation_many_ok os st :
  Forall (fun o => is_Some (related_detail o st)) os →
  ∃ bs, OrderListAPIView.to_representation_many os st = inr bs
        ∧ map b_order bs = os
        ∧ Forall (fun b => ∃ d, related_detail (b_order b) st = Some d
                                ∧ b_features b = Models.features d) bs.
Proof.
  induction 1 as [|o os [d Hd] _ (bs & Hbs & Hmap & Hall)].
  - by exists [].
  - exists ({| b_order := o; b_features := Models.features d |} :: bs).
    cbn [OrderListAPIView.to_representation_many]. unfold to_representation.
    rewrite Hd, Hbs. split; [done|]. split; [by rewrite <- Hmap|].
    constructor; [by exists d | done].
Qed.

(** X18.  The list of orders, GET [orders/], in a store with complete
    orders: an authenticated user gets the orders the user sold or
    bought and no other, each once, the latest first, each with the
    features its detail has now; an anonymous caller is not
    authenticated. *)
Theorem orders_of_a_user (u : Auth.User) (st : Store)
    (Hstore : order_integrity st) :
  (∃ bs,
     OrderListAPIView.get (Auth.Authenticated u) st = (st, inr (Ok 200 bs))
     ∧ (∀ o, o ∈ map b_order bs ↔ o ∈ orders_order st ∧ party u o)
     ∧ Sorted (flip OrderListAPIView.by_created_at) (map b_order bs)
     ∧ NoDup (map id (map b_order bs))
     ∧ Forall (fun b => ∃ d, related_detail (b_order b) st = Some d
                             ∧ b_features b = Models.features d) bs)
  ∧ OrderListAPIView.get Auth.AnonymousUser st = (st, inl NotAuthenticated).
Proof.
  split; [|done]. destruct Hstore as [Hnd Hall].
  rewrite Forall_forall in Hall.
  destruct (to_representation_many_ok
              (OrderListAPIView.get_user_orders (Auth.Authenticated u) st) st)
    as (bs & Hbs & Hmap & Hfeat).
  { rewrite Forall_forall. intros o [Ho _]%in_get_user_orders.
    by apply Hall. }
  exists bs. unfold OrderListAPIView.get. rewrite Hbs, Hmap.
  split; [done|]. split; [intros o; apply in_get_user_orders|].
  split; [|split; [|done]].
  - apply (Sorted_merge_sort _).
  - unfold OrderListAPIView.get_user_orders.
    change (map id ?l) with (id <$> l) in *.
    rewrite merge_sort_Permutation.
    eapply sublist_NoDup; [exact Hnd | apply fmap_sublist, filter_sublist].
Qed.

Lemma orders_of_a_user_witness :
  ∃ bs,
    OrderListAPIView.get (Auth.Authenticated Sample.bob) SampleOrders.store
    = (SampleOrders.store, inr (Ok 200 bs))
    ∧ (∀ o, o ∈ map b_order bs
            ↔ o ∈ orders_order SampleOrders.store ∧ party Sample.bob o).
Proof.
  destruct (orders_of_a_user Sample.bob SampleOrders.store
              sample_order_integrity) as [(bs & Hget & Hin & _) _].
  by exists bs.
Defined.

End OrderList.

Section OrderRemoval.
Import Orders.

(** X19.  The deletion of an order, DELETE [orders/<pk>/]: an unknown
    key is not found, whoever asks; a known order is deleted for a staff
    user and for nobody else, the buyer and the seller of the order
    included.  The deletion removes the row of the order and nothing
    else; afterwards a status change of that key is not found, and a
    read of it raises [DoesNotExist], which no handler turns into a
    404. *)
Theorem order_delete_outcomes
    (caller : Auth.RequestUser) (pk : Z) (st : Store) :
  let r := OrderSingleAPIView.delete caller pk st in
  (caller = Auth.AnonymousUser → r = (st, inl NotAuthenticated))
  ∧ (∀ u, caller = Auth.Authenticated u → order_at pk st = None →
          r = (st, inl Http404))
  ∧ (∀ u o, caller = Auth.Authenticated u → order_at pk st = Some o →
            Auth.is_staff u = false →
            ∃ detail, r = (st, inr (Refused 403 detail)))
  ∧ (∀ u o, caller = Auth.Authenticated u → order_at pk st = Some o →
            Auth.is_staff u = true →
            r.2 = inr (Ok 204 tt)
            ∧ base r.1 = base st
            ∧ orders_order r.1
              = List.filter (fun x => negb (id x =? pk)) (orders_order st)
            ∧ order_at pk r.1 = None
            ∧ (∀ k, k ≠ pk → order_at k r.1 = order_at k st)
            ∧ (order_integrity st → order_integrity r.1)
            ∧ (∀ now reader status_value,
                 OrderSingleAPIView.patch now (Auth.Authenticated reader) pk
                   status_value r.1 = (r.1, inl Http404))
            ∧ (∀ reader,
                 OrderSingleAPIView.get (Auth.Authenticated reader) pk r.1
                 = (r.1, inl (UncaughtException "DoesNotExist")))).
Proof.
  intros r. subst r. unfold order_at.
  split; [by intros ->|]. split; [|split].
  - intros u -> Hfind. unfold OrderSingleAPIView.delete. by rewrite Hfind.
  - intros u o -> Hfind Hstaff. unfold OrderSingleAPIView.delete.
    rewrite Hfind, Hstaff. by eexists.
  - intros u o -> Hfind Hstaff.
    pose proof (order_at_In pk st o Hfind) as [_ Hid].
    unfold OrderSingleAPIView.delete. rewrite Hfind, Hstaff, Hid.
    cbn [negb fst snd base orders_order].
    assert (Hgone :
      List.find (fun x => id x =? pk)
        (List.filter (fun x => negb (id x =? pk)) (orders_order st)) = None).
    { apply find_filter_none. intros x _ Hx. by rewrite Hx. }
    split; [done|]. split; [done|]. split; [done|]. split; [exact Hgone|].
    split; [|split; [|split]].
    + intros k Hk. apply find_filter_keep. intros x _ Hx.
      apply Z.eqb_eq in Hx. apply negb_true_iff, Z.eqb_neq. congruence.
    + intros [Hnd Hall]. split; cbn [orders_order].
      * change (map id ?l) with (id <$> l) in *.
        eapply sublist_NoDup; [exact Hnd | apply fmap_sublist, filter_sublist].
      * rewrite Forall_forall in Hall. rewrite Forall_forall.
        intros x Hx%list_elem_of_In. apply filter_In in Hx as [Hx _].
        apply list_elem_of_In in Hx. exact (Hall x Hx).
    + intros now reader status_value. unfold OrderSingleAPIView.patch.
      cbn [orders_order]. by rewrite Hgone.
    + intros reader. unfold OrderSingleAPIView.get.
      cbn [orders_order]. by rewrite Hgone.
Qed.

Lemma order_delete_outcomes_witness :
  (∃ detail,
     OrderSingleAPIView.delete (Auth.Authenticated Sample.alice) 1
       SampleOrders.store = (SampleOrders.store, inr (Refused 403 detail)))
  ∧ OrderSingleAPIView.delete (Auth.Authenticated Sample.alice) 9
      SampleOrders.store = (SampleOrders.store, inl Http404)
  ∧ order_at 1
      (OrderSingleAPIView.delete (Auth.Authenticated Sample.bob) 1
         SampleOrders.store).1 = None.
Proof.
  pose proof (order_delete_outcomes (Auth.Authenticated Sample.alice) 1
                SampleOrders.store) as (_ & _ & H403 & _).
  pose proof (order_delete_outcomes (Auth.Authenticated Sample.alice) 9
                SampleOrders.store) as (_ & H404 & _).
  pose proof (order_delete_outcomes (Auth.Authenticated Sample.bob) 1
                SampleOrders.store) as (_ & _ & _ & H204).
  split; [|split].
  - by apply (H403 Sample.alice (SampleOrders.order 1 1 3 "in_progress" 30)).
  - by apply (H404 Sample.alice).
  - by apply (H204 Sample.bob (SampleOrders.order 1 1 3 "in_progress" 30)).
Defined.

(** X20.  The read of one order, GET [orders/<pk>/], in a store with
    complete orders: every authenticated user reads every order by its
    key, also an order that the user neither sold nor bought and that the
    list of the user does not hold; the answer carries the row and the
    features the detail has now.  An unknown key raises [DoesNotExist];
    an anonymous caller is not authenticated. *)
Theorem any_user_reads_any_order
    (reader : Auth.User) (pk : Z) (st : Store)
    (Hstore : order_integrity st) :
  match order_at pk st with
  | Some o =>
      (∃ d, related_detail o st = Some d
            ∧ OrderSingleAPIView.get (Auth.Authenticated reader) pk st
              = (st, inr (Ok 200 {| b_order := o;
                                    b_features := Models.features d |})))
      ∧ (¬ party reader o →
         o ∉ OrderListAPIView.get_user_orders (Auth.Authenticated reader) st)
  | None =>
      OrderSingleAPIView.get (Auth.Authenticated reader) pk st
      = (st, inl (UncaughtException "DoesNotExist"))
  end
  ∧ OrderSingleAPIView.get Auth.AnonymousUser pk st
    = (st, inl NotAuthenticated).
Proof.
  split; [|done]. destruct Hstore as [_ Hall].
  rewrite Forall_forall in Hall.
  destruct (order_at pk st) as [o|] eqn:Hfind.
  - pose proof (order_at_In pk st o Hfind) as [Hin _].
    destruct (Hall o) as [_ [d Hd]]; [by apply list_elem_of_In|].
    split.
    + exists d. split; [done|]. unfold order_at in Hfind.
      unfold OrderSingleAPIView.get, to_representation.
      by rewrite Hfind, Hd.
    + intros Hno [_ Hp]%in_get_user_orders. done.
  - unfold order_at in Hfind. unfold OrderSingleAPIView.get.
    by rewrite Hfind.
Qed.

Lemma any_user_reads_any_order_witness :
  (∃ d, OrderSingleAPIView.get (Auth.Authenticated Sample.bob) 1
          SampleOrders.store
        = (SampleOrders.store,
           inr (Ok 200 {| b_order := SampleOrders.order 1 1 3 "in_progress" 30;
                          b_features := Models.features d |})))
  ∧ SampleOrders.order 1 1 3 "in_progress" 30
    ∉ OrderListAPIView.get_user_orders (Auth.Authenticated Sample.bob)
        SampleOrders.store.
Proof.
  pose proof (any_user_reads_any_order Sample.bob 1 SampleOrders.store
                sample_order_integrity) as [[(d & _ & Hget) Hlist] _].
  split; [by exists d|].
  apply Hlist. unfold party. simpl. intros [?|?]; done.
Defined.

End OrderRemoval.

Section Cascade.
Import Orders.

Lemma related_detail_is_Some o st :
  is_Some (related_detail o st)
  ↔ offer_detail_id o ∈ map detail_id (offers_offerdetail (base st)).
Proof.
  unfold related_detail. split.
  - intros [d Hd]. apply find_some in Hd as [Hin Hk].
    apply Z.eqb_eq in Hk. rewrite <- Hk. by apply list_elem_of_In, in_map.
  - intros Hin. apply list_elem_of_In, in_map_iff in Hin as (d & Hk & Hin).
    destruct (List.find _ _) eqn:E; [by eexists|]. exfalso.
    eapply find_none in E; [|exact Hin]. simpl in E. lia.
Qed.

Lemma cascade_integrity st :
  NoDup (map id (orders_order st)) →
  Forall complete (orders_order st) →
  order_integrity (cascade st).
Proof.
  intros Hnd Hall. split; unfold cascade; cbn [orders_order].
  - change (map id ?l) with (id <$> l) in *.
    eapply sublist_NoDup; [exact Hnd | apply fmap_sublist, filter_sublist].
  - rewrite Forall_forall in Hall. rewrite Forall_forall.
    intros o Ho%list_elem_of_In. apply filter_In in Ho as [Ho Hd].
    split; [by apply Hall, list_elem_of_In|].
    by apply bool_decide_eq_true_1 in Hd.
Qed.

Lemma cascade_keeps db st :
  (∀ k, k ∈ map detail_id (offers_offerdetail (base st)) →
        k ∈ map detail_id (offers_offerdetail db)) →
  order_integrity st →
  orders_order
    (cascade {| base := db; orders_order := orders_order st |})
  = orders_order st.
Proof.
  intros Hkeys [_ Hall]. rewrite Forall_forall in Hall.
  unfold cascade. cbn [orders_order]. apply filter_all.
  intros o Ho%list_elem_of_In. apply bool_decide_eq_true_2.
  destruct (Hall o Ho) as [_ Hd].
  apply related_detail_is_Some. cbn [base].
  by apply Hkeys, related_detail_is_Some.
Qed.

Lemma order_integrity_parts st :
  order_integrity st →
  NoDup (map id (orders_order st)) ∧ Forall complete (orders_order st).
Proof.
  intros [Hnd Hall]. split; [done|]. eapply Forall_impl; [exact Hall|].
  by intros o [? _].
Qed.

Lemma cascade_after_delete pk st :
  integrity (base st) → order_integrity st →
  orders_order
    (cascade {| base := after_delete pk (base st);
                orders_order := orders_order st |})
  = orders_off pk st.
Proof.
  intros (_ & _ & _ & _ & Hnd & _) [_ Hall].
  rewrite Forall_forall in Hall.
  unfold cascade, orders_off. cbn [orders_order].
  apply filter_ext_in. intros o Ho%list_elem_of_In.
  destruct (Hall o Ho) as [_ [d Hd]]. rewrite Hd.
  pose proof Hd as Hfind. unfold related_detail in Hfind.
  apply find_some in Hfind as [Hin Hk]. apply Z.eqb_eq in Hk.
  assert (Hr : related_detail o {| base := after_delete pk (base st);
                                   orders_order := orders_order st |}
               = if offer d =? pk then None else Some d).
  { unfold related_detail, after_delete. cbn [base offers_offerdetail].
    destruct (offer d =? pk) eqn:E.
    - apply find_filter_none. intros x Hx Hkx. apply Z.eqb_eq in Hkx.
      assert (x = d) as -> by (eapply (NoDup_map_eq detail_id); eauto; lia).
      by rewrite E.
    - rewrite find_filter_keep; [exact Hd|].
      intros x Hx Hkx. apply Z.eqb_eq in Hkx.
      assert (x = d) as -> by (eapply (NoDup_map_eq detail_id); eauto; lia).
      by rewrite E. }
  rewrite Hr. destruct (offer d =? pk); cbn [negb].
  - apply bool_decide_eq_false_2. by intros [? ?].
  - by apply bool_decide_eq_true_2.
Qed.

(** X21.  The orders follow the offers.  An order row points to a detail
    row with [on_delete=CASCADE].  In a store with integrity and complete
    orders, the deletion of an offer deletes the orders that were placed
    on the details of that offer and no other order; a refused deletion,
    a creation and an update of an offer leave the order table as it is;
    and after each of them every order is complete and still points to a
    detail row. *)
Theorem orders_follow_the_offers (st : Store)
    (Hoffers : integrity (base st)) (Horders : order_integrity st) :
  (∀ caller pk,
     let r := on_offers (OfferDetailsAPIView.delete caller pk) st in
     order_integrity r.1
     ∧ match r.2 with
       | inr _ => orders_order r.1 = orders_off pk st
       | inl _ => orders_order r.1 = orders_order st
       end)
  ∧ (∀ now caller data,
       let r := on_offers (OfferListAPIView.post now caller data) st in
       order_integrity r.1 ∧ orders_order r.1 = orders_order st)
  ∧ (∀ now method caller pk data,
       let r :=
         on_offers (OfferDetailsAPIView.update now method caller pk data) st
       in order_integrity r.1 ∧ orders_order r.1 = orders_order st).
Proof.
  pose proof (order_integrity_parts st Horders) as [Hnd Hc].
  assert (Hint : ∀ {A} (v : View A), order_integrity (on_offers v st).1).
  { intros A v. unfold on_offers. destruct (v (base st)) as [db r].
    by apply cascade_integrity. }
  assert (Hsame : ∀ {A} (v : View A),
    (∀ k, k ∈ map detail_id (offers_offerdetail (base st)) →
          k ∈ map detail_id (offers_offerdetail (v (base st)).1)) →
    orders_order (on_offers v st).1 = orders_order st).
  { intros A v Hk. unfold on_offers. destruct (v (base st)) as [db r].
    by apply cascade_keeps. }
  split; [|split].
  - intros caller pk r. split; [apply Hint|]. subst r.
    assert (Hcases :
      (∃ e, OfferDetailsAPIView.delete caller pk (base st)
            = (base st, inl e))
      ∨ OfferDetailsAPIView.delete caller pk (base st)
        = (after_delete pk (base st), inr tt)).
    { destruct caller as [|u]; [left; by eexists|].
      destruct (offer_at pk (base st)) as [o|] eqn:Hfind.
      - rewrite (delete_cases u pk o (base st) Hfind).
        destruct (Auth.id u =? user o); [by right|].
        destruct (Auth.is_staff u); [|left; by eexists].
        destruct (Auth.profile u); [by right | left; by eexists].
      - left. exists Http404. unfold offer_at in Hfind.
        unfold OfferDetailsAPIView.delete, Permissions.check_permissions.
        rewrite bind_eval, require_eval. simpl. rewrite bind_eval.
        unfold ORM.get_offer_or_404 at 1. by rewrite Hfind. }
    destruct Hcases as [[e He]|Hdel].
    + specialize (Hsame _ (OfferDetailsAPIView.delete caller pk)).
      unfold on_offers in *. rewrite He in *. cbn [fst snd] in *.
      by apply Hsame.
    + unfold on_offers. rewrite Hdel. cbn [fst snd].
      by apply cascade_after_delete.
  - intros now caller data r. split; [apply Hint|]. apply Hsame.
    intros k Hk.
    destruct (post_store now caller data (base st))
      as [->|(o & vs & -> & _)]; [done|].
    unfold after_create. cbn [offers_offerdetail].
    rewrite map_app. apply elem_of_app. by left.
  - intros now method caller pk data r. split; [apply Hint|]. apply Hsame.
    intros k Hk.
    destruct (update_store now method caller pk data (base st))
      as (_ & _ & _ & Hkeys & _).
    by rewrite Hkeys.
Qed.

(** When Alice deletes the logo, the two orders on its tiers go with it
    and the order on the site stays. *)
Lemma orders_follow_the_offers_witness :
  map id
    (orders_order
       (on_offers
          (OfferDetailsAPIView.delete (Auth.Authenticated Sample.alice) 1)
          SampleOrders.store).1)
  = [2].
Proof.
  pose proof (orders_follow_the_offers SampleOrders.store sample_integrity
                sample_order_integrity) as [Hdel _].
  destruct (Hdel (Auth.Authenticated Sample.alice) 1) as [_ H].
  change ((on_offers
             (OfferDetailsAPIView.delete (Auth.Authenticated Sample.alice) 1)
             SampleOrders.store).2) with (@inr APIException unit tt) in H.
  cbv zeta in H. by rewrite H.
Defined.

End Cascade.
(** ** The list response: selection, order and pages *)

Section ListResponse.
Import Auth Permissions Models OfferListAPIView.

Lemma istartswith_spec s prefix :
  SearchFilter.istartswith s prefix = true
  ↔ ∃ after, fold_case s = fold_case prefix ++ after.
Proof.
  revert s. induction prefix as [|p prefix IH]; intros s.
  - destruct s; simpl; (split; [|done]); intros _; by eexists.
  - destruct s as [|c s]; simpl.
    + split; [done|]. by intros (after & [=]).
    + rewrite andb_true_iff, IH. unfold fold_case. simpl. split.
      * intros [Hc (after & Hs)]. exists after.
        apply Ascii.eqb_eq in Hc. by rewrite Hc, Hs.
      * intros (after & [= Hc Hs]). split; [|by exists after].
        apply Ascii.eqb_eq. done.
Qed.

Lemma icontains_spec s term :
  SearchFilter.icontains s term = true ↔ occurs term s.
Proof.
  unfold occurs. induction s as [|c s IH].
  - cbn [SearchFilter.icontains]. rewrite orb_false_r, istartswith_spec.
    split.
    + intros (after & H). by exists [], after.
    + intros (before & after & H). exists after.
      change (fold_case "") with (@nil ascii) in *.
      symmetry in H. apply app_eq_nil in H as [_ H]. by rewrite H.
  - cbn [SearchFilter.icontains]. rewrite orb_true_iff, IH, istartswith_spec.
    split.
    + intros [(after & H)|(before & after & H)].
      * by exists [], after.
      * exists (SearchFilter.lower c :: before), after.
        unfold fold_case in *. simpl. by rewrite H.
    + intros ([|b before] & after & H).
      * left. by exists after.
      * right. exists before, after. unfold fold_case in *. simpl in H.
        by injection H.
Qed.

Lemma matches_spec terms a :
  SearchFilter.matches terms a = true
  ↔ ∀ term, term ∈ terms →
      occurs term (title (a_offer a)) ∨ occurs term (description (a_offer a)).
Proof.
  unfold SearchFilter.matches. rewrite forallb_forall. split.
  - intros H term Ht. apply list_elem_of_In in Ht. specialize (H term Ht).
    simpl in H. rewrite orb_false_r, orb_true_iff, !icontains_spec in H. done.
  - intros H term Ht. apply list_elem_of_In in Ht. simpl.
    rewrite orb_false_r, orb_true_iff, !icontains_spec. by apply H.
Qed.

Lemma compare_null_antisym {A} (cmp : A → A → comparison) a b :
  (∀ x y, cmp y x = CompOpp (cmp x y)) →
  OrderingFilter.compare_null cmp b a
  = CompOpp (OrderingFilter.compare_null cmp a b).
Proof. intros H. destruct a, b; simpl; auto. Qed.

Lemma column_compare_antisym field a b :
  OrderingFilter.column_compare field b a
  = CompOpp (OrderingFilter.column_compare field a b).
Proof.
  unfold OrderingFilter.column_compare.
  repeat match goal with
         | |- context [String.eqb ?x ?y] => destruct (String.eqb x y)
         end;
    try apply Z.compare_antisym; try apply String.compare_antisym;
    try reflexivity.
  apply compare_null_antisym. intros x y. apply String.compare_antisym.
Qed.

Lemma term_compare_antisym term a b :
  OrderingFilter.term_compare term b a
  = CompOpp (OrderingFilter.term_compare term a b).
Proof.
  unfold OrderingFilter.term_compare.
  destruct (OrderingFilter.descending term).
  - by rewrite column_compare_antisym.
  - apply column_compare_antisym.
Qed.

Lemma ordering_compare_antisym ordering a b :
  OrderingFilter.ordering_compare ordering b a
  = CompOpp (OrderingFilter.ordering_compare ordering a b).
Proof.
  induction ordering as [|term rest IH]; [done|]. simpl.
  rewrite term_compare_antisym.
  by destruct (OrderingFilter.term_compare term a b).
Qed.

#[local] Instance precedes_total ordering :
  Total (OrderingFilter.precedes ordering).
Proof.
  intros a b. unfold OrderingFilter.precedes.
  rewrite (ordering_compare_antisym ordering (a_offer a) (a_offer b)).
  destruct (OrderingFilter.ordering_compare ordering (a_offer a) (a_offer b));
    simpl; auto.
Qed.

Lemma listed_sorted params db term rest :
  OrderingFilter.get_ordering (ordering (query params)) = term :: rest →
  Sorted (OrderingFilter.precedes (term :: rest)) (listed params db).
Proof.
  intros H. unfold listed, OrderingFilter.filter_queryset. rewrite H.
  apply (Sorted_merge_sort _).
Qed.

Lemma sublist_List_filter {A} (f : A → bool) l : sublist (List.filter f l) l.
Proof.
  induction l as [|x l IH]; [done|]. simpl.
  destruct (f x); [by apply sublist_skip | by apply sublist_cons].
Qed.

Lemma listed_rows params db :
  ∃ l, listed params db ≡ₚ l
       ∧ sublist l (get_queryset (query params) db)
       ∧ (OrderingFilter.get_ordering (ordering (query params)) = [] →
          listed params db = l).
Proof.
  set (l := SearchFilter.filter_queryset (search params)
    match filterset_user params with
    | Some k => List.filter (fun a => user (a_offer a) =? k)
                            (get_queryset (query params) db)
    | None => get_queryset (query params) db
    end).
  exists l. split; [|split].
  - unfold listed, OrderingFilter.filter_queryset. fold l.
    destruct (OrderingFilter.get_ordering _); [done|].
    apply merge_sort_Permutation.
  - unfold l, SearchFilter.filter_queryset.
    assert (Hu : sublist
      match filterset_user params with
      | Some k => List.filter (fun a => user (a_offer a) =? k)
                              (get_queryset (query params) db)
      | None => get_queryset (query params) db
      end (get_queryset (query params) db)).
    { destruct (filterset_user params); [apply sublist_List_filter | done]. }
    destruct (search params); [done|].
    etrans; [apply sublist_List_filter | exact Hu].
  - intros H. unfold listed, OrderingFilter.filter_queryset. by rewrite H.
Qed.

(** The page [k] exists: the pages before it do not hold all the rows. *)
Lemma page_exists_iff k size count :
  1 ≤ size →
  k ≤ OfferPagination.num_pages count size ↔ (k - 1) * size < Z.max 1 count.
Proof.
  intros Hs. unfold OfferPagination.num_pages.
  set (M := Z.max 1 count). split.
  - intros Hk.
    pose proof (Z.mul_div_le (M + size - 1) size ltac:(lia)). nia.
  - intros Hk. apply Z.div_le_lower_bound; [lia | nia].
Qed.

Lemma last_page_unique n size count :
  1 ≤ size →
  (n - 1) * size < Z.max 1 count ≤ n * size →
  n = OfferPagination.num_pages count size.
Proof.
  intros Hs [H1 H2].
  pose proof (proj2 (page_exists_iff n size count Hs) H1) as Hle.
  destruct (Z.le_gt_cases (n + 1) (OfferPagination.num_pages count size))
    as [H|H]; [|lia].
  apply (page_exists_iff (n + 1) size count Hs) in H. lia.
Qed.

Lemma paginate_queryset_page {A} page requested (queryset : list A) n :
  let size := OfferPagination.get_page_size requested in
  let count := Z.of_nat (length queryset) in
  page = None ∧ n = 1
  ∨ page = Some (OfferPagination.PageNumber n)
  ∨ page = Some OfferPagination.PageLast
    ∧ n = OfferPagination.num_pages count size →
  OfferPagination.paginate_queryset page requested queryset
  = if (1 <=? n) && ((n - 1) * size <? Z.max 1 count)
    then inr {| OfferPagination.number := n;
                OfferPagination.pages := OfferPagination.num_pages count size;
                OfferPagination.total := count;
                OfferPagination.object_list :=
                  take (Z.to_nat size)
                       (drop (Z.to_nat ((n - 1) * size)) queryset) |}
    else inl Http404.
Proof.
  intros size count Hn.
  pose proof (page_size_bounds requested) as Hs. fold size in Hs.
  assert (Hb : ∀ m, (m <=? OfferPagination.num_pages count size)
                    = ((m - 1) * size <? Z.max 1 count)).
  { intros m. pose proof (page_exists_iff m size count (proj1 Hs)).
    destruct (Z.leb_spec m (OfferPagination.num_pages count size)),
      (Z.ltb_spec ((m - 1) * size) (Z.max 1 count)); lia. }
  unfold OfferPagination.paginate_queryset. subst size count.
  set (last := OfferPagination.num_pages _ _) in *.
  destruct Hn as [[-> ->]|[->|[-> ->]]]; cbv zeta.
  - by rewrite (Hb 1).
  - by rewrite (Hb n).
  - by rewrite (Hb last).
Qed.

(** The response to a request for the page [n], from a caller whose
    filter on the user, if any, names a user. *)
Lemma list_get_page db user params n :
  owners_have_profiles db = true →
  (∀ k, filterset_user params = Some k → k ∈ map Auth.id (auth_user db)) →
  let size := OfferPagination.get_page_size (page_size params) in
  let total := Z.of_nat (length (listed params db)) in
  page params = None ∧ n = 1
  ∨ page params = Some (OfferPagination.PageNumber n)
  ∨ page params = Some OfferPagination.PageLast
    ∧ n = OfferPagination.num_pages total size →
  if (1 <=? n) && ((n - 1) * size <? Z.max 1 total)
  then ∃ data,
         OfferListAPIView.get user params db = (db, inr data)
         ∧ count data = total
         ∧ map OfferSerializer.r_offer (results data)
           = map a_offer
               (take (Z.to_nat size)
                     (drop (Z.to_nat ((n - 1) * size)) (listed params db)))
         ∧ next data = (if n * size <? total then Some (n + 1) else None)
         ∧ previous data = (if 1 <? n then Some (n - 1) else None)
  else OfferListAPIView.get user params db = (db, inl Http404).
Proof.
  intros Hprofiles Huser size total Hn.
  pose proof (page_size_bounds (page_size params)) as Hs. fold size in Hs.
  rewrite list_get_eval, filter_queryset_eval.
  assert (Hok : match filterset_user params with
                | Some k =>
                    if existsb (fun u => Auth.id u =? k) (auth_user db)
                    then inr (listed params db) else inl no_such_user
                | None => inr (listed params db)
                end = (inr (listed params db) : APIException + _)).
  { destruct (filterset_user params) as [k|] eqn:Ek; [|done].
    specialize (Huser k eq_refl). apply user_filter_choice in Huser.
    by rewrite Huser. }
  rewrite Hok.
  rewrite (paginate_queryset_page _ _ (listed params db) n Hn).
  fold size total.
  destruct (1 <=? n) eqn:E1; [|done].
  destruct ((n - 1) * size <? Z.max 1 total) eqn:E2; [|done].
  cbn [andb OfferPagination.object_list].
  destruct (mapM_to_representation db
              (map a_offer
                 (take (Z.to_nat size)
                    (drop (Z.to_nat ((n - 1) * size)) (listed params db))))
              Hprofiles) as (data & Hdata & Hmap).
  { intros o Ho. apply in_map_iff in Ho as (a & <- & Ha).
    apply in_take_drop in Ha. by apply listed_offers in Ha. }
  rewrite Hdata. eexists. split; [reflexivity|].
  unfold get_paginated_response. cbn.
  split; [done|]. split; [exact Hmap|]. split; [|done].
  apply Z.leb_le in E1. apply Z.ltb_lt in E2.
  pose proof (page_exists_iff (n + 1) size total (proj1 Hs)) as Hnext.
  replace (n + 1 - 1) with n in Hnext by lia.
  destruct (Z.ltb_spec n (OfferPagination.num_pages total size)),
    (Z.ltb_spec (n * size) total); try done; exfalso; nia.
Qed.

Lemma listed_sorted_by params db token ordering (R : relation Annotated) :
  OfferListAPIView.ordering (query params) = Some token →
  OrderingFilter.get_ordering (Some token) = ordering →
  ordering ≠ [] →
  (∀ a b, OrderingFilter.precedes ordering a b → R a b) →
  Sorted R (listed params db).
Proof.
  intros Ht Ho Hne HR. destruct ordering as [|term rest]; [done|].
  apply (Sorted_weaken (OrderingFilter.precedes (term :: rest))); [done|].
  apply listed_sorted. by rewrite Ht.
Qed.

(** X22. The response to a list request, in a store where the owner of
    every offer has a profile.  The rows it selects are the rows of
    [get_queryset] whose owner is the user of the filter set, if the
    request names one, and that hold every term of the search in their
    title or in their description, the case of the ASCII letters aside;
    each row is selected as often as [get_queryset] has it.  Under the
    tokens [min_price] and [-min_price] and without the ordering
    parameter the rows keep the order of [get_queryset]; a token that
    names a timestamp orders them anew, and as the token says:
    [updated_at] gives the earliest update first, where [get_queryset]
    gives the latest, and [-updated_at] the latest; of several comma
    separated terms the first on which two rows differ decides.  A
    filter on a user that does not exist is refused.  Otherwise the
    response holds one page of the rows: the page size is the number the
    request asks for when that is positive, but no more than 6, and 6
    otherwise; the page is the first one when the request names none;
    a page below the first or beyond the rows is not found; the response
    counts all the rows and names the next page if rows remain and the
    previous one if there is one. *)
Theorem list_response (db : DB) (params : ListParams)
    (Hprofiles : owners_have_profiles db = true) :
  let rows := listed params db in
  let total := Z.of_nat (length rows) in
  let size :=
    match page_size params with
    | Some k => if 0 <? k then Z.min k 6 else 6
    | None => 6
    end in
  (∀ a, a ∈ rows ↔
        a ∈ get_queryset (query params) db
        ∧ (∀ k, filterset_user params = Some k → user (a_offer a) = k)
        ∧ (∀ term, term ∈ search params →
             occurs term (title (a_offer a))
             ∨ occurs term (description (a_offer a))))
  ∧ (∃ l, rows ≡ₚ l
          ∧ sublist l (get_queryset (query params) db)
          ∧ (ordering (query params) = None
             ∨ ordering (query params) = Some "min_price"
             ∨ ordering (query params) = Some "-min_price" →
             rows = l))
  ∧ (ordering (query params) = Some "updated_at" →
     Sorted (fun a b => updated_at (a_offer a) <= updated_at (a_offer b))
            rows)
  ∧ (ordering (query params) = Some "-updated_at" →
     Sorted (fun a b => updated_at (a_offer b) <= updated_at (a_offer a))
            rows)
  ∧ (ordering (query params) = Some "created_at" →
     Sorted (fun a b => created_at (a_offer a) <= created_at (a_offer b))
            rows)
  ∧ (ordering (query params) = Some "-created_at" →
     Sorted (fun a b => created_at (a_offer b) <= created_at (a_offer a))
            rows)
  ∧ (ordering (query params) = Some "user,-created_at" →
     Sorted (fun a b =>
               user (a_offer a) < user (a_offer b)
               ∨ (user (a_offer a) = user (a_offer b)
                  ∧ created_at (a_offer b) <= created_at (a_offer a)))
            rows)
  ∧ (∀ caller k,
       filterset_user params = Some k →
       k ∉ map Auth.id (auth_user db) →
       OfferListAPIView.get caller params db
       = (db,
          inl (ValidationError
                 (FieldErrors
                    [("user",
                      ["Select a valid choice. That choice is not one of the available choices."])]
                    []))))
  ∧ ((∀ k, filterset_user params = Some k →
           k ∈ map Auth.id (auth_user db)) →
     (∀ caller, page params = Some OfferPagination.PageMalformed →
                OfferListAPIView.get caller params db = (db, inl Http404))
     ∧ (∀ caller n,
          page params = None ∧ n = 1
          ∨ page params = Some (OfferPagination.PageNumber n)
          ∨ page params = Some OfferPagination.PageLast
            ∧ (n - 1) * size < Z.max 1 total <= n * size →
          if (1 <=? n) && ((n - 1) * size <? Z.max 1 total)
          then ∃ data,
                 OfferListAPIView.get caller params db = (db, inr data)
                 ∧ count data = total
                 ∧ map OfferSerializer.r_offer (results data)
                   = map a_offer
                       (take (Z.to_nat size)
                             (drop (Z.to_nat ((n - 1) * size)) rows))
                 ∧ next data
                   = (if n * size <? total then Some (n + 1) else None)
                 ∧ previous data = (if 1 <? n then Some (n - 1) else None)
          else OfferListAPIView.get caller params db = (db, inl Http404))).
Proof.
  intros rows total size.
  split; [|split; [|split; [|split; [|split; [|split; [|split; [|split]]]]]]].
  - intros a. unfold rows. rewrite !list_elem_of_In, in_listed, matches_spec.
    done.
  - destruct (listed_rows params db) as (l & Hp & Hs & Hl).
    exists l. split; [done|]. split; [done|].
    intros [H|[H|H]]; apply Hl; by rewrite H.
  - intros H. apply (listed_sorted_by params db _ ["updated_at"] _ H);
      [by vm_compute | done|].
    intros a b. unfold OrderingFilter.precedes. cbn.
    destruct (Z.compare_spec (updated_at (a_offer a)) (updated_at (a_offer b)));
      [lia | lia | done].
  - intros H. apply (listed_sorted_by params db _ ["-updated_at"] _ H);
      [by vm_compute | done|].
    intros a b. unfold OrderingFilter.precedes. cbn.
    destruct (Z.compare_spec (updated_at (a_offer a)) (updated_at (a_offer b)));
      simpl; [lia | done | lia].
  - intros H. apply (listed_sorted_by params db _ ["created_at"] _ H);
      [by vm_compute | done|].
    intros a b. unfold OrderingFilter.precedes. cbn.
    destruct (Z.compare_spec (created_at (a_offer a)) (created_at (a_offer b)));
      [lia | lia | done].
  - intros H. apply (listed_sorted_by params db _ ["-created_at"] _ H);
      [by vm_compute | done|].
    intros a b. unfold OrderingFilter.precedes. cbn.
    destruct (Z.compare_spec (created_at (a_offer a)) (created_at (a_offer b)));
      simpl; [lia | done | lia].
  - intros H.
    apply (listed_sorted_by params db _ ["user"; "-created_at"] _ H);
      [by vm_compute | done|].
    intros a b. unfold OrderingFilter.precedes. cbn.
    destruct (Z.compare_spec (user (a_offer a)) (user (a_offer b)));
      [|lia|done].
    destruct (Z.compare_spec (created_at (a_offer a)) (created_at (a_offer b)));
      simpl; [lia | done | lia].
  - intros caller k Hk Hno.
    rewrite list_get_eval, filter_queryset_eval, Hk.
    destruct (existsb _ _) eqn:E; [|done].
    by apply user_filter_choice in E.
  - intros Huser. split.
    + intros caller Hm. rewrite list_get_eval, filter_queryset_eval.
      assert (Hp : ∀ queryset : list Annotated,
                OfferPagination.paginate_queryset (page params)
                  (page_size params) queryset = inl Http404).
      { intros queryset. unfold OfferPagination.paginate_queryset.
        by rewrite Hm. }
      destruct (filterset_user params) as [k|] eqn:Ek.
      * specialize (Huser k eq_refl). apply user_filter_choice in Huser.
        by rewrite Huser, Hp.
      * by rewrite Hp.
    + intros caller n Hn.
      pose proof (page_size_bounds (page_size params)) as Hs.
      apply (list_get_page db caller params n Hprofiles Huser).
      destruct Hn as [Hn|[Hn|[Hn Hlast]]]; [by left | by right; left|].
      right. right. split; [done|].
      apply last_page_unique; [exact (proj1 Hs) | exact Hlast].
Qed.

(** Of the seven offers of the crowded store the second page of three
    holds the offers 4, 3 and 2, with a page before it and one after. *)
Lemma list_response_witness :
  owners_have_profiles Sample.crowded = true
  ∧ ∃ data,
      OfferListAPIView.get AnonymousUser (page_request 2 3) Sample.crowded
      = (Sample.crowded, inr data)
      ∧ count data = 7
      ∧ map OfferSerializer.r_offer (results data)
        = map Sample.numbered [4; 3; 2]
      ∧ next data = Some 3
      ∧ previous data = Some 1.
Proof.
  split; [reflexivity|].
  pose proof (list_response Sample.crowded (page_request 2 3) eq_refl)
    as (_ & _ & _ & _ & _ & _ & _ & _ & H).
  destruct H as [_ H]; [done|].
  specialize (H AnonymousUser 2 (or_intror (or_introl eq_refl))).
  exact H.
Defined.

End ListResponse.
